(** * Beamline real-time control core: a shallow embedding of the C++ sources

    The development follows the sources of the repository:
    - [PID]                      the regulator of core/pid.hpp;
    - [Limits], [Magnet], [BPM], [BIC], [Noise], [ControlAPI]
                                 the minimal hardware ports;
    - [BeamLossMonitor], [MachineProtectionSystem]
                                 the machine protection of safety/;
    - [RTLoop]                   the loop of control/loop.hpp that owns the
                                 machine protection ([handle_cmd], [run]);
    - [RTLoopAlt]                the command handler of the second loop
                                 implementation ([handle_command]).

    A C++ [double] is modelled by an exact rational of [Q]: comparisons,
    [std::min], [std::max] and the clamps behave on rationals as they do on
    finite doubles, while sums, products and quotients are exact here and
    rounded there.  A [uint64_t] counter is an [N] with its wrap-around at
    2^64 written out.  A division whose divisor is zero is a fault of the
    model ([Throw DivisionByZero]), so that a guard in front of a division
    is visible in the result.

    The regulator and the limits are given a second time in binary64
    ([PID64], [Limits64], over the primitive floats), for the statements
    that depend on rounding, on overflow to infinity or on NaN. *)

From Stdlib Require Import QArith Qround Lqa ZArith NArith List String Bool Lia.
From Stdlib Require Floats.
Import ListNotations.

Set Implicit Arguments.
Set Warnings "-register-all".
Set Warnings "-automation".
Set Warnings "-notation-for-abbreviation".
Set Warnings "-inexact-float".


(* ================================================================= *)
(** * Part I: definitions *)
(* ================================================================= *)

(** ** Exceptions and fallible computations *)

Inductive exception : Type :=
| DivisionByZero          (* a quotient with a zero divisor *)
| JsonTypeError.          (* nlohmann::json::type_error, thrown by a typed access *)

Inductive outcome (A : Type) : Type :=
| Ok (a : A)
| Throw (e : exception).

Arguments Ok {A} a.
Arguments Throw {A} e.

Definition bind {A B : Type} (m : outcome A) (k : A -> outcome B) : outcome B :=
  match m with
  | Ok a => k a
  | Throw e => Throw e
  end.

Notation "x <- m ;; k" := (bind m (fun x => k))
  (at level 61, m at next level, right associativity).
Notation "' pat <- m ;; k" := (bind m (fun x => match x with pat => k end))
  (at level 61, pat pattern, m at next level, right associativity).

(** ** Doubles as rationals *)

Module Double.

Local Open Scope Q_scope.

Definition flt (a b : Q) : bool :=
  match a ?= b with Lt => true | _ => false end.
Definition fgt (a b : Q) : bool := flt b a.
Definition fle (a b : Q) : bool :=
  match a ?= b with Gt => false | _ => true end.
Definition fge (a b : Q) : bool := fle b a.
Definition feq (a b : Q) : bool :=
  match a ?= b with Eq => true | _ => false end.

(** [std::max(a, b)] is [(a < b) ? b : a]; [std::min(a, b)] is
    [(b < a) ? b : a]. *)
Definition std_max (a b : Q) : Q := if flt a b then b else a.
Definition std_min (a b : Q) : Q := if flt b a then b else a.

(** [std::abs] on a double. *)
Definition std_abs (a : Q) : Q := if flt a 0 then - a else a.

Definition fdiv (a b : Q) : outcome Q :=
  if feq b 0 then Throw DivisionByZero else Ok (a / b).

(** The conversion [(long long) x]: truncation towards zero. *)
Definition to_long_long (x : Q) : Z :=
  if flt x 0 then Qceiling x else Qfloor x.

(** [uint64_t] addition of one, as [fetch_add(1)] leaves the counter. *)
Definition u64_modulus : N := 18446744073709551616%N.
Definition u64_incr (n : N) : N := ((n + 1) mod u64_modulus)%N.

End Double.

Import Double.

(** ** The PID regulator (core/pid.hpp) *)

Module PID.

Local Open Scope Q_scope.

Record t : Type := mk {
  kp : Q;
  ki : Q;
  kd : Q;
  setpoint : Q;
  integ : Q;
  prev_err : Q;
  integ_min : Q;
  integ_max : Q;
  last_proportional : Q;
  last_integral : Q;
  last_derivative : Q;
  last_error : Q
}.

(** The member initialisers of the struct. *)
Definition init : t :=
  {| kp := 1 # 10; ki := 0; kd := 0;
     setpoint := 0;
     integ := 0; prev_err := 0;
     integ_min := - (1000000 # 1); integ_max := 1000000 # 1;
     last_proportional := 0; last_integral := 0;
     last_derivative := 0; last_error := 0 |}.

(** The threshold [1e-9] of the derivative guard. *)
Definition dt_epsilon : Q := 1 # 1000000000.

(** The integrator after the anti-windup block of [step]. *)
Definition step_integ (p : t) (error proportional dt out_min out_max : Q) : Q :=
  if fgt dt 0 then
    let tentative_integ := integ p + error * dt in
    let tentative_integ :=
      std_max (integ_min p) (std_min (integ_max p) tentative_integ) in
    let tentative_output := proportional + ki p * tentative_integ in
    if fge tentative_output out_min && fle tentative_output out_max then
      tentative_integ
    else
      let current_output := proportional + ki p * integ p in
      if (fgt tentative_output out_max && fgt current_output tentative_output)
         || (flt tentative_output out_min && flt current_output tentative_output)
      then tentative_integ
      else integ p
  else integ p.

(** The derivative term of [step]: the quotient is formed only behind the
    guard [dt > 1e-9 && kd != 0.0]. *)
Definition step_derivative (p : t) (error dt : Q) : outcome Q :=
  if fgt dt dt_epsilon && negb (feq (kd p) 0) then
    fdiv (kd p * (error - prev_err p)) dt
  else Ok 0.

Definition step (p : t) (measurement dt out_min out_max : Q) : outcome (Q * t) :=
  let error := setpoint p - measurement in
  let proportional := kp p * error in
  let integ' := step_integ p error proportional dt out_min out_max in
  let integral := ki p * integ' in
  derivative <- step_derivative p error dt ;;
  let output := proportional + integral + derivative in
  let output := std_max out_min (std_min out_max output) in
  Ok (output,
      {| kp := kp p; ki := ki p; kd := kd p;
         setpoint := setpoint p;
         integ := integ';
         prev_err := error;
         integ_min := integ_min p; integ_max := integ_max p;
         last_proportional := proportional;
         last_integral := integral;
         last_derivative := derivative;
         last_error := error |}).

Definition reset (p : t) : t :=
  {| kp := kp p; ki := ki p; kd := kd p;
     setpoint := setpoint p;
     integ := 0;
     prev_err := 0;
     integ_min := integ_min p; integ_max := integ_max p;
     last_proportional := 0;
     last_integral := 0;
     last_derivative := 0;
     last_error := 0 |}.

Definition set_setpoint (p : t) (new_setpoint : Q) (reset_derivative : bool) : t :=
  {| kp := kp p; ki := ki p; kd := kd p;
     setpoint := new_setpoint;
     integ := integ p;
     prev_err := if reset_derivative
                 then new_setpoint - (setpoint p - prev_err p)
                 else prev_err p;
     integ_min := integ_min p; integ_max := integ_max p;
     last_proportional := last_proportional p;
     last_integral := last_integral p;
     last_derivative := last_derivative p;
     last_error := last_error p |}.

Definition set_integrator_limits (p : t) (min_val max_val : Q) : t :=
  {| kp := kp p; ki := ki p; kd := kd p;
     setpoint := setpoint p;
     integ := std_max min_val (std_min max_val (integ p));
     prev_err := prev_err p;
     integ_min := min_val; integ_max := max_val;
     last_proportional := last_proportional p;
     last_integral := last_integral p;
     last_derivative := last_derivative p;
     last_error := last_error p |}.

Definition is_saturated (p : t) (out_min out_max : Q) : bool :=
  let total_output := last_proportional p + last_integral p + last_derivative p in
  fle total_output out_min || fge total_output out_max.

Definition get_integrator (p : t) : Q := integ p.

(** Field assignments, as the loop writes [pid.kp = ...] and the like. *)
Definition with_gains (p : t) (kp' ki' kd' : Q) : t :=
  {| kp := kp'; ki := ki'; kd := kd';
     setpoint := setpoint p;
     integ := integ p; prev_err := prev_err p;
     integ_min := integ_min p; integ_max := integ_max p;
     last_proportional := last_proportional p;
     last_integral := last_integral p;
     last_derivative := last_derivative p;
     last_error := last_error p |}.

Definition with_setpoint (p : t) (sp : Q) : t :=
  {| kp := kp p; ki := ki p; kd := kd p;
     setpoint := sp;
     integ := integ p; prev_err := prev_err p;
     integ_min := integ_min p; integ_max := integ_max p;
     last_proportional := last_proportional p;
     last_integral := last_integral p;
     last_derivative := last_derivative p;
     last_error := last_error p |}.

Definition with_state (p : t) (integ' prev_err' : Q) : t :=
  {| kp := kp p; ki := ki p; kd := kd p;
     setpoint := setpoint p;
     integ := integ'; prev_err := prev_err';
     integ_min := integ_min p; integ_max := integ_max p;
     last_proportional := last_proportional p;
     last_integral := last_integral p;
     last_derivative := last_derivative p;
     last_error := last_error p |}.

(** The integrator lies in the configured window. *)
Definition integ_in_window (p : t) : Prop :=
  integ_min p <= integ p /\ integ p <= integ_max p.

End PID.

(** ** JSON values (nlohmann::json, as far as the command handlers use it) *)

Module Json.

Local Open Scope Q_scope.

(** A parsed payload.  [Discarded] is what [json::parse(s, nullptr, false)]
    returns for a text that is no JSON document. *)
Inductive value : Type :=
| Null
| Boolean (b : bool)
| Number (q : Q)
| String (s : string)
| Array (l : list value)
| Object (m : list (string * value))
| Discarded.

Definition is_object (j : value) : bool :=
  match j with Object _ => true | _ => false end.

Fixpoint find (key : string) (m : list (string * value)) : option value :=
  match m with
  | [] => None
  | (k, v) :: m' => if String.eqb k key then Some v else find key m'
  end.

Definition contains (j : value) (key : string) : bool :=
  match j with
  | Object m => match find key m with Some _ => true | None => false end
  | _ => false
  end.

(** [j[key]] on an object: the member, or null when there is none (the
    library then also stores the null member in [j], which the handlers
    never look at again). *)
Definition at_key (j : value) (key : string) : value :=
  match j with
  | Object m => match find key m with Some v => v | None => Null end
  | _ => Null
  end.

(** [j == "literal"]. *)
Definition eq_literal (j : value) (lit : string) : bool :=
  match j with String s => String.eqb s lit | _ => false end.

(** [std::string s = j]: a string member converts, anything else throws. *)
Definition get_string (j : value) : outcome string :=
  match j with String s => Ok s | _ => Throw JsonTypeError end.

(** [j.value(key, default)] at type [double]: the default when the key is
    absent, the number when the member is one, a type error otherwise. *)
Definition value_double (j : value) (key : string) (default : Q) : outcome Q :=
  match j with
  | Object m =>
      match find key m with
      | None => Ok default
      | Some (Number q) => Ok q
      | Some _ => Throw JsonTypeError
      end
  | _ => Throw JsonTypeError
  end.

(** [j.value(key, default)] at type [bool]. *)
Definition value_bool (j : value) (key : string) (default : bool) : outcome bool :=
  match j with
  | Object m =>
      match find key m with
      | None => Ok default
      | Some (Boolean b) => Ok b
      | Some _ => Throw JsonTypeError
      end
  | _ => Throw JsonTypeError
  end.

End Json.

(** A reply of a command handler: a string literal of the source, or the
    [dump()] of a JSON value built by the handler. *)
Inductive reply : Type :=
| ReplyText (s : string)
| ReplyDump (j : Json.value).

(** The double-quote character, and a word between double quotes, for the
    reply literals. *)
Definition dquote : string := String (Ascii.ascii_of_nat 34) EmptyString.
Definition quoted (s : string) : string := (dquote ++ s ++ dquote)%string.

(** ** What the simulated hardware draws from outside the program *)

Record Env : Type := {
  env_sin : Q -> Q;               (* std::sin *)
  env_gauss : N -> Q;             (* the n-th draw of the normal distribution *)
  env_poisson : Q -> N -> Q;      (* the n-th draw of a Poisson distribution *)
  env_to_string : Q -> string;    (* std::to_string(double) *)
  env_json_parse : string -> Json.value
                                  (* json::parse(s, nullptr, false) *)
}.

(** ** Limits (control/limits.hpp) *)

Module Limits.

Local Open Scope Q_scope.

Record t : Type := mk {
  magnet_min : Q;
  magnet_max : Q
}.

Definition init : t := {| magnet_min := - (2 # 1); magnet_max := 2 # 1 |}.

Definition clamp (l : t) (v : Q) : Q :=
  if flt v (magnet_min l) then magnet_min l
  else if fgt v (magnet_max l) then magnet_max l
  else v.

End Limits.

(** ** Noise, BPM, BIC and Magnet (hw/simple_*.hpp) *)

Module Noise.

(** The generator state is the number of draws made so far. *)
Record t : Type := mk { draws : N }.

Definition init : t := {| draws := 0 |}.

Definition gauss (env : Env) (n : t) : Q * t :=
  (env_gauss env (draws n), {| draws := draws n + 1 |}).

Definition poisson_mean (env : Env) (n : t) (mean : Q) : Q * t :=
  (env_poisson env mean (draws n), {| draws := draws n + 1 |}).

End Noise.

Module BPM.

Local Open Scope Q_scope.

Record t : Type := mk {
  noise : Noise.t;
  phase : Q;
  omega : Q;
  offset : Q;
  step_dt : Q
}.

(** [M_PI] to sixteen digits. *)
Definition M_PI : Q := 3141592653589793 # 1000000000000000.

Definition init : t :=
  {| noise := Noise.init;
     phase := 0;
     omega := 2 * M_PI * 5;
     offset := 0;
     step_dt := 1 # 1000 |}.

Definition inject_offset (b : t) (o : Q) : t :=
  {| noise := noise b; phase := phase b; omega := omega b;
     offset := o;
     step_dt := step_dt b |}.

Definition read (env : Env) (b : t) : Q * t :=
  let phase' := phase b + omega b * step_dt b in
  let '(g, noise') := Noise.gauss env (noise b) in
  (env_sin env phase' * (1 # 2) + offset b + g,
   {| noise := noise'; phase := phase'; omega := omega b;
      offset := offset b; step_dt := step_dt b |}).

End BPM.

Module BIC.

Local Open Scope Q_scope.

Record t : Type := mk {
  noise : Noise.t;
  mean : Q
}.

Definition init : t := {| noise := Noise.init; mean := 10000 # 1 |}.

Definition read (env : Env) (b : t) : Q * t :=
  let '(v, noise') := Noise.poisson_mean env (noise b) (mean b) in
  (v, {| noise := noise'; mean := mean b |}).

End BIC.

Module Magnet.

Local Open Scope Q_scope.

Record t : Type := mk { current : Q }.

Definition init : t := {| current := 0 |}.

Definition set (m : t) (v : Q) : t := {| current := v |}.
Definition get (m : t) : Q := current m.

End Magnet.

(** ** The hardware the loop refers to, and ControlAPI (control/api.hpp)

    The loop holds references: [api.bpm] and [bpm_ref] name one BPM,
    [api.magnet] and [magnet_ref] one Magnet, as the entry point wires
    them.  [commands] is a history of the program: every value passed to
    the actuator's [set], the latest first. *)

Module ControlAPI.

Record t : Type := mk {
  bpm : BPM.t;
  bic : BIC.t;
  magnet : Magnet.t;
  commands : list Q
}.

Definition init : t :=
  {| bpm := BPM.init; bic := BIC.init; magnet := Magnet.init; commands := [] |}.

Definition set_magnet (a : t) (v : Q) : t :=
  {| bpm := bpm a; bic := bic a;
     magnet := Magnet.set (magnet a) v;
     commands := v :: commands a |}.

Definition get_magnet (a : t) : Q := Magnet.get (magnet a).

Definition read_pos (env : Env) (a : t) : Q * t :=
  let '(v, b) := BPM.read env (bpm a) in
  (v, {| bpm := b; bic := bic a; magnet := magnet a; commands := commands a |}).

Definition read_intensity (env : Env) (a : t) : Q * t :=
  let '(v, b) := BIC.read env (bic a) in
  (v, {| bpm := bpm a; bic := b; magnet := magnet a; commands := commands a |}).

(** [bpm_ref.inject_offset(o)], through the loop's own reference. *)
Definition bpm_inject_offset (a : t) (o : Q) : t :=
  {| bpm := BPM.inject_offset (bpm a) o; bic := bic a;
     magnet := magnet a; commands := commands a |}.

End ControlAPI.

(** ** Beam loss monitors (safety/beam_loss_monitor.hpp)

    A monitor stores two callbacks.  They act on a state [E] outside the
    monitor: whatever the registered closure captured. *)

Module BeamLossMonitor.

Local Open Scope Q_scope.

Section WithCaptured.

Variable E : Type.

Definition callback : Type := string -> Q -> E -> E.

Record t : Type := mk {
  blm_id_ : string;
  loss_rate_ : Q;
  threshold_warning_ : Q;
  threshold_abort_ : Q;
  warning_active_ : bool;
  abort_active_ : bool;
  total_measurements_ : N;
  warning_count_ : N;
  abort_count_ : N;
  warning_callback_ : option callback;
  abort_callback_ : option callback
}.

Definition make (id : string) : t :=
  {| blm_id_ := id;
     loss_rate_ := 0;
     threshold_warning_ := 1 # 1000000;
     threshold_abort_ := 1 # 100000;
     warning_active_ := false;
     abort_active_ := false;
     total_measurements_ := 0;
     warning_count_ := 0;
     abort_count_ := 0;
     warning_callback_ := None;
     abort_callback_ := None |}.

(** [if (cb) cb(id, loss)]. *)
Definition invoke (cb : option callback) (id : string) (loss : Q) (e : E) : E :=
  match cb with
  | Some f => f id loss e
  | None => e
  end.

(** The loss rate derived from the beam conditions. *)
Definition simulated_loss (beam_current beam_position : Q) : Q :=
  let position_factor := 1 + std_abs beam_position * (1 # 10) in
  let current_factor := beam_current / (1000 # 1) in
  let base_loss := 1 # 100000000 in
  base_loss * position_factor * current_factor.

Definition update_measurement (b : t) (beam_current beam_position : Q) (e : E)
  : bool * t * E :=
  let loss := simulated_loss beam_current beam_position in
  let warning_triggered := fgt loss (threshold_warning_ b) in
  let abort_triggered := fgt loss (threshold_abort_ b) in
  if abort_triggered && negb (abort_active_ b) then
    (false,
     {| blm_id_ := blm_id_ b;
        loss_rate_ := loss;
        threshold_warning_ := threshold_warning_ b;
        threshold_abort_ := threshold_abort_ b;
        warning_active_ := warning_active_ b;
        abort_active_ := true;
        total_measurements_ := u64_incr (total_measurements_ b);
        warning_count_ := warning_count_ b;
        abort_count_ := u64_incr (abort_count_ b);
        warning_callback_ := warning_callback_ b;
        abort_callback_ := abort_callback_ b |},
     invoke (abort_callback_ b) (blm_id_ b) loss e)
  else
    let rising := warning_triggered && negb (warning_active_ b) in
    let warning_active1 := if rising then true else warning_active_ b in
    (true,
     {| blm_id_ := blm_id_ b;
        loss_rate_ := loss;
        threshold_warning_ := threshold_warning_ b;
        threshold_abort_ := threshold_abort_ b;
        warning_active_ := if negb warning_triggered then false else warning_active1;
        abort_active_ := if negb abort_triggered then false else abort_active_ b;
        total_measurements_ := u64_incr (total_measurements_ b);
        warning_count_ := if rising then u64_incr (warning_count_ b)
                          else warning_count_ b;
        abort_count_ := abort_count_ b;
        warning_callback_ := warning_callback_ b;
        abort_callback_ := abort_callback_ b |},
     if rising then invoke (warning_callback_ b) (blm_id_ b) loss e else e).

Definition set_warning_threshold (b : t) (threshold : Q) : t :=
  {| blm_id_ := blm_id_ b; loss_rate_ := loss_rate_ b;
     threshold_warning_ := threshold;
     threshold_abort_ := threshold_abort_ b;
     warning_active_ := warning_active_ b; abort_active_ := abort_active_ b;
     total_measurements_ := total_measurements_ b;
     warning_count_ := warning_count_ b; abort_count_ := abort_count_ b;
     warning_callback_ := warning_callback_ b;
     abort_callback_ := abort_callback_ b |}.

Definition set_abort_threshold (b : t) (threshold : Q) : t :=
  {| blm_id_ := blm_id_ b; loss_rate_ := loss_rate_ b;
     threshold_warning_ := threshold_warning_ b;
     threshold_abort_ := threshold;
     warning_active_ := warning_active_ b; abort_active_ := abort_active_ b;
     total_measurements_ := total_measurements_ b;
     warning_count_ := warning_count_ b; abort_count_ := abort_count_ b;
     warning_callback_ := warning_callback_ b;
     abort_callback_ := abort_callback_ b |}.

Definition set_warning_callback (b : t) (cb : callback) : t :=
  {| blm_id_ := blm_id_ b; loss_rate_ := loss_rate_ b;
     threshold_warning_ := threshold_warning_ b;
     threshold_abort_ := threshold_abort_ b;
     warning_active_ := warning_active_ b; abort_active_ := abort_active_ b;
     total_measurements_ := total_measurements_ b;
     warning_count_ := warning_count_ b; abort_count_ := abort_count_ b;
     warning_callback_ := Some cb;
     abort_callback_ := abort_callback_ b |}.

Definition set_abort_callback (b : t) (cb : callback) : t :=
  {| blm_id_ := blm_id_ b; loss_rate_ := loss_rate_ b;
     threshold_warning_ := threshold_warning_ b;
     threshold_abort_ := threshold_abort_ b;
     warning_active_ := warning_active_ b; abort_active_ := abort_active_ b;
     total_measurements_ := total_measurements_ b;
     warning_count_ := warning_count_ b; abort_count_ := abort_count_ b;
     warning_callback_ := warning_callback_ b;
     abort_callback_ := Some cb |}.

Definition reset_statistics (b : t) : t :=
  {| blm_id_ := blm_id_ b; loss_rate_ := loss_rate_ b;
     threshold_warning_ := threshold_warning_ b;
     threshold_abort_ := threshold_abort_ b;
     warning_active_ := false; abort_active_ := false;
     total_measurements_ := 0;
     warning_count_ := 0; abort_count_ := 0;
     warning_callback_ := warning_callback_ b;
     abort_callback_ := abort_callback_ b |}.

Definition get_id (b : t) : string := blm_id_ b.
Definition is_warning_active (b : t) : bool := warning_active_ b.
Definition is_abort_active (b : t) : bool := abort_active_ b.

End WithCaptured.

End BeamLossMonitor.

(** ** The machine protection system (safety/machine_protection_system.hpp)

    The system-wide callbacks act on a world [W] outside the protection
    system (for the loop: the loop's own fields).  The callbacks that
    [add_blm] registers with a monitor capture [this]: they act on the
    flags of the protection system and, through its callbacks, on [W]. *)

Module MachineProtectionSystem.

Local Open Scope string_scope.

Section WithWorld.

Variable W : Type.

Record flags : Type := mk_flags {
  beam_permit_ : bool;
  abort_triggered_ : bool;
  total_aborts_ : N;
  beam_abort_callback_ : option (W -> W);
  alarm_callback_ : option (string -> W -> W)
}.

Definition captured : Type := (flags * W)%type.

Record t : Type := mk {
  blms_ : list (BeamLossMonitor.t captured);
  state : flags
}.

Definition trigger_beam_abort (reason source : string) (e : captured) : captured :=
  let '(f, w) := e in
  let f' := {| beam_permit_ := false;
               abort_triggered_ := true;
               total_aborts_ := u64_incr (total_aborts_ f);
               beam_abort_callback_ := beam_abort_callback_ f;
               alarm_callback_ := alarm_callback_ f |} in
  let w1 := match beam_abort_callback_ f with
            | Some cb => cb w
            | None => w
            end in
  let w2 := match alarm_callback_ f with
            | Some cb =>
                let message := "BEAM ABORT: " ++ reason in
                let message :=
                  if String.eqb source EmptyString then message
                  else message ++ " (Source: " ++ source ++ ")" in
                cb message w1
            | None => w1
            end in
  (f', w2).

Definition handle_blm_warning (env : Env) (blm_id : string) (loss_rate : Q)
           (e : captured) : captured :=
  let '(f, w) := e in
  match alarm_callback_ f with
  | Some cb =>
      (f, cb ("BLM WARNING: " ++ blm_id ++ " loss rate: "
                ++ env_to_string env loss_rate) w)
  | None => (f, w)
  end.

Definition handle_blm_abort (blm_id : string) (loss_rate : Q)
           (e : captured) : captured :=
  trigger_beam_abort "BLM_THRESHOLD_EXCEEDED" blm_id e.

Definition add_blm (env : Env) (m : t) (id : string) (position : Q) : t :=
  let blm := BeamLossMonitor.make captured id in
  let blm := BeamLossMonitor.set_warning_callback blm (handle_blm_warning env) in
  let blm := BeamLossMonitor.set_abort_callback blm handle_blm_abort in
  {| blms_ := blms_ m ++ [blm]; state := state m |}.

Definition make (env : Env) : t :=
  let m := {| blms_ := [];
              state := {| beam_permit_ := true;
                          abort_triggered_ := false;
                          total_aborts_ := 0;
                          beam_abort_callback_ := None;
                          alarm_callback_ := None |} |} in
  let m := add_blm env m "BLM_UPSTREAM" (- (5 # 1))%Q in
  let m := add_blm env m "BLM_TARGET" 0%Q in
  add_blm env m "BLM_DOWNSTREAM" (5 # 1)%Q.

(** The loop over [blms_] of [check_safety], with its [break]. *)
Fixpoint check_blms (l : list (BeamLossMonitor.t captured))
         (beam_current beam_position : Q) (e : captured)
  : bool * list (BeamLossMonitor.t captured) * captured :=
  match l with
  | [] => (true, [], e)
  | blm :: rest =>
      let local_position := beam_position in
      let '(blm_safe, blm', e1) :=
        BeamLossMonitor.update_measurement blm beam_current local_position e in
      if negb blm_safe then
        (false, blm' :: rest,
         trigger_beam_abort "BLM_ABORT" (BeamLossMonitor.get_id blm') e1)
      else
        let '(all_safe, rest', e2) :=
          check_blms rest beam_current beam_position e1 in
        (all_safe, blm' :: rest', e2)
  end.

Definition check_safety (m : t) (beam_current beam_position : Q) (w : W)
  : bool * t * W :=
  if negb (beam_permit_ (state m)) then (false, m, w)
  else if abort_triggered_ (state m) then (false, m, w)
  else
    let '(all_safe, blms', (f', w')) :=
      check_blms (blms_ m) beam_current beam_position (state m, w) in
    (all_safe, {| blms_ := blms'; state := f' |}, w').

Definition reset_mps (m : t) : t :=
  {| blms_ := map (@BeamLossMonitor.reset_statistics captured) (blms_ m);
     state := {| beam_permit_ := true;
                 abort_triggered_ := false;
                 total_aborts_ := total_aborts_ (state m);
                 beam_abort_callback_ := beam_abort_callback_ (state m);
                 alarm_callback_ := alarm_callback_ (state m) |} |}.

Definition set_beam_abort_callback (m : t) (cb : W -> W) : t :=
  {| blms_ := blms_ m;
     state := {| beam_permit_ := beam_permit_ (state m);
                 abort_triggered_ := abort_triggered_ (state m);
                 total_aborts_ := total_aborts_ (state m);
                 beam_abort_callback_ := Some cb;
                 alarm_callback_ := alarm_callback_ (state m) |} |}.

Definition set_alarm_callback (m : t) (cb : string -> W -> W) : t :=
  {| blms_ := blms_ m;
     state := {| beam_permit_ := beam_permit_ (state m);
                 abort_triggered_ := abort_triggered_ (state m);
                 total_aborts_ := total_aborts_ (state m);
                 beam_abort_callback_ := beam_abort_callback_ (state m);
                 alarm_callback_ := Some cb |} |}.

Definition is_beam_permitted (m : t) : bool :=
  beam_permit_ (state m) && negb (abort_triggered_ (state m)).

Definition is_abort_active (m : t) : bool := abort_triggered_ (state m).

Definition get_abort_count (m : t) : N := total_aborts_ (state m).

(** A monitor carries the callbacks that [add_blm] registers. *)
Definition standard_blm (env : Env) (b : BeamLossMonitor.t captured) : Prop :=
  BeamLossMonitor.warning_callback_ b = Some (handle_blm_warning env) /\
  BeamLossMonitor.abort_callback_ b = Some handle_blm_abort.

Definition standard_blms (env : Env) (m : t) : Prop :=
  Forall (standard_blm env) (blms_ m).

(** [notified f w w']: the world [w'] comes from [w] by calls of the
    callbacks registered in [f], in any number and order. *)
Inductive notified (f : flags) : W -> W -> Prop :=
| notified_refl : forall w, notified f w w
| notified_abort : forall w w' cb,
    beam_abort_callback_ f = Some cb ->
    notified f w w' -> notified f w (cb w')
| notified_alarm : forall w w' cb message,
    alarm_callback_ f = Some cb ->
    notified f w w' -> notified f w (cb message w').

End WithWorld.

End MachineProtectionSystem.

(** ** The deadline watchdog, as far as the loop consults it

    [check] compares the measured execution time with the budget and keeps
    the verdict in [tripped]; the statistics counters of the class, which
    the loop never reads, are left out. *)

Module Watchdog.

Record t : Type := mk { budget : Z; tripped : bool }.

Definition make (budget_ns : Z) : t := {| budget := budget_ns; tripped := false |}.

Definition check (w : t) (execution_ns : Z) : bool * t :=
  let deadline_missed := (budget w <? execution_ns)%Z in
  (deadline_missed, {| budget := budget w; tripped := deadline_missed |}).

Definition reset (w : t) : t := {| budget := budget w; tripped := false |}.

Definition is_tripped (w : t) : bool := tripped w.

End Watchdog.

(** ** The real-time loop that owns the machine protection (control/loop.hpp) *)

Module RTLoop.

Local Open Scope Q_scope.

(** The fields of the loop that the callbacks of the protection system
    capture through [this]. *)
Record fields : Type := mk_fields {
  api : ControlAPI.t;
  pid : PID.t;
  lim : Limits.t;
  running : bool;
  hz : Q;
  control_enabled : bool;
  emergency_stop : bool;
  loop_count : N;
  deadline_misses : N;
  console : list string          (* lines written to std::cout, latest first *)
}.

Record t : Type := mk {
  self : fields;
  mps : MachineProtectionSystem.t fields
}.

Definition with_api (s : fields) (a : ControlAPI.t) : fields :=
  {| api := a; pid := pid s; lim := lim s; running := running s; hz := hz s;
     control_enabled := control_enabled s; emergency_stop := emergency_stop s;
     loop_count := loop_count s; deadline_misses := deadline_misses s;
     console := console s |}.

Definition with_pid (s : fields) (p : PID.t) : fields :=
  {| api := api s; pid := p; lim := lim s; running := running s; hz := hz s;
     control_enabled := control_enabled s; emergency_stop := emergency_stop s;
     loop_count := loop_count s; deadline_misses := deadline_misses s;
     console := console s |}.

Definition with_hz (s : fields) (h : Q) : fields :=
  {| api := api s; pid := pid s; lim := lim s; running := running s; hz := h;
     control_enabled := control_enabled s; emergency_stop := emergency_stop s;
     loop_count := loop_count s; deadline_misses := deadline_misses s;
     console := console s |}.

Definition with_control_enabled (s : fields) (b : bool) : fields :=
  {| api := api s; pid := pid s; lim := lim s; running := running s; hz := hz s;
     control_enabled := b; emergency_stop := emergency_stop s;
     loop_count := loop_count s; deadline_misses := deadline_misses s;
     console := console s |}.

Definition with_emergency_stop (s : fields) (b : bool) : fields :=
  {| api := api s; pid := pid s; lim := lim s; running := running s; hz := hz s;
     control_enabled := control_enabled s; emergency_stop := b;
     loop_count := loop_count s; deadline_misses := deadline_misses s;
     console := console s |}.

Definition with_counters (s : fields) (n m : N) : fields :=
  {| api := api s; pid := pid s; lim := lim s; running := running s; hz := hz s;
     control_enabled := control_enabled s; emergency_stop := emergency_stop s;
     loop_count := n; deadline_misses := m;
     console := console s |}.

Definition with_console (s : fields) (c : list string) : fields :=
  {| api := api s; pid := pid s; lim := lim s; running := running s; hz := hz s;
     control_enabled := control_enabled s; emergency_stop := emergency_stop s;
     loop_count := loop_count s; deadline_misses := deadline_misses s;
     console := c |}.

(** The beam-abort callback of the constructor:
    [emergency_stop.store(true); control_enabled.store(false);
     api.set_magnet(0.0)]. *)
Definition on_beam_abort (s : fields) : fields :=
  let s := with_emergency_stop s true in
  let s := with_control_enabled s false in
  with_api s (ControlAPI.set_magnet (api s) 0).

(** The alarm callback of the constructor. *)
Definition on_alarm (message : string) (s : fields) : fields :=
  with_console s (("MPS ALARM: " ++ message)%string :: console s).

(** The constructor [RTLoop(a, bpm, mag)]. *)
Definition make (env : Env) (a : ControlAPI.t) : t :=
  let m := MachineProtectionSystem.make fields env in
  let m := MachineProtectionSystem.set_beam_abort_callback m on_beam_abort in
  let m := MachineProtectionSystem.set_alarm_callback m on_alarm in
  {| self := {| api := a; pid := PID.init; lim := Limits.init;
                running := true; hz := 1000 # 1;
                control_enabled := true; emergency_stop := false;
                loop_count := 0; deadline_misses := 0;
                console := [] |};
     mps := m |}.

(** The loop is wired as the constructor leaves it: the monitors call the
    protection system, the protection system calls [on_beam_abort] and
    [on_alarm]. *)
Definition wired (env : Env) (l : t) : Prop :=
  MachineProtectionSystem.standard_blms env (mps l) /\
  MachineProtectionSystem.beam_abort_callback_ (MachineProtectionSystem.state (mps l))
  = Some on_beam_abort /\
  MachineProtectionSystem.alarm_callback_ (MachineProtectionSystem.state (mps l))
  = Some on_alarm.

(** A value within the magnet limits. *)
Definition within (lm : Limits.t) (v : Q) : Prop :=
  Limits.magnet_min lm <= v /\ v <= Limits.magnet_max lm.

(** [std::chrono::nanoseconds((long long)(1e9 / hz))]. *)
Definition period_of (h : Q) : outcome Z :=
  q <- fdiv (1000000000 # 1) h ;;
  Ok (to_long_long q).

(** The literals [{"ok":true}] and [{"ok":false}]. *)
Definition ok_true : reply :=
  ReplyText ("{" ++ quoted "ok" ++ ":true}")%string.
Definition ok_false : reply :=
  ReplyText ("{" ++ quoted "ok" ++ ":false}")%string.

(** [handle_cmd(s, period_ns)]: the reply, the loop after the command and
    the period the reference parameter holds on return. *)
Definition handle_cmd (env : Env) (l : t) (s : string) (period_ns : Z)
  : outcome (reply * t * Z) :=
  let j := env_json_parse env s in
  if negb (Json.is_object j) then Ok (ok_false, l, period_ns)
  else
    let cmd := Json.at_key j "cmd" in
    let f := self l in
    if Json.eq_literal cmd "set_pid" then
      kp' <- Json.value_double j "kp" (PID.kp (pid f)) ;;
      ki' <- Json.value_double j "ki" (PID.ki (pid f)) ;;
      kd' <- Json.value_double j "kd" (PID.kd (pid f)) ;;
      Ok (ok_true,
          {| self := with_pid f (PID.with_gains (pid f) kp' ki' kd');
             mps := mps l |},
          period_ns)
    else if Json.eq_literal cmd "set_freq" then
      requested <- Json.value_double j "hz" (hz f) ;;
      let new_hz := std_max (10 # 1) (std_min (2000 # 1) requested) in
      period_ns' <- period_of new_hz ;;
      Ok (ok_true, {| self := with_hz f new_hz; mps := mps l |}, period_ns')
    else if Json.eq_literal cmd "set_setpoint" then
      sp <- Json.value_double j "sp" 0 ;;
      Ok (ok_true,
          {| self := with_pid f (PID.with_setpoint (pid f) sp); mps := mps l |},
          period_ns)
    else if Json.eq_literal cmd "recommission" then
      let f := with_pid f (PID.with_state (pid f) 0 0) in
      let f := with_api f (ControlAPI.set_magnet (api f) 0) in
      let f := with_api f (ControlAPI.bpm_inject_offset (api f) 0) in
      let f := with_emergency_stop f false in
      let f := with_control_enabled f true in
      Ok (ok_true,
          {| self := f; mps := MachineProtectionSystem.reset_mps (mps l) |},
          period_ns)
    else if Json.eq_literal cmd "emergency_stop" then
      let f := with_emergency_stop f true in
      let f := with_control_enabled f false in
      let f := with_api f (ControlAPI.set_magnet (api f) 0) in
      Ok (ok_true, {| self := f; mps := mps l |}, period_ns)
    else if Json.eq_literal cmd "enable_control" then
      enable <- Json.value_bool j "enable" true ;;
      let f :=
        if negb (emergency_stop f) then
          let f := with_control_enabled f enable in
          if negb enable then with_api f (ControlAPI.set_magnet (api f) 0)
          else f
        else f in
      Ok (ok_true, {| self := f; mps := mps l |}, period_ns)
    else if Json.eq_literal cmd "get_status" then
      let status :=
        Json.Object
          [ ("ok", Json.Boolean true);
            ("loop_frequency", Json.Number (hz f));
            ("loop_count", Json.Number (inject_Z (Z.of_N (loop_count f))));
            ("deadline_misses", Json.Number (inject_Z (Z.of_N (deadline_misses f))));
            ("control_enabled", Json.Boolean (control_enabled f));
            ("emergency_stop", Json.Boolean (emergency_stop f));
            ("mps_safe",
              Json.Boolean (MachineProtectionSystem.is_beam_permitted (mps l)));
            ("mps_abort_count",
              Json.Number
                (inject_Z (Z.of_N (MachineProtectionSystem.get_abort_count (mps l)))));
            ("pid_gains",
              Json.Object [ ("kp", Json.Number (PID.kp (pid f)));
                            ("ki", Json.Number (PID.ki (pid f)));
                            ("kd", Json.Number (PID.kd (pid f))) ]);
            ("setpoint", Json.Number (PID.setpoint (pid f))) ]%string in
      Ok (ReplyDump status, l, period_ns)
    else Ok (ok_false, l, period_ns).

(** *** One iteration of [run] *)

(** What an iteration takes from outside the program: the measured
    execution time, the time stamp of the record, and the payload waiting
    on the command socket, if any. *)
Record tick : Type := mk_tick {
  execution_ns : Z;
  t_end : Q;
  request : option string
}.

Record telemetry : Type := mk_telemetry {
  tm_t : Q;
  tm_pos : Q;
  tm_intensity : Q;
  tm_mag : Q;
  tm_deadline_miss : Z;
  tm_mps_safe : bool;
  tm_mps_abort : bool
}.

(** The loop together with the locals of [run] and what it has sent. *)
Record run_state : Type := mk_run {
  loop : t;
  period_ns : Z;
  wd : Watchdog.t;
  published : list telemetry;     (* latest first *)
  replies : list reply            (* latest first *)
}.

(** Reading the two sensors. *)
Definition read_sensors (env : Env) (l : t) : Q * Q * t :=
  let '(pos, a) := ControlAPI.read_pos env (api (self l)) in
  let '(intensity, a) := ControlAPI.read_intensity env a in
  (pos, intensity, {| self := with_api (self l) a; mps := mps l |}).

(** The machine-protection check and the forced stop that follows an
    unsafe verdict. *)
Definition protect (l : t) (intensity pos : Q) : bool * t :=
  let '(mps_safe, m, f) :=
    MachineProtectionSystem.check_safety (mps l) intensity pos (self l) in
  let f :=
    if negb mps_safe then
      with_control_enabled (with_emergency_stop f true) false
    else f in
  (mps_safe, {| self := f; mps := m |}).

(** The control block: the value [u] and the loop after the actuator
    write. *)
Definition control (l : t) (pos : Q) (period_ns : Z) : outcome (Q * t) :=
  let f := self l in
  if control_enabled f && negb (emergency_stop f) then
    let dt := inject_Z period_ns * (1 # 1000000000) in
    '(u, p) <- PID.step (pid f) pos dt
                 (Limits.magnet_min (lim f)) (Limits.magnet_max (lim f)) ;;
    let f := with_pid f p in
    let f := with_api f (ControlAPI.set_magnet (api f) u) in
    let f := with_api f (ControlAPI.bpm_inject_offset (api f) (- (4 # 10) * u)) in
    Ok (u, {| self := f; mps := mps l |})
  else
    Ok (0, {| self := with_api f (ControlAPI.set_magnet (api f) 0); mps := mps l |}).

(** The first half of an iteration: sensors, machine protection, control
    block.  It yields the two readings, the value [u] and the loop. *)
Definition actuate (env : Env) (l : t) (period_ns : Z) : outcome (Q * Q * Q * t) :=
  let '(pos, intensity, l) := read_sensors env l in
  let '(mps_safe, l) := protect l intensity pos in
  '(u, l) <- control l pos period_ns ;;
  Ok (pos, intensity, u, l).

Definition iteration (env : Env) (tk : tick) (rs : run_state) : outcome run_state :=
  '(pos, intensity, u, l) <- actuate env (loop rs) (period_ns rs) ;;
  let '(deadline_missed, w) := Watchdog.check (wd rs) (execution_ns tk) in
  let f := self l in
  let f := with_counters f (loop_count f)
             (if deadline_missed then u64_incr (deadline_misses f)
              else deadline_misses f) in
  let f := with_counters f (u64_incr (loop_count f)) (deadline_misses f) in
  let l := {| self := f; mps := mps l |} in
  let record :=
    {| tm_t := t_end tk; tm_pos := pos; tm_intensity := intensity;
       tm_mag := ControlAPI.get_magnet (api f);
       tm_deadline_miss := if Watchdog.is_tripped w then 1%Z else 0%Z;
       tm_mps_safe := MachineProtectionSystem.is_beam_permitted (mps l);
       tm_mps_abort := MachineProtectionSystem.is_abort_active (mps l) |} in
  match request tk with
  | Some s =>
      '(r, l', period_ns') <- handle_cmd env l s (period_ns rs) ;;
      Ok {| loop := l'; period_ns := period_ns';
            wd := Watchdog.reset w;
            published := record :: published rs;
            replies := r :: replies rs |}
  | None =>
      Ok {| loop := l; period_ns := period_ns rs;
            wd := Watchdog.reset w;
            published := record :: published rs;
            replies := replies rs |}
  end.

(** The [while (running)] loop over the ticks supplied. *)
Fixpoint iterate (env : Env) (ticks : list tick) (rs : run_state) : outcome run_state :=
  match ticks with
  | [] => Ok rs
  | tk :: rest =>
      if running (self (loop rs)) then
        rs' <- iteration env tk rs ;;
        iterate env rest rs'
      else Ok rs
  end.

(** [run(pub, rep)]: the locals are set up from [hz], then the loop runs. *)
Definition run (env : Env) (ticks : list tick) (l : t) : outcome run_state :=
  p <- period_of (hz (self l)) ;;
  iterate env ticks
    {| loop := l; period_ns := p; wd := Watchdog.make p;
       published := []; replies := [] |}.

End RTLoop.

(** ** The command handler of the second loop implementation

    This loop is written against the instrumented hardware classes and the
    extended limits.  Their operations that the handler calls are taken as
    parameters: [api_emergency_stop] ([ControlAPI::emergency_stop]),
    [bpm_set_beam_position] ([BPM::set_beam_position]), [clamp_pid_gains]
    and [clamp_frequency] (of [Limits]). *)

Module RTLoopAlt.

Local Open Scope Q_scope.

Section WithHardware.

Variable HW : Type.
Variable LimitsT : Type.
Variable api_emergency_stop : HW -> HW.
Variable bpm_set_beam_position : Q -> Q -> HW -> HW.
Variable clamp_pid_gains : LimitsT -> Q -> Q -> Q -> Q * Q * Q.
Variable clamp_frequency : LimitsT -> Q -> Q.

Record t : Type := mk {
  hw : HW;
  pid_ : PID.t;
  limits_ : LimitsT;
  running_ : bool;
  loop_frequency_ : Q;
  loop_count_ : N;
  deadline_misses_ : N;
  avg_loop_time_ : Q;
  max_loop_time_ : Q;
  last_loop_time_ : Q;
  control_enabled_ : bool;
  emergency_stop_ : bool
}.

Definition with_hw (l : t) (h : HW) : t :=
  {| hw := h; pid_ := pid_ l; limits_ := limits_ l; running_ := running_ l;
     loop_frequency_ := loop_frequency_ l;
     loop_count_ := loop_count_ l; deadline_misses_ := deadline_misses_ l;
     avg_loop_time_ := avg_loop_time_ l; max_loop_time_ := max_loop_time_ l;
     last_loop_time_ := last_loop_time_ l;
     control_enabled_ := control_enabled_ l;
     emergency_stop_ := emergency_stop_ l |}.

Definition with_pid (l : t) (p : PID.t) : t :=
  {| hw := hw l; pid_ := p; limits_ := limits_ l; running_ := running_ l;
     loop_frequency_ := loop_frequency_ l;
     loop_count_ := loop_count_ l; deadline_misses_ := deadline_misses_ l;
     avg_loop_time_ := avg_loop_time_ l; max_loop_time_ := max_loop_time_ l;
     last_loop_time_ := last_loop_time_ l;
     control_enabled_ := control_enabled_ l;
     emergency_stop_ := emergency_stop_ l |}.

Definition with_running (l : t) (b : bool) : t :=
  {| hw := hw l; pid_ := pid_ l; limits_ := limits_ l; running_ := b;
     loop_frequency_ := loop_frequency_ l;
     loop_count_ := loop_count_ l; deadline_misses_ := deadline_misses_ l;
     avg_loop_time_ := avg_loop_time_ l; max_loop_time_ := max_loop_time_ l;
     last_loop_time_ := last_loop_time_ l;
     control_enabled_ := control_enabled_ l;
     emergency_stop_ := emergency_stop_ l |}.

Definition with_frequency (l : t) (h : Q) : t :=
  {| hw := hw l; pid_ := pid_ l; limits_ := limits_ l; running_ := running_ l;
     loop_frequency_ := h;
     loop_count_ := loop_count_ l; deadline_misses_ := deadline_misses_ l;
     avg_loop_time_ := avg_loop_time_ l; max_loop_time_ := max_loop_time_ l;
     last_loop_time_ := last_loop_time_ l;
     control_enabled_ := control_enabled_ l;
     emergency_stop_ := emergency_stop_ l |}.

Definition with_counters (l : t) (n m : N) : t :=
  {| hw := hw l; pid_ := pid_ l; limits_ := limits_ l; running_ := running_ l;
     loop_frequency_ := loop_frequency_ l;
     loop_count_ := n; deadline_misses_ := m;
     avg_loop_time_ := avg_loop_time_ l; max_loop_time_ := max_loop_time_ l;
     last_loop_time_ := last_loop_time_ l;
     control_enabled_ := control_enabled_ l;
     emergency_stop_ := emergency_stop_ l |}.

Definition with_control_enabled (l : t) (b : bool) : t :=
  {| hw := hw l; pid_ := pid_ l; limits_ := limits_ l; running_ := running_ l;
     loop_frequency_ := loop_frequency_ l;
     loop_count_ := loop_count_ l; deadline_misses_ := deadline_misses_ l;
     avg_loop_time_ := avg_loop_time_ l; max_loop_time_ := max_loop_time_ l;
     last_loop_time_ := last_loop_time_ l;
     control_enabled_ := b;
     emergency_stop_ := emergency_stop_ l |}.

Definition with_emergency_stop (l : t) (b : bool) : t :=
  {| hw := hw l; pid_ := pid_ l; limits_ := limits_ l; running_ := running_ l;
     loop_frequency_ := loop_frequency_ l;
     loop_count_ := loop_count_ l; deadline_misses_ := deadline_misses_ l;
     avg_loop_time_ := avg_loop_time_ l; max_loop_time_ := max_loop_time_ l;
     last_loop_time_ := last_loop_time_ l;
     control_enabled_ := control_enabled_ l;
     emergency_stop_ := b |}.

(** The constructor: conservative gains and the integrator window. *)
Definition make (h : HW) (lims : LimitsT) : t :=
  {| hw := h;
     pid_ := PID.set_integrator_limits
               (PID.with_setpoint (PID.with_gains PID.init (6 # 10) (5 # 100) 0) 0)
               (- (10 # 1)) (10 # 1);
     limits_ := lims;
     running_ := true;
     loop_frequency_ := 1000 # 1;
     loop_count_ := 0; deadline_misses_ := 0;
     avg_loop_time_ := 0; max_loop_time_ := 0; last_loop_time_ := 0;
     control_enabled_ := true;
     emergency_stop_ := false |}.

Definition reply_of (ok : string) (key text : string) : reply :=
  ReplyText ("{" ++ quoted "ok" ++ ": " ++ ok ++ ", "
                 ++ quoted key ++ ": " ++ quoted text ++ "}")%string.

(** The body of the [try] block, after the parse. *)
Definition dispatch (l : t) (command : Json.value) : outcome (reply * t) :=
  if negb (Json.is_object command) || negb (Json.contains command "cmd") then
    Ok (reply_of "false" "error" "Invalid command format", l)
  else
    cmd <- Json.get_string (Json.at_key command "cmd") ;;
    if String.eqb cmd "set_pid" then
      kp' <- Json.value_double command "kp" (PID.kp (pid_ l)) ;;
      ki' <- Json.value_double command "ki" (PID.ki (pid_ l)) ;;
      kd' <- Json.value_double command "kd" (PID.kd (pid_ l)) ;;
      let '(kp', ki', kd') := clamp_pid_gains (limits_ l) kp' ki' kd' in
      Ok (reply_of "true" "message" "PID gains updated",
          with_pid l (PID.with_gains (pid_ l) kp' ki' kd'))
    else if String.eqb cmd "set_freq" then
      requested <- Json.value_double command "hz" (loop_frequency_ l) ;;
      let new_freq := clamp_frequency (limits_ l) requested in
      Ok (reply_of "true" "message" "Frequency updated",
          with_frequency l new_freq)
    else if String.eqb cmd "set_setpoint" then
      sp <- Json.value_double command "sp" 0 ;;
      Ok (reply_of "true" "message" "Setpoint updated",
          with_pid l (PID.set_setpoint (pid_ l) sp true))
    else if String.eqb cmd "recommission" then
      let l := with_pid l (PID.with_setpoint (PID.reset (pid_ l)) 0) in
      let l := with_hw l (api_emergency_stop (hw l)) in
      let l := with_hw l (bpm_set_beam_position 0 0 (hw l)) in
      let l := with_emergency_stop l false in
      let l := with_control_enabled l true in
      let l := with_counters l 0 0 in
      Ok (reply_of "true" "message" "System recommissioned", l)
    else if String.eqb cmd "emergency_stop" then
      let l := with_emergency_stop l true in
      let l := with_hw l (api_emergency_stop (hw l)) in
      Ok (reply_of "true" "message" "Emergency stop activated", l)
    else if String.eqb cmd "enable_control" then
      enable <- Json.value_bool command "enable" true ;;
      let l := with_control_enabled l enable in
      let l := if negb enable then with_hw l (api_emergency_stop (hw l)) else l in
      Ok (reply_of "true" "message" "Control enable updated", l)
    else if String.eqb cmd "get_status" then
      let status :=
        Json.Object
          [ ("ok", Json.Boolean true);
            ("loop_frequency", Json.Number (loop_frequency_ l));
            ("loop_count", Json.Number (inject_Z (Z.of_N (loop_count_ l))));
            ("deadline_misses",
              Json.Number (inject_Z (Z.of_N (deadline_misses_ l))));
            ("avg_loop_time_ms", Json.Number (avg_loop_time_ l));
            ("max_loop_time_ms", Json.Number (max_loop_time_ l));
            ("control_enabled", Json.Boolean (control_enabled_ l));
            ("emergency_stop", Json.Boolean (emergency_stop_ l));
            ("pid_gains",
              Json.Object [ ("kp", Json.Number (PID.kp (pid_ l)));
                            ("ki", Json.Number (PID.ki (pid_ l)));
                            ("kd", Json.Number (PID.kd (pid_ l))) ]);
            ("setpoint", Json.Number (PID.setpoint (pid_ l))) ]%string in
      Ok (ReplyDump status, l)
    else if String.eqb cmd "stop" then
      Ok (reply_of "true" "message" "Stopping control loop",
          with_running l false)
    else Ok (reply_of "false" "error" "Unknown command", l).

(** [handle_command(command_json)].  The throwing [json::parse] raises
    on a text that is no JSON document; every exception of the block is
    caught and answered.  Each typed access of [dispatch] comes before
    the first assignment of its branch, so the loop is unchanged when
    the handler catches. *)
Definition handle_command (env : Env) (l : t) (command_json : string) : reply * t :=
  match env_json_parse env command_json with
  | Json.Discarded => (reply_of "false" "error" "JSON parse error", l)
  | command =>
      match dispatch l command with
      | Ok r => r
      | Throw _ => (reply_of "false" "error" "JSON parse error", l)
      end
  end.

End WithHardware.

End RTLoopAlt.

(** ** Concrete environments, payloads and loops for the examples *)

(** An environment without noise whose parser answers every text with [j]. *)
Definition env_parsing (j : Json.value) : Env :=
  {| env_sin := fun _ => 0%Q;
     env_gauss := fun _ => 0%Q;
     env_poisson := fun mean _ => mean;
     env_to_string := fun _ => "?"%string;
     env_json_parse := fun _ => j |}.

Definition env_quiet : Env := env_parsing Json.Discarded.

(** The command objects of the examples. *)
Definition cmd_set_freq (hz : Q) : Json.value :=
  Json.Object [ ("cmd", Json.String "set_freq"); ("hz", Json.Number hz) ]%string.

Definition cmd_enable_control (enable : bool) : Json.value :=
  Json.Object [ ("cmd", Json.String "enable_control");
                ("enable", Json.Boolean enable) ]%string.

Definition cmd_emergency_stop : Json.value :=
  Json.Object [ ("cmd", Json.String "emergency_stop") ]%string.



(** The loop as the entry point builds it. *)
Definition loop_fresh : RTLoop.t := RTLoop.make env_quiet ControlAPI.init.

(** The same loop after an emergency stop. *)
Definition loop_stopped : RTLoop.t :=
  {| RTLoop.self :=
       RTLoop.with_control_enabled
         (RTLoop.with_emergency_stop (RTLoop.self loop_fresh) true) false;
     RTLoop.mps := RTLoop.mps loop_fresh |}.

(** The loop as built, in front of a beam of intensity 2000000. *)
Definition loop_hot : RTLoop.t :=
  {| RTLoop.self :=
       RTLoop.with_api (RTLoop.self loop_fresh)
         {| ControlAPI.bpm := BPM.init;
            ControlAPI.bic := {| BIC.noise := Noise.init; BIC.mean := 2000000 # 1 |};
            ControlAPI.magnet := Magnet.init;
            ControlAPI.commands := [] |};
     RTLoop.mps := RTLoop.mps loop_fresh |}.

(** A protection system whose world counts the calls of the beam-abort
    callback. *)
Definition mps_counting : MachineProtectionSystem.t nat :=
  MachineProtectionSystem.set_beam_abort_callback
    (MachineProtectionSystem.make nat env_quiet) S.

(** The second loop over a hardware without state, its limits leaving every
    value as it is. *)
Definition alt_fresh : RTLoopAlt.t unit unit := RTLoopAlt.make tt tt.

Definition alt_handle (j : Json.value) (l : RTLoopAlt.t unit unit)
    : reply * RTLoopAlt.t unit unit :=
  RTLoopAlt.handle_command
    (fun h => h) (fun _ _ h => h)
    (fun _ kp ki kd => (kp, ki, kd)) (fun _ hz => hz)
    (env_parsing j) l EmptyString.

(** The controller of the tests of the integrator window:
    [set_integrator_limits(1.0, 5.0)] on a fresh controller. *)
Definition pid_window_1_5 : PID.t := PID.set_integrator_limits PID.init 1 (5 # 1).

(** ** The periodic clock (core/clock.hpp)

    Instants and durations are counts of nanoseconds.  [now] is what
    [clock::now()] returns at the call. *)

Module PeriodicClock.

Record t : Type := mk {
  period : Z;
  next : Z
}.

(** The constructor, called at the instant [now]. *)
Definition make (p now : Z) : t := {| period := p; next := (now + p)%Z |}.

(** [wait_next()], called at [now]: [sleep_until(next)] returns at once when
    [next] is past and at [next] otherwise; the instant of the return comes
    with the clock. *)
Definition wait_next (c : t) (now : Z) : Z * t :=
  (Z.max now (next c),
   {| period := period c; next := (next c + period c)%Z |}).

Definition get_period (c : t) : Z := period c.

Definition set_period (c : t) (new_period now : Z) : t :=
  {| period := new_period; next := (now + new_period)%Z |}.

Definition time_to_next (c : t) (now : Z) : Z :=
  if (next c <=? now)%Z then 0%Z else (next c - now)%Z.

(** Calls of [wait_next] in sequence, each at its own instant. *)
Fixpoint wait_many (c : t) (nows : list Z) : t :=
  match nows with
  | [] => c
  | now :: rest => wait_many (snd (wait_next c now)) rest
  end.

End PeriodicClock.

(** ** The deadline watchdog, whole (core/watchdog.hpp)

    The class with its statistics.  A callback receives the watchdog as it
    is at the call (its counters) and acts on a world [W] outside it.  The
    counters are [uint64_t] and [uint32_t] with their wrap-around. *)

Module DeadlineWatchdog.

Definition u32_modulus : N := 4294967296%N.
Definition u32_incr (n : N) : N := ((n + 1) mod u32_modulus)%N.
Definition UINT64_MAX : N := 18446744073709551615%N.

(** [static_cast<uint64_t>(execution_time.count())]. *)
Definition to_uint64 (z : Z) : N := Z.to_N (z mod Z.of_N u64_modulus).

Record counters : Type := mk_counters {
  budget : Z;
  warning_threshold : Z;
  tripped : bool;
  consecutive_misses : N;
  total_violations : N;
  total_checks : N;
  consecutive_warnings : N;
  total_warnings : N;
  min_execution_ns : N;
  max_execution_ns : N;
  sum_execution_ns : N;
  critical_consecutive_threshold : N;
  warning_consecutive_threshold : N
}.

Definition with_budget (c : counters) (b wt : Z) : counters :=
  {| budget := b; warning_threshold := wt;
     tripped := tripped c;
     consecutive_misses := consecutive_misses c;
     total_violations := total_violations c;
     total_checks := total_checks c;
     consecutive_warnings := consecutive_warnings c;
     total_warnings := total_warnings c;
     min_execution_ns := min_execution_ns c;
     max_execution_ns := max_execution_ns c;
     sum_execution_ns := sum_execution_ns c;
     critical_consecutive_threshold := critical_consecutive_threshold c;
     warning_consecutive_threshold := warning_consecutive_threshold c |}.

Definition with_misses (c : counters) (trip : bool) (consecutive total : N) : counters :=
  {| budget := budget c; warning_threshold := warning_threshold c;
     tripped := trip;
     consecutive_misses := consecutive;
     total_violations := total;
     total_checks := total_checks c;
     consecutive_warnings := consecutive_warnings c;
     total_warnings := total_warnings c;
     min_execution_ns := min_execution_ns c;
     max_execution_ns := max_execution_ns c;
     sum_execution_ns := sum_execution_ns c;
     critical_consecutive_threshold := critical_consecutive_threshold c;
     warning_consecutive_threshold := warning_consecutive_threshold c |}.

Definition with_warnings (c : counters) (consecutive total : N) : counters :=
  {| budget := budget c; warning_threshold := warning_threshold c;
     tripped := tripped c;
     consecutive_misses := consecutive_misses c;
     total_violations := total_violations c;
     total_checks := total_checks c;
     consecutive_warnings := consecutive;
     total_warnings := total;
     min_execution_ns := min_execution_ns c;
     max_execution_ns := max_execution_ns c;
     sum_execution_ns := sum_execution_ns c;
     critical_consecutive_threshold := critical_consecutive_threshold c;
     warning_consecutive_threshold := warning_consecutive_threshold c |}.

Definition with_statistics (c : counters) (checks mn mx sm : N) : counters :=
  {| budget := budget c; warning_threshold := warning_threshold c;
     tripped := tripped c;
     consecutive_misses := consecutive_misses c;
     total_violations := total_violations c;
     total_checks := checks;
     consecutive_warnings := consecutive_warnings c;
     total_warnings := total_warnings c;
     min_execution_ns := mn;
     max_execution_ns := mx;
     sum_execution_ns := sm;
     critical_consecutive_threshold := critical_consecutive_threshold c;
     warning_consecutive_threshold := warning_consecutive_threshold c |}.

Definition with_thresholds (c : counters) (critical warning : N) : counters :=
  {| budget := budget c; warning_threshold := warning_threshold c;
     tripped := tripped c;
     consecutive_misses := consecutive_misses c;
     total_violations := total_violations c;
     total_checks := total_checks c;
     consecutive_warnings := consecutive_warnings c;
     total_warnings := total_warnings c;
     min_execution_ns := min_execution_ns c;
     max_execution_ns := max_execution_ns c;
     sum_execution_ns := sum_execution_ns c;
     critical_consecutive_threshold := critical;
     warning_consecutive_threshold := warning |}.

(** The counters the constructor leaves. *)
Definition fresh (budget_ns : Z) (warning_ratio : Q) : counters :=
  {| budget := budget_ns;
     warning_threshold := to_long_long (inject_Z budget_ns * warning_ratio);
     tripped := false;
     consecutive_misses := 0;
     total_violations := 0;
     total_checks := 0;
     consecutive_warnings := 0;
     total_warnings := 0;
     min_execution_ns := UINT64_MAX;
     max_execution_ns := 0;
     sum_execution_ns := 0;
     critical_consecutive_threshold := 5;
     warning_consecutive_threshold := 10 |}.

(** [update_statistics]: the compare-and-swap loops of one thread. *)
Definition update_statistics (c : counters) (execution_time : Z) : counters :=
  let exec_ns := to_uint64 execution_time in
  with_statistics c (total_checks c)
    (if (exec_ns <? min_execution_ns c)%N then exec_ns else min_execution_ns c)
    (if (max_execution_ns c <? exec_ns)%N then exec_ns else max_execution_ns c)
    ((sum_execution_ns c + exec_ns) mod u64_modulus)%N.

Section WithWorld.

Variable W : Type.

Definition callback : Type := counters -> W -> W.

Record t : Type := mk {
  state : counters;
  critical_callback : option callback;
  warning_callback : option callback
}.

(** [Watchdog(budget_ns, warning_ratio)]; the default ratio is 0.8. *)
Definition make (budget_ns : Z) (warning_ratio : Q) : t :=
  {| state := fresh budget_ns warning_ratio;
     critical_callback := None;
     warning_callback := None |}.

Definition handle_deadline_miss (cb : option callback) (c : counters) (world : W)
    : counters * W :=
  let consecutive := u32_incr (consecutive_misses c) in
  let c := with_misses c (tripped c) consecutive (u64_incr (total_violations c)) in
  match cb with
  | Some f =>
      if (critical_consecutive_threshold c <=? consecutive)%N
      then (c, f c world) else (c, world)
  | None => (c, world)
  end.

Definition handle_warning (cb : option callback) (c : counters) (world : W)
    : counters * W :=
  let consecutive := u32_incr (consecutive_warnings c) in
  let c := with_warnings c consecutive (u64_incr (total_warnings c)) in
  match cb with
  | Some f =>
      if (warning_consecutive_threshold c <=? consecutive)%N
      then (c, f c world) else (c, world)
  | None => (c, world)
  end.

(** [check(start, end)], with [execution_ns = end - start]. *)
Definition check (w : t) (execution_ns : Z) (world : W) : bool * t * W :=
  let c := state w in
  let c := with_statistics c (u64_incr (total_checks c))
             (min_execution_ns c) (max_execution_ns c) (sum_execution_ns c) in
  let c := update_statistics c execution_ns in
  let deadline_missed := (budget c <? execution_ns)%Z in
  let c := with_misses c deadline_missed (consecutive_misses c) (total_violations c) in
  let '(c, world) :=
    if deadline_missed then handle_deadline_miss (critical_callback w) c world
    else (with_misses c (tripped c) 0 (total_violations c), world) in
  let warning_exceeded := (warning_threshold c <? execution_ns)%Z in
  let '(c, world) :=
    if warning_exceeded then handle_warning (warning_callback w) c world
    else (with_warnings c 0 (total_warnings c), world) in
  (deadline_missed,
   {| state := c;
      critical_callback := critical_callback w;
      warning_callback := warning_callback w |},
   world).

Definition reset (w : t) : t :=
  {| state :=
       with_warnings (with_misses (state w) false 0 (total_violations (state w)))
         0 (total_warnings (state w));
     critical_callback := critical_callback w;
     warning_callback := warning_callback w |}.

Definition reset_all (w : t) : t :=
  let c := state (reset w) in
  let c := with_misses c (tripped c) (consecutive_misses c) 0 in
  let c := with_warnings c (consecutive_warnings c) 0 in
  let c := with_statistics c 0 UINT64_MAX 0 0 in
  {| state := c;
     critical_callback := critical_callback w;
     warning_callback := warning_callback w |}.

Definition set_budget (w : t) (new_budget : Z) : t :=
  {| state := with_budget (state w) new_budget
                (to_long_long (inject_Z new_budget * (8 # 10)));
     critical_callback := critical_callback w;
     warning_callback := warning_callback w |}.

Definition set_thresholds (w : t) (critical_threshold warning_threshold : N) : t :=
  {| state := with_thresholds (state w) critical_threshold warning_threshold;
     critical_callback := critical_callback w;
     warning_callback := warning_callback w |}.

Definition set_critical_callback (w : t) (cb : callback) : t :=
  {| state := state w; critical_callback := Some cb;
     warning_callback := warning_callback w |}.

Definition set_warning_callback (w : t) (cb : callback) : t :=
  {| state := state w; critical_callback := critical_callback w;
     warning_callback := Some cb |}.

Definition is_tripped (w : t) : bool := tripped (state w).
Definition get_consecutive_misses (w : t) : N := consecutive_misses (state w).
Definition get_total_violations (w : t) : N := total_violations (state w).
Definition get_total_warnings (w : t) : N := total_warnings (state w).
Definition get_total_checks (w : t) : N := total_checks (state w).

Definition get_min_execution_ns (w : t) : N :=
  if (min_execution_ns (state w) =? UINT64_MAX)%N then 0%N
  else min_execution_ns (state w).

Definition get_max_execution_ns (w : t) : N := max_execution_ns (state w).

Definition is_critical (w : t) : bool :=
  (critical_consecutive_threshold (state w) <=? consecutive_misses (state w))%N.

(** Checks in sequence. *)
Fixpoint check_many (w : t) (executions : list Z) (world : W) : t * W :=
  match executions with
  | [] => (w, world)
  | e :: rest =>
      let '(_, w', world') := check w e world in
      check_many w' rest world'
  end.

(** What the loop consults of the watchdog: the budget and the verdict of
    the last check. *)
Definition reduce (w : t) : Watchdog.t :=
  {| Watchdog.budget := budget (state w); Watchdog.tripped := tripped (state w) |}.

End WithWorld.

End DeadlineWatchdog.

(** ** The ring buffer (core/ring_buffer.hpp)

    [head] is a [size_t] of 64 bits.  [Undefined] stands for what the source
    leaves undefined: a remainder by zero, an index outside the vector. *)

Module RingBuffer.

Inductive access (A : Type) : Type :=
| Value (a : A)
| Undefined.

Arguments Value {A} a.
Arguments Undefined {A}.

Section WithElement.

Variable T : Type.
Variable default_value : T.           (* a value-initialised [T] *)

Record t : Type := mk {
  buf : list T;
  head : N
}.

Definition make (n : nat) : t := {| buf := repeat default_value n; head := 0 |}.

(** [l[i] = v] on a vector, inside its bounds. *)
Fixpoint store (l : list T) (i : nat) (v : T) : list T :=
  match l, i with
  | [], _ => []
  | _ :: l', O => v :: l'
  | x :: l', S i' => x :: store l' i' v
  end.

Definition buf_size (rb : t) : N := N.of_nat (List.length (buf rb)).

Definition push (rb : t) (v : T) : access t :=
  if (buf_size rb =? 0)%N then Undefined
  else
    let current_head := head rb in
    Value {| buf := store (buf rb) (N.to_nat (current_head mod buf_size rb)) v;
             head := ((current_head + 1) mod u64_modulus)%N |}.

(** The elements in the order in which [for_each] visits them. *)
Definition visited (rb : t) : access (list T) :=
  let current_head := head rb in
  let buffer_size := buf_size rb in
  if (current_head <? buffer_size)%N then
    Value (firstn (N.to_nat current_head) (buf rb))
  else if (buffer_size =? 0)%N then Undefined
  else
    let start_pos := N.to_nat (current_head mod buffer_size) in
    Value (skipn start_pos (buf rb) ++ firstn start_pos (buf rb)).

(** [for_each(f)], the function acting on a state [S]. *)
Definition for_each (S : Type) (f : T -> S -> S) (rb : t) (s : S) : access S :=
  match visited rb with
  | Value l => Value (fold_left (fun acc item => f item acc) l s)
  | Undefined => Undefined
  end.

Definition capacity (rb : t) : N := buf_size rb.

Definition size (rb : t) : N := N.min (head rb) (buf_size rb).

Definition empty (rb : t) : bool := (head rb =? 0)%N.

Definition full (rb : t) : bool := (buf_size rb <=? head rb)%N.

Definition clear (rb : t) : t := {| buf := buf rb; head := 0 |}.

Definition latest (rb : t) : access T :=
  if (head rb =? 0)%N then
    match buf rb with
    | x :: _ => Value x
    | [] => Undefined
    end
  else if (buf_size rb =? 0)%N then Undefined
  else Value (nth (N.to_nat ((head rb - 1) mod buf_size rb)) (buf rb) default_value).

Definition snapshot (rb : t) : access (list T) :=
  for_each (fun item result => result ++ [item]) rb [].

(** Pushes in sequence. *)
Fixpoint push_many (rb : t) (vs : list T) : access t :=
  match vs with
  | [] => Value rb
  | v :: rest =>
      match push rb v with
      | Value rb' => push_many rb' rest
      | Undefined => Undefined
      end
  end.

End WithElement.

End RingBuffer.

(** ** Sequences of calls, for the statements about runs *)

(** One call of [PID::step]: measurement, time step and output bounds. *)
Record step_input : Type := mk_step_input {
  si_measurement : Q;
  si_dt : Q;
  si_out_min : Q;
  si_out_max : Q
}.

(** Steps in sequence; the outputs are dropped. *)
Fixpoint pid_steps (p : PID.t) (inputs : list step_input) : outcome PID.t :=
  match inputs with
  | [] => Ok p
  | i :: rest =>
      '(_, p') <- PID.step p (si_measurement i) (si_dt i)
                    (si_out_min i) (si_out_max i) ;;
      pid_steps p' rest
  end.

(** The last [n] elements of a list. *)
Definition last_n (A : Type) (n : nat) (l : list A) : list A :=
  skipn (List.length l - n) l.

(** ** Further payloads, loops and ticks for the examples *)

(** A [set_freq] command whose [hz] member is a text. *)
Definition cmd_set_freq_text (hz : string) : Json.value :=
  Json.Object [ ("cmd", Json.String "set_freq"); ("hz", Json.String hz) ]%string.

Definition cmd_recommission : Json.value :=
  Json.Object [ ("cmd", Json.String "recommission") ]%string.

(** The loop as built for the environment [env], after an emergency stop. *)
Definition loop_stopped_in (env : Env) : RTLoop.t :=
  {| RTLoop.self :=
       RTLoop.with_control_enabled
         (RTLoop.with_emergency_stop
            (RTLoop.self (RTLoop.make env ControlAPI.init)) true) false;
     RTLoop.mps := RTLoop.mps (RTLoop.make env ControlAPI.init) |}.

(** An iteration within the period, without a request. *)
Definition tick_quiet : RTLoop.tick :=
  {| RTLoop.execution_ns := 1000; RTLoop.t_end := 1 # 1000;
     RTLoop.request := None |}.

(** An iteration that takes 2 ms and finds a request waiting. *)
Definition tick_late_request : RTLoop.tick :=
  {| RTLoop.execution_ns := 2000000; RTLoop.t_end := 2 # 1000;
     RTLoop.request := Some "request"%string |}.

(** ** The regulator and the limits in binary64

    The same C++ code once more, with [double] as the primitive binary64
    floats of the kernel: every sum, product and quotient rounds to
    nearest, ties to even, as IEEE 754 double arithmetic does, and
    infinities and NaN are values.  The statements that depend on rounding,
    on overflow or on NaN are made on these definitions. *)

Module Binary64.

Import PrimFloat.
Local Open Scope float_scope.

(** [std::max(a, b)] is [(a < b) ? b : a]; [std::min(a, b)] is
    [(b < a) ? b : a].  A comparison with NaN is false. *)
Definition std_max (a b : float) : float := if a <? b then b else a.
Definition std_min (a b : float) : float := if b <? a then b else a.

End Binary64.

Module Limits64.

Import PrimFloat.
Local Open Scope float_scope.

Record t : Type := mk { magnet_min : float; magnet_max : float }.

Definition init : t := {| magnet_min := -2.0; magnet_max := 2.0 |}.

(** [if (v < magnet_min) return magnet_min;
     if (v > magnet_max) return magnet_max; return v;] *)
Definition clamp (lm : t) (v : float) : float :=
  if v <? magnet_min lm then magnet_min lm
  else if magnet_max lm <? v then magnet_max lm
  else v.

End Limits64.

Module PID64.

Import PrimFloat.
Import Binary64.
Local Open Scope float_scope.

Record t : Type := mk {
  kp : float;
  ki : float;
  kd : float;
  setpoint : float;
  integ : float;
  prev_err : float;
  integ_min : float;
  integ_max : float;
  last_proportional : float;
  last_integral : float;
  last_derivative : float;
  last_error : float
}.

(** The member initialisers of the struct. *)
Definition init : t :=
  {| kp := 0.1; ki := 0.0; kd := 0.0;
     setpoint := 0.0;
     integ := 0.0; prev_err := 0.0;
     integ_min := -1e6; integ_max := 1e6;
     last_proportional := 0.0; last_integral := 0.0;
     last_derivative := 0.0; last_error := 0.0 |}.

(** The integrator after the [if (dt > 0.0)] block of [step]. *)
Definition step_integ (p : t) (error proportional dt out_min out_max : float) : float :=
  if 0.0 <? dt then
    let tentative_integ := integ p + error * dt in
    let tentative_integ :=
      std_max (integ_min p) (std_min (integ_max p) tentative_integ) in
    let tentative_output := proportional + ki p * tentative_integ in
    if (out_min <=? tentative_output) && (tentative_output <=? out_max) then
      tentative_integ
    else
      let current_output := proportional + ki p * integ p in
      if ((out_max <? tentative_output) && (tentative_output <? current_output))
         || ((tentative_output <? out_min) && (current_output <? tentative_output))
      then tentative_integ
      else integ p
  else integ p.

(** The derivative term: [kd * (error - prev_err) / dt] under the guard
    [dt > 1e-9 && kd != 0.0], else [0.0]. *)
Definition step_derivative (p : t) (error dt : float) : float :=
  if (1e-9 <? dt) && negb (kd p =? 0.0) then kd p * (error - prev_err p) / dt
  else 0.0.

Definition step (p : t) (measurement dt out_min out_max : float) : float * t :=
  let error := setpoint p - measurement in
  let proportional := kp p * error in
  let integ' := step_integ p error proportional dt out_min out_max in
  let integral := ki p * integ' in
  let derivative := step_derivative p error dt in
  let output := proportional + integral + derivative in
  let output := std_max out_min (std_min out_max output) in
  (output,
   {| kp := kp p; ki := ki p; kd := kd p;
      setpoint := setpoint p;
      integ := integ'; prev_err := error;
      integ_min := integ_min p; integ_max := integ_max p;
      last_proportional := proportional;
      last_integral := integral;
      last_derivative := derivative;
      last_error := error |}).

Definition set_setpoint (p : t) (new_setpoint : float) (reset_derivative : bool) : t :=
  {| kp := kp p; ki := ki p; kd := kd p;
     setpoint := new_setpoint;
     integ := integ p;
     prev_err := if reset_derivative
                 then new_setpoint - (setpoint p - prev_err p)
                 else prev_err p;
     integ_min := integ_min p; integ_max := integ_max p;
     last_proportional := last_proportional p;
     last_integral := last_integral p;
     last_derivative := last_derivative p;
     last_error := last_error p |}.

(** [total_output <= out_min || total_output >= out_max] on the sum of the
    three stored terms. *)
Definition is_saturated (p : t) (out_min out_max : float) : bool :=
  let total_output := last_proportional p + last_integral p + last_derivative p in
  (total_output <=? out_min) || (out_max <=? total_output).

(** A regulator at rest with the given derivative gain, setpoint and
    previous error; the other members as initialised. *)
Definition with_derivative (kd' setpoint' prev_err' : float) : t :=
  {| kp := kp init; ki := ki init; kd := kd';
     setpoint := setpoint';
     integ := integ init; prev_err := prev_err';
     integ_min := integ_min init; integ_max := integ_max init;
     last_proportional := 0.0; last_integral := 0.0;
     last_derivative := 0.0; last_error := 0.0 |}.

End PID64.

(* ================================================================= *)
(** * Part II: theorems *)
(* ================================================================= *)

Unset Implicit Arguments.
Local Open Scope Q_scope.

(** ** Comparisons on doubles *)

Lemma flt_cases (a b : Q) :
  (flt a b = true /\ a < b) \/ (flt a b = false /\ b <= a).
Proof.
  unfold flt. destruct (a ?= b) eqn:C.
  - right. split; [reflexivity|]. apply Qeq_alt in C. rewrite C. apply Qle_refl.
  - left. split; [reflexivity|]. now apply Qlt_alt.
  - right. split; [reflexivity|]. apply Qlt_le_weak. now apply Qgt_alt.
Qed.

Lemma fle_cases (a b : Q) :
  (fle a b = true /\ a <= b) \/ (fle a b = false /\ b < a).
Proof.
  unfold fle. destruct (a ?= b) eqn:C.
  - left. split; [reflexivity|]. apply Qeq_alt in C. rewrite C. apply Qle_refl.
  - left. split; [reflexivity|]. apply Qlt_le_weak. now apply Qlt_alt.
  - right. split; [reflexivity|]. now apply Qgt_alt.
Qed.

Lemma feq_cases (a b : Q) :
  (feq a b = true /\ a == b) \/ (feq a b = false /\ ~ a == b).
Proof.
  unfold feq. destruct (a ?= b) eqn:C.
  - left. split; [reflexivity|]. now apply Qeq_alt.
  - right. split; [reflexivity|]. intro E. apply Qeq_alt in E. congruence.
  - right. split; [reflexivity|]. intro E. apply Qeq_alt in E. congruence.
Qed.

(** Case analysis on every comparison of the goal and of the context. *)
Ltac fcmp_on a b cases :=
  let E := fresh "E" in
  let C := fresh "C" in
  destruct (cases a b) as [[E C] | [E C]]; rewrite E in *; clear E.

Ltac fcmp :=
  unfold fgt, fge, std_max, std_min, std_abs in *;
  repeat match goal with
    | |- context [flt ?a ?b] => fcmp_on a b flt_cases
    | |- context [fle ?a ?b] => fcmp_on a b fle_cases
    | |- context [feq ?a ?b] => fcmp_on a b feq_cases
    | H : context [flt ?a ?b] |- _ => fcmp_on a b flt_cases
    | H : context [fle ?a ?b] |- _ => fcmp_on a b fle_cases
    | H : context [feq ?a ?b] |- _ => fcmp_on a b feq_cases
    end;
  cbn [andb orb negb] in *.

Lemma std_clamp_bounds (lo hi x : Q) :
  lo <= hi -> lo <= std_max lo (std_min hi x) /\ std_max lo (std_min hi x) <= hi.
Proof. intros H. fcmp; lra. Qed.

Lemma std_clamp_inside (lo hi x : Q) :
  lo <= x -> x <= hi -> std_max lo (std_min hi x) == x.
Proof. intros H1 H2. fcmp; lra. Qed.

(** ** The regulator *)

Lemma step_derivative_total (p : PID.t) (e dt : Q) :
  exists d, PID.step_derivative p e dt = Ok d.
Proof.
  unfold PID.step_derivative, fdiv, PID.dt_epsilon. fcmp; eauto.
  exfalso. lra.
Qed.

Lemma step_derivative_guarded (p : PID.t) (e dt : Q) :
  dt <= PID.dt_epsilon \/ PID.kd p == 0 -> PID.step_derivative p e dt = Ok 0.
Proof.
  unfold PID.step_derivative, PID.dt_epsilon. intros [H | H]; fcmp;
    try reflexivity; try (exfalso; lra); try contradiction.
Qed.

Lemma step_derivative_taken (p : PID.t) (e dt : Q) :
  PID.dt_epsilon < dt -> ~ PID.kd p == 0 ->
  PID.step_derivative p e dt = Ok (PID.kd p * (e - PID.prev_err p) / dt).
Proof.
  unfold PID.step_derivative, fdiv, PID.dt_epsilon. intros H1 H2. fcmp;
    try reflexivity; try (exfalso; lra); try contradiction.
Qed.


Lemma step_integ_window (p : PID.t) (e pr dt lo hi : Q) :
  PID.integ_in_window p ->
  PID.integ_min p <= PID.step_integ p e pr dt lo hi /\
  PID.step_integ p e pr dt lo hi <= PID.integ_max p.
Proof.
  unfold PID.integ_in_window. intros [H1 H2].
  assert (Hw : PID.integ_min p <= PID.integ_max p) by lra.
  pose proof (std_clamp_bounds _ _ (PID.integ p + e * dt) Hw) as Hc.
  unfold PID.step_integ.
  destruct (fgt dt 0); [|split; assumption].
  match goal with |- context [if ?c then _ else _] => destruct c end;
    [exact Hc|].
  match goal with |- context [if ?c then _ else _] => destruct c end;
    [exact Hc | split; assumption].
Qed.

(** The result of [step], once the derivative term is known. *)
Lemma step_unfold (p : PID.t) (y dt lo hi d : Q) :
  PID.step_derivative p (PID.setpoint p - y) dt = Ok d ->
  PID.step p y dt lo hi =
  Ok (std_max lo (std_min hi
        (PID.kp p * (PID.setpoint p - y)
         + PID.ki p * PID.step_integ p (PID.setpoint p - y)
                        (PID.kp p * (PID.setpoint p - y)) dt lo hi
         + d)),
      {| PID.kp := PID.kp p; PID.ki := PID.ki p; PID.kd := PID.kd p;
         PID.setpoint := PID.setpoint p;
         PID.integ := PID.step_integ p (PID.setpoint p - y)
                        (PID.kp p * (PID.setpoint p - y)) dt lo hi;
         PID.prev_err := PID.setpoint p - y;
         PID.integ_min := PID.integ_min p; PID.integ_max := PID.integ_max p;
         PID.last_proportional := PID.kp p * (PID.setpoint p - y);
         PID.last_integral :=
           PID.ki p * PID.step_integ p (PID.setpoint p - y)
                        (PID.kp p * (PID.setpoint p - y)) dt lo hi;
         PID.last_derivative := d;
         PID.last_error := PID.setpoint p - y |}).
Proof. intros H. unfold PID.step. rewrite H. reflexivity. Qed.

Lemma step_total (p : PID.t) (y dt lo hi : Q) :
  exists u p', PID.step p y dt lo hi = Ok (u, p').
Proof.
  destruct (step_derivative_total p (PID.setpoint p - y) dt) as [d Hd].
  rewrite (step_unfold p y dt lo hi d Hd). eauto.
Qed.

(** The output of [step] lies between the bounds it was given. *)
Lemma step_output_clamped (p p' : PID.t) (y dt lo hi u : Q) :
  lo <= hi -> PID.step p y dt lo hi = Ok (u, p') -> lo <= u /\ u <= hi.
Proof.
  intros Hb H.
  destruct (step_derivative_total p (PID.setpoint p - y) dt) as [d Hd].
  rewrite (step_unfold p y dt lo hi d Hd) in H. injection H as <- _.
  now apply std_clamp_bounds.
Qed.

(** C4, as stated, fails: with the window [1, 5] the integrator is inside
    the window, and [reset] puts it at 0, outside. *)
Lemma reset_leaves_integrator_window :
  PID.integ_in_window pid_window_1_5 /\
  ~ PID.integ_in_window (PID.reset pid_window_1_5).
Proof.
  split.
  - unfold PID.integ_in_window. vm_compute. split; discriminate.
  - unfold PID.integ_in_window. vm_compute. intros [H _]. apply H. reflexivity.
Qed.

(** C4, amended: [step] keeps the integrator inside the configured window
    whenever it was inside before, for every measurement, time step and
    output bounds; [set_integrator_limits(lo, hi)] leaves it inside the new
    window exactly when [lo <= hi]; [reset] leaves it at 0, which is inside
    the window exactly when the window contains 0. *)
Theorem integrator_window (p : PID.t) :
  (forall y dt lo hi,
      PID.integ_in_window p ->
      exists u p',
        PID.step p y dt lo hi = Ok (u, p') /\
        PID.integ_min p' = PID.integ_min p /\
        PID.integ_max p' = PID.integ_max p /\
        PID.integ_in_window p') /\
  (forall lo hi,
      PID.integ_min (PID.set_integrator_limits p lo hi) = lo /\
      PID.integ_max (PID.set_integrator_limits p lo hi) = hi /\
      (PID.integ_in_window (PID.set_integrator_limits p lo hi) <-> lo <= hi)) /\
  PID.integ (PID.reset p) = 0 /\
  (PID.integ_in_window (PID.reset p) <->
   PID.integ_min p <= 0 /\ 0 <= PID.integ_max p).
Proof.
  split; [|split; [|split]].
  - intros y dt lo hi Hw.
    destruct (step_derivative_total p (PID.setpoint p - y) dt) as [d Hd].
    do 2 eexists.
    rewrite (step_unfold p y dt lo hi d Hd).
    split; [reflexivity|]. split; [reflexivity|]. split; [reflexivity|].
    unfold PID.integ_in_window; cbn. now apply step_integ_window.
  - intros lo hi. split; [reflexivity|]. split; [reflexivity|].
    unfold PID.integ_in_window; cbn. split.
    + intros [H1 H2]. lra.
    + intros H. now apply std_clamp_bounds.
  - reflexivity.
  - unfold PID.integ_in_window; cbn. tauto.
Qed.

Lemma integrator_window_witness :
  (exists u p',
      PID.step PID.init 1 (1 # 1000) (- (2 # 1)) (2 # 1) = Ok (u, p') /\
      PID.integ_in_window p') /\
  PID.integ_in_window (PID.set_integrator_limits PID.init (- (10 # 1)) (10 # 1)) /\
  PID.integ_in_window (PID.reset PID.init).
Proof.
  destruct (integrator_window PID.init) as (Hstep & Hlim & _ & Hreset).
  split; [|split].
  - destruct (Hstep 1 (1 # 1000) (- (2 # 1)) (2 # 1)) as (u & p' & H1 & _ & _ & H2).
    + unfold PID.integ_in_window. cbn. lra.
    + exists u, p'. split; assumption.
  - apply (Hlim (- (10 # 1)) (10 # 1)). lra.
  - apply Hreset. cbn. lra.
Defined.

(** In exact arithmetic the repositioning of [prev_err] cancels the change
    of the setpoint in the derivative term of the next [step]. *)
Lemma set_setpoint_bumpless_exact (p : PID.t) (sp_new y dt lo hi : Q) :
  PID.prev_err (PID.set_setpoint p sp_new true)
  = sp_new - (PID.setpoint p - PID.prev_err p) /\
  PID.setpoint (PID.set_setpoint p sp_new true) = sp_new /\
  exists u1 q1 u2 q2,
    PID.step (PID.set_setpoint p sp_new true) y dt lo hi = Ok (u1, q1) /\
    PID.step p y dt lo hi = Ok (u2, q2) /\
    PID.last_derivative q1 == PID.last_derivative q2.
Proof.
  split; [reflexivity|]. split; [reflexivity|].
  set (p1 := PID.set_setpoint p sp_new true).
  destruct (Qlt_le_dec PID.dt_epsilon dt) as [Hdt | Hdt].
  - destruct (Qeq_dec (PID.kd p) 0) as [Hk | Hk].
    + pose proof (step_derivative_guarded p1 (PID.setpoint p1 - y) dt (or_intror Hk)) as H1.
      pose proof (step_derivative_guarded p (PID.setpoint p - y) dt (or_intror Hk)) as H2.
      do 4 eexists.
      rewrite (step_unfold p1 y dt lo hi 0 H1), (step_unfold p y dt lo hi 0 H2).
      split; [reflexivity|]. split; [reflexivity|]. cbn. reflexivity.
    + pose proof (step_derivative_taken p1 (PID.setpoint p1 - y) dt Hdt Hk) as H1.
      pose proof (step_derivative_taken p (PID.setpoint p - y) dt Hdt Hk) as H2.
      do 4 eexists.
      rewrite (step_unfold p1 y dt lo hi _ H1), (step_unfold p y dt lo hi _ H2).
      split; [reflexivity|]. split; [reflexivity|]. cbn. unfold Qdiv.
      apply Qmult_comp; [ring | reflexivity].
  - pose proof (step_derivative_guarded p1 (PID.setpoint p1 - y) dt (or_introl Hdt)) as H1.
    pose proof (step_derivative_guarded p (PID.setpoint p - y) dt (or_introl Hdt)) as H2.
    do 4 eexists.
    rewrite (step_unfold p1 y dt lo hi 0 H1), (step_unfold p y dt lo hi 0 H2).
    split; [reflexivity|]. split; [reflexivity|]. cbn. reflexivity.
Qed.

Section SetpointInBinary64.

Import PrimFloat.
Local Open Scope float_scope.

(** In binary64 the three subtractions round.  A regulator with [kd = 0.5],
    setpoint 0 and previous error 0.1 measures 0.2 after 1 ms: its
    derivative term is -150.00000000000003.  After [set_setpoint(0.5)] the
    same step has the derivative term -150.  With previous error 0.3 the
    term is -250; after [set_setpoint(1e16)] both the error and the
    repositioned previous error round to 1e16, and the term is 0. *)
Lemma set_setpoint_derivative_jumps :
  (let p := PID64.with_derivative 0.5 0.0 0.1 in
   let unchanged := snd (PID64.step p 0.2 0.001 (-2.0) 2.0) in
   let changed :=
     snd (PID64.step (PID64.set_setpoint p 0.5 true) 0.2 0.001 (-2.0) 2.0) in
   PID64.last_derivative unchanged = -150.00000000000003 /\
   PID64.last_derivative changed = -150.0 /\
   (PID64.last_derivative changed =? PID64.last_derivative unchanged) = false) /\
  (let p := PID64.with_derivative 0.5 0.0 0.3 in
   let unchanged := snd (PID64.step p 0.2 0.001 (-2.0) 2.0) in
   let changed :=
     snd (PID64.step (PID64.set_setpoint p 1e16 true) 0.2 0.001 (-2.0) 2.0) in
   PID64.prev_err (PID64.set_setpoint p 1e16 true) = 1e16 /\
   PID64.last_derivative unchanged = -250.0 /\
   PID64.last_derivative changed = 0.0 /\
   (PID64.last_derivative changed =? PID64.last_derivative unchanged) = false).
Proof. vm_compute. repeat split. Qed.

(** C9: with the reset-derivative option [set_setpoint] stores
    [new_setpoint - (setpoint - prev_err)], evaluated in double arithmetic,
    in [prev_err], then the new setpoint; without the option it stores the
    setpoint only; nothing else of the regulator changes.  In exact
    arithmetic this makes the derivative term of the next [step] equal to
    the one the same [step] yields without the change. *)
Theorem set_setpoint_bumpless (q : PID64.t) (new_setpoint : float)
        (p : PID.t) (sp_new y dt lo hi : Q) :
  (PID64.prev_err (PID64.set_setpoint q new_setpoint true)
   = new_setpoint - (PID64.setpoint q - PID64.prev_err q) /\
   PID64.prev_err (PID64.set_setpoint q new_setpoint false) = PID64.prev_err q /\
   forall reset_derivative,
     let q' := PID64.set_setpoint q new_setpoint reset_derivative in
     PID64.setpoint q' = new_setpoint /\
     PID64.kp q' = PID64.kp q /\ PID64.ki q' = PID64.ki q /\ PID64.kd q' = PID64.kd q /\
     PID64.integ q' = PID64.integ q /\
     PID64.integ_min q' = PID64.integ_min q /\ PID64.integ_max q' = PID64.integ_max q /\
     PID64.last_proportional q' = PID64.last_proportional q /\
     PID64.last_integral q' = PID64.last_integral q /\
     PID64.last_derivative q' = PID64.last_derivative q /\
     PID64.last_error q' = PID64.last_error q) /\
  (PID.prev_err (PID.set_setpoint p sp_new true)
   = (sp_new - (PID.setpoint p - PID.prev_err p))%Q /\
   PID.setpoint (PID.set_setpoint p sp_new true) = sp_new /\
   exists u1 q1 u2 q2,
     PID.step (PID.set_setpoint p sp_new true) y dt lo hi = Ok (u1, q1) /\
     PID.step p y dt lo hi = Ok (u2, q2) /\
     (PID.last_derivative q1 == PID.last_derivative q2)%Q).
Proof.
  split.
  - split; [reflexivity|]. split; [reflexivity|].
    intros reset_derivative. cbn. repeat split.
  - apply set_setpoint_bumpless_exact.
Qed.

End SetpointInBinary64.



(** ** The position sensor *)

(** C5, as stated, fails: after [inject_offset(1)] and [inject_offset(2)]
    the offset has not grown by 3. *)
Lemma inject_offset_does_not_accumulate :
  ~ BPM.offset (BPM.inject_offset (BPM.inject_offset BPM.init 1) 2)
    == BPM.offset BPM.init + (1 + 2).
Proof. vm_compute. discriminate. Qed.

(** C5, amended: [inject_offset(delta)] replaces the offset by [delta].  After
    [inject_offset(a)] and [inject_offset(b)] the offset is [b], and the next
    [read] returns the oscillation plus [b] plus the noise sample. *)
Theorem inject_offset_replaces (env : Env) (bpm : BPM.t) (a b : Q) :
  BPM.offset (BPM.inject_offset (BPM.inject_offset bpm a) b) = b /\
  fst (BPM.read env (BPM.inject_offset (BPM.inject_offset bpm a) b))
  = env_sin env (BPM.phase bpm + BPM.omega bpm * BPM.step_dt bpm) * (1 # 2)
    + b
    + env_gauss env (Noise.draws (BPM.noise bpm)).
Proof. split; reflexivity. Qed.

(** ** The command handler of the loop *)


Lemma at_key_found (m : list (string * Json.value)) (key : string) (v : Json.value) :
  Json.find key m = Some v -> Json.at_key (Json.Object m) key = v.
Proof. intros H. cbn. now rewrite H. Qed.

Lemma period_of_total (h : Q) :
  0 < h -> RTLoop.period_of h = Ok (to_long_long ((1000000000 # 1) / h)).
Proof.
  intros H. unfold RTLoop.period_of, fdiv.
  destruct (feq_cases h 0) as [[E C] | [E C]]; rewrite E.
  - exfalso. lra.
  - reflexivity.
Qed.

(** The period that belongs to a frequency within [10, 2000]. *)
Lemma period_of_clamped (h : Q) :
  (10 # 1) <= h -> h <= (2000 # 1) ->
  exists p,
    RTLoop.period_of h = Ok p /\ (500000 <= p <= 100000000)%Z.
Proof.
  intros Hlo Hhi. exists (to_long_long ((1000000000 # 1) / h)).
  split; [apply period_of_total; lra|].
  assert (H1 : (500000 # 1) <= (1000000000 # 1) / h)
    by (apply Qle_shift_div_l; lra).
  assert (H2 : (1000000000 # 1) / h <= (100000000 # 1))
    by (apply Qle_shift_div_r; lra).
  unfold to_long_long.
  destruct (flt_cases ((1000000000 # 1) / h) 0) as [[E C] | [E C]]; rewrite E;
    [exfalso; lra|].
  split.
  - change 500000%Z with (Qfloor (inject_Z 500000)). apply Qfloor_resp_le. exact H1.
  - change 100000000%Z with (Qfloor (inject_Z 100000000)). apply Qfloor_resp_le. exact H2.
Qed.

(** A [set_freq] command whose [hz] member holds a text. *)
Lemma set_freq_text_throws :
  RTLoop.handle_cmd (env_parsing (cmd_set_freq_text "fast")) loop_fresh EmptyString 1000000
  = Throw JsonTypeError.
Proof. reflexivity. Qed.

(** C7: a [set_freq] command that requests the number [x] (its [hz] member
    is [x], or it has no [hz] member and [x] is the current frequency) is
    answered with [{"ok":true}] and leaves the loop frequency at [x] clamped
    to [10, 2000]: inside the range it is [x], below it 10, above it 2000.
    The period is recomputed from the new frequency and lies between
    500000 ns and 100000000 ns, which it takes at 2000 and at 10.  Nothing
    else of the loop changes. *)
Theorem set_freq_clamped (env : Env) (l : RTLoop.t) (s : string) (period_ns : Z)
        (m : list (string * Json.value)) (x : Q) :
  env_json_parse env s = Json.Object m ->
  Json.find "cmd" m = Some (Json.String "set_freq") ->
  Json.find "hz" m = Some (Json.Number x) \/
  (Json.find "hz" m = None /\ x = RTLoop.hz (RTLoop.self l)) ->
  exists l' period_ns',
    RTLoop.handle_cmd env l s period_ns = Ok (RTLoop.ok_true, l', period_ns') /\
    RTLoop.ok_true = ReplyText ("{" ++ quoted "ok" ++ ":true}")%string /\
    RTLoop.hz (RTLoop.self l') = std_max (10 # 1) (std_min (2000 # 1) x) /\
    (10 # 1) <= RTLoop.hz (RTLoop.self l') /\
    RTLoop.hz (RTLoop.self l') <= (2000 # 1) /\
    ((10 # 1) <= x /\ x <= (2000 # 1) -> RTLoop.hz (RTLoop.self l') == x) /\
    (x < (10 # 1) ->
     RTLoop.hz (RTLoop.self l') = (10 # 1) /\ period_ns' = 100000000%Z) /\
    ((2000 # 1) < x ->
     RTLoop.hz (RTLoop.self l') = (2000 # 1) /\ period_ns' = 500000%Z) /\
    (500000 <= period_ns' <= 100000000)%Z /\
    RTLoop.api (RTLoop.self l') = RTLoop.api (RTLoop.self l) /\
    RTLoop.pid (RTLoop.self l') = RTLoop.pid (RTLoop.self l) /\
    RTLoop.lim (RTLoop.self l') = RTLoop.lim (RTLoop.self l) /\
    RTLoop.running (RTLoop.self l') = RTLoop.running (RTLoop.self l) /\
    RTLoop.control_enabled (RTLoop.self l') = RTLoop.control_enabled (RTLoop.self l) /\
    RTLoop.emergency_stop (RTLoop.self l') = RTLoop.emergency_stop (RTLoop.self l) /\
    RTLoop.loop_count (RTLoop.self l') = RTLoop.loop_count (RTLoop.self l) /\
    RTLoop.deadline_misses (RTLoop.self l') = RTLoop.deadline_misses (RTLoop.self l) /\
    RTLoop.console (RTLoop.self l') = RTLoop.console (RTLoop.self l) /\
    RTLoop.mps l' = RTLoop.mps l.
Proof.
  intros Hp Hc Hx.
  assert (Hb : (10 # 1) <= std_max (10 # 1) (std_min (2000 # 1) x) /\
               std_max (10 # 1) (std_min (2000 # 1) x) <= (2000 # 1))
    by (apply std_clamp_bounds; lra).
  destruct (period_of_clamped _ (proj1 Hb) (proj2 Hb)) as (p' & Hper & Hrange).
  assert (Hreq : Json.value_double (Json.Object m) "hz" (RTLoop.hz (RTLoop.self l)) = Ok x).
  { unfold Json.value_double. destruct Hx as [Hx | [Hx ->]]; rewrite Hx; reflexivity. }
  do 2 eexists. split.
  { unfold RTLoop.handle_cmd. rewrite Hp. cbn [Json.is_object negb].
    rewrite (at_key_found m "cmd" _ Hc).
    cbn [Json.eq_literal String.eqb Ascii.eqb Bool.eqb].
    rewrite Hreq. cbn [bind]. rewrite Hper. cbn [bind]. reflexivity. }
  cbn [RTLoop.self RTLoop.mps RTLoop.hz RTLoop.with_hz RTLoop.api RTLoop.pid RTLoop.lim
       RTLoop.running RTLoop.control_enabled RTLoop.emergency_stop RTLoop.loop_count
       RTLoop.deadline_misses RTLoop.console].
  split; [reflexivity|]. split; [reflexivity|].
  split; [apply Hb|]. split; [apply Hb|].
  split; [intros [H1 H2]; now apply std_clamp_inside|].
  split.
  { intros H.
    assert (E : std_max (10 # 1) (std_min (2000 # 1) x) = (10 # 1))
      by (fcmp; try reflexivity; exfalso; lra).
    split; [exact E|]. rewrite E in Hper. vm_compute in Hper. congruence. }
  split.
  { intros H.
    assert (E : std_max (10 # 1) (std_min (2000 # 1) x) = (2000 # 1))
      by (fcmp; try reflexivity; exfalso; lra).
    split; [exact E|]. rewrite E in Hper. vm_compute in Hper. congruence. }
  split; [exact Hrange|].
  repeat split.
Qed.

Lemma set_freq_clamped_witness :
  (exists l' pns,
      RTLoop.handle_cmd (env_parsing (cmd_set_freq (5 # 1))) loop_fresh EmptyString 1000000
      = Ok (RTLoop.ok_true, l', pns) /\
      RTLoop.hz (RTLoop.self l') = (10 # 1)) /\
  (exists l' pns,
      RTLoop.handle_cmd (env_parsing (cmd_set_freq (10000 # 1))) loop_fresh EmptyString 1000000
      = Ok (RTLoop.ok_true, l', pns) /\
      RTLoop.hz (RTLoop.self l') = (2000 # 1)).
Proof.
  split.
  - destruct (set_freq_clamped (env_parsing (cmd_set_freq (5 # 1))) loop_fresh EmptyString
                1000000 _ (5 # 1) eq_refl eq_refl (or_introl eq_refl))
      as (l' & pns & H & _ & _ & _ & _ & _ & Hlow & _).
    exists l', pns. split; [exact H|]. apply Hlow. reflexivity.
  - destruct (set_freq_clamped (env_parsing (cmd_set_freq (10000 # 1))) loop_fresh EmptyString
                1000000 _ (10000 # 1) eq_refl eq_refl (or_introl eq_refl))
      as (l' & pns & H & _ & _ & _ & _ & _ & _ & Hhigh & _).
    exists l', pns. split; [exact H|]. apply Hhigh. reflexivity.
Defined.



(** The handler of the loop with the machine protection honours the latch:
    under an emergency stop an [enable_control] command changes nothing; else
    it stores the flag and, on [false], writes 0 to the actuator. *)
Lemma enable_control_respects_latch (env : Env) (l : RTLoop.t) (s : string)
      (period_ns : Z) (m : list (string * Json.value)) (enable : bool) :
  env_json_parse env s = Json.Object m ->
  Json.find "cmd" m = Some (Json.String "enable_control") ->
  Json.find "enable" m = Some (Json.Boolean enable) ->
  exists l',
    RTLoop.handle_cmd env l s period_ns = Ok (RTLoop.ok_true, l', period_ns) /\
    (RTLoop.emergency_stop (RTLoop.self l) = true -> l' = l) /\
    (RTLoop.emergency_stop (RTLoop.self l) = false ->
     RTLoop.control_enabled (RTLoop.self l') = enable /\
     RTLoop.emergency_stop (RTLoop.self l') = false /\
     (enable = false ->
      ControlAPI.commands (RTLoop.api (RTLoop.self l'))
      = 0 :: ControlAPI.commands (RTLoop.api (RTLoop.self l)) /\
      ControlAPI.get_magnet (RTLoop.api (RTLoop.self l')) = 0) /\
     (enable = true ->
      RTLoop.api (RTLoop.self l') = RTLoop.api (RTLoop.self l))).
Proof.
  intros Hp Hc He. eexists. split.
  - unfold RTLoop.handle_cmd. rewrite Hp. cbn [Json.is_object negb].
    rewrite (at_key_found m "cmd" _ Hc).
    cbn [Json.eq_literal String.eqb Ascii.eqb Bool.eqb].
    unfold Json.value_bool. rewrite He. cbn [bind]. reflexivity.
  - destruct l as [f mp]. cbn [RTLoop.self RTLoop.mps].
    split; intros Hs; rewrite Hs; cbn [negb].
    + reflexivity.
    + destruct enable; cbn; repeat split; intros;
        try reflexivity; try assumption; discriminate.
Qed.

(** C6 on the second loop implementation: starting from the constructed
    loop, [enable_control] with [false], then [emergency_stop], then
    [enable_control] with [true].  After the second command the stop is
    latched and control is disabled; the third command enables control
    although the stop is still latched. *)
Theorem alt_enable_control_ignores_latch :
  let l1 := snd (alt_handle (cmd_enable_control false) alt_fresh) in
  let l2 := snd (alt_handle cmd_emergency_stop l1) in
  let l3 := snd (alt_handle (cmd_enable_control true) l2) in
  RTLoopAlt.emergency_stop_ l2 = true /\
  RTLoopAlt.control_enabled_ l2 = false /\
  RTLoopAlt.emergency_stop_ l3 = true /\
  RTLoopAlt.control_enabled_ l3 = true.
Proof. cbv zeta. repeat split; vm_compute; reflexivity. Qed.

(** The same sequence on the loop with the machine protection leaves control
    disabled. *)
Lemma enable_control_after_stop_is_ignored :
  exists l1 l2 l3 p1 p2 p3,
    RTLoop.handle_cmd (env_parsing (cmd_enable_control false)) loop_fresh EmptyString 1000000
    = Ok (RTLoop.ok_true, l1, p1) /\
    RTLoop.handle_cmd (env_parsing cmd_emergency_stop) l1 EmptyString p1
    = Ok (RTLoop.ok_true, l2, p2) /\
    RTLoop.handle_cmd (env_parsing (cmd_enable_control true)) l2 EmptyString p2
    = Ok (RTLoop.ok_true, l3, p3) /\
    RTLoop.emergency_stop (RTLoop.self l3) = true /\
    RTLoop.control_enabled (RTLoop.self l3) = false /\
    l3 = l2.
Proof. do 6 eexists. repeat split. Qed.

(** ** The machine protection system *)

Section MpsFacts.

Variable W : Type.
Variable env : Env.

Local Notation flags := (MachineProtectionSystem.flags W).
Local Notation captured := (MachineProtectionSystem.captured W).

(** The callbacks registered in [f'] are those of [f]. *)
Local Notation same_callbacks f' f :=
  (MachineProtectionSystem.beam_abort_callback_ f'
   = MachineProtectionSystem.beam_abort_callback_ f /\
   MachineProtectionSystem.alarm_callback_ f'
   = MachineProtectionSystem.alarm_callback_ f).

Lemma trigger_beam_abort_notified (reason source : string)
      (f0 f : flags) (w0 w : W) :
  same_callbacks f f0 ->
  MachineProtectionSystem.notified f0 w0 w ->
  same_callbacks (fst (MachineProtectionSystem.trigger_beam_abort reason source (f, w))) f0 /\
  MachineProtectionSystem.notified f0 w0
    (snd (MachineProtectionSystem.trigger_beam_abort reason source (f, w))).
Proof.
  intros [Ha Hb] Hn. unfold MachineProtectionSystem.trigger_beam_abort.
  cbn [fst snd]. split; [split; assumption|].
  assert (H1 : MachineProtectionSystem.notified f0 w0
                 match MachineProtectionSystem.beam_abort_callback_ f with
                 | Some cb => cb w
                 | None => w
                 end).
  { destruct (MachineProtectionSystem.beam_abort_callback_ f) as [cb|] eqn:E;
      [|exact Hn].
    apply MachineProtectionSystem.notified_abort; [congruence | exact Hn]. }
  destruct (MachineProtectionSystem.alarm_callback_ f) as [cb|] eqn:E; [|exact H1].
  apply MachineProtectionSystem.notified_alarm; [congruence | exact H1].
Qed.

Lemma handle_blm_warning_notified (id : string) (loss : Q)
      (f0 f : flags) (w0 w : W) :
  same_callbacks f f0 ->
  MachineProtectionSystem.notified f0 w0 w ->
  fst (MachineProtectionSystem.handle_blm_warning env id loss (f, w)) = f /\
  MachineProtectionSystem.notified f0 w0
    (snd (MachineProtectionSystem.handle_blm_warning env id loss (f, w))).
Proof.
  intros [Ha Hb] Hn. unfold MachineProtectionSystem.handle_blm_warning.
  destruct (MachineProtectionSystem.alarm_callback_ f) as [cb|] eqn:E;
    cbn [fst snd]; split; try reflexivity; [|exact Hn].
  apply MachineProtectionSystem.notified_alarm; [congruence | exact Hn].
Qed.

(** One measurement of a standard monitor: the monitor stays standard, the
    callbacks stay registered, the world moves by notifications only. *)
Lemma update_measurement_notified (b : BeamLossMonitor.t captured)
      (current position : Q) (f0 f : flags) (w0 w : W) :
  MachineProtectionSystem.standard_blm env b ->
  same_callbacks f f0 ->
  MachineProtectionSystem.notified f0 w0 w ->
  let r := BeamLossMonitor.update_measurement b current position (f, w) in
  MachineProtectionSystem.standard_blm env (snd (fst r)) /\
  same_callbacks (fst (snd r)) f0 /\
  MachineProtectionSystem.notified f0 w0 (snd (snd r)).
Proof.
  intros [Hw Ha] Hc Hn. unfold BeamLossMonitor.update_measurement.
  match goal with |- context [if ?c then _ else _] => destruct c end.
  - cbn [fst snd]. split; [split; assumption|].
    rewrite Ha. cbn [BeamLossMonitor.invoke].
    now apply trigger_beam_abort_notified.
  - cbn zeta. cbn [fst snd]. split; [split; assumption|].
    match goal with |- context [if ?c then _ else _] => destruct c end.
    + rewrite Hw. cbn [BeamLossMonitor.invoke].
      destruct (handle_blm_warning_notified (BeamLossMonitor.blm_id_ b)
                  (BeamLossMonitor.simulated_loss current position) f0 f w0 w Hc Hn)
        as [E Hn'].
      rewrite E. split; assumption.
    + cbn [fst snd]. split; assumption.
Qed.

Lemma check_blms_notified (l : list (BeamLossMonitor.t captured))
      (current position : Q) (f0 : flags) (w0 : W) :
  forall (f : flags) (w : W),
    Forall (MachineProtectionSystem.standard_blm env) l ->
    same_callbacks f f0 ->
    MachineProtectionSystem.notified f0 w0 w ->
    let r := MachineProtectionSystem.check_blms l current position (f, w) in
    Forall (MachineProtectionSystem.standard_blm env) (snd (fst r)) /\
    same_callbacks (fst (snd r)) f0 /\
    MachineProtectionSystem.notified f0 w0 (snd (snd r)).
Proof.
  induction l as [|b rest IH]; intros f w Hl Hc Hn; cbn zeta.
  - cbn. repeat split; try apply Hc; assumption.
  - inversion Hl as [|? ? Hb Hrest]; subst.
    cbn [MachineProtectionSystem.check_blms].
    pose proof (update_measurement_notified b current position f0 f w0 w Hb Hc Hn)
      as (Hb' & Hc' & Hn').
    destruct (BeamLossMonitor.update_measurement b current position (f, w))
      as [[safe b'] [f1 w1]].
    cbn [fst snd] in Hb', Hc', Hn'.
    destruct safe; cbn [negb].
    + specialize (IH f1 w1 Hrest Hc' Hn'). cbn zeta in IH.
      destruct (MachineProtectionSystem.check_blms rest current position (f1, w1))
        as [[safe' rest'] e2].
      cbn [fst snd] in *. destruct IH as (H1 & H2 & H3).
      split; [constructor; assumption|]. split; assumption.
    + cbn [fst snd]. split; [constructor; assumption|].
      now apply trigger_beam_abort_notified.
Qed.

(** [check_safety] on a protection system with standard monitors. *)
Lemma check_safety_notified (m : MachineProtectionSystem.t W)
      (current position : Q) (w : W) :
  MachineProtectionSystem.standard_blms env m ->
  let r := MachineProtectionSystem.check_safety m current position w in
  MachineProtectionSystem.standard_blms env (snd (fst r)) /\
  same_callbacks (MachineProtectionSystem.state (snd (fst r)))
                 (MachineProtectionSystem.state m) /\
  MachineProtectionSystem.notified (MachineProtectionSystem.state m) w (snd r).
Proof.
  intros Hm. unfold MachineProtectionSystem.check_safety.
  destruct (MachineProtectionSystem.beam_permit_ (MachineProtectionSystem.state m));
    cbn [negb].
  2: { cbn. repeat split; try assumption. constructor. }
  destruct (MachineProtectionSystem.abort_triggered_ (MachineProtectionSystem.state m)).
  { cbn. repeat split; try assumption. constructor. }
  pose proof (check_blms_notified (MachineProtectionSystem.blms_ m) current position
                (MachineProtectionSystem.state m) w
                (MachineProtectionSystem.state m) w Hm (conj eq_refl eq_refl)
                (MachineProtectionSystem.notified_refl _ w)) as H.
  cbn zeta in H.
  destruct (MachineProtectionSystem.check_blms (MachineProtectionSystem.blms_ m)
              current position (MachineProtectionSystem.state m, w))
    as [[safe blms'] [f' w']].
  cbn [fst snd] in *. exact H.
Qed.

End MpsFacts.

(** ** The control block of the loop *)

(** What calls of the loop's two callbacks leave of the loop's fields: the
    regulator, the limits and the sensors are untouched, the actuator has
    received zeros only, and the two flags can only have moved to the
    stopped side. *)
Lemma notified_fields (f0 : MachineProtectionSystem.flags RTLoop.fields)
      (f f' : RTLoop.fields) :
  MachineProtectionSystem.beam_abort_callback_ f0 = Some RTLoop.on_beam_abort ->
  MachineProtectionSystem.alarm_callback_ f0 = Some RTLoop.on_alarm ->
  MachineProtectionSystem.notified f0 f f' ->
  RTLoop.pid f' = RTLoop.pid f /\
  RTLoop.lim f' = RTLoop.lim f /\
  RTLoop.hz f' = RTLoop.hz f /\
  RTLoop.running f' = RTLoop.running f /\
  ControlAPI.bpm (RTLoop.api f') = ControlAPI.bpm (RTLoop.api f) /\
  (exists zs,
      ControlAPI.commands (RTLoop.api f') = zs ++ ControlAPI.commands (RTLoop.api f) /\
      Forall (fun v => v = 0) zs) /\
  (RTLoop.emergency_stop f = true -> RTLoop.emergency_stop f' = true) /\
  (RTLoop.control_enabled f = false -> RTLoop.control_enabled f' = false).
Proof.
  intros Ha Hb Hn. induction Hn as [w | w w' cb Hcb Hn IH | w w' cb msg Hcb Hn IH].
  - repeat split; try reflexivity; try tauto. exists []. split; [reflexivity | constructor].
  - rewrite Ha in Hcb. injection Hcb as <-.
    destruct IH as (H1 & H2 & H3 & H4 & H5 & (zs & H6 & H7) & H8 & H9).
    cbn. repeat split; try assumption; try reflexivity.
    exists (0 :: zs). split; [cbn; now rewrite H6 | now constructor].
  - rewrite Hb in Hcb. injection Hcb as <-.
    destruct IH as (H1 & H2 & H3 & H4 & H5 & (zs & H6 & H7) & H8 & H9).
    cbn. repeat split; try assumption.
    exists zs. split; assumption.
Qed.

Lemma read_sensors_fields (env : Env) (l : RTLoop.t) :
  let r := RTLoop.read_sensors env l in
  RTLoop.mps (snd r) = RTLoop.mps l /\
  RTLoop.pid (RTLoop.self (snd r)) = RTLoop.pid (RTLoop.self l) /\
  RTLoop.lim (RTLoop.self (snd r)) = RTLoop.lim (RTLoop.self l) /\
  RTLoop.control_enabled (RTLoop.self (snd r)) = RTLoop.control_enabled (RTLoop.self l) /\
  RTLoop.emergency_stop (RTLoop.self (snd r)) = RTLoop.emergency_stop (RTLoop.self l) /\
  ControlAPI.commands (RTLoop.api (RTLoop.self (snd r)))
  = ControlAPI.commands (RTLoop.api (RTLoop.self l)) /\
  ControlAPI.magnet (RTLoop.api (RTLoop.self (snd r)))
  = ControlAPI.magnet (RTLoop.api (RTLoop.self l)).
Proof. cbn. repeat split. Qed.

(** The protection phase of a wired loop. *)
Lemma protect_wired (env : Env) (l : RTLoop.t) (intensity pos : Q) :
  RTLoop.wired env l ->
  let r := RTLoop.protect l intensity pos in
  RTLoop.wired env (snd r) /\
  RTLoop.pid (RTLoop.self (snd r)) = RTLoop.pid (RTLoop.self l) /\
  RTLoop.lim (RTLoop.self (snd r)) = RTLoop.lim (RTLoop.self l) /\
  exists zs,
    ControlAPI.commands (RTLoop.api (RTLoop.self (snd r)))
    = zs ++ ControlAPI.commands (RTLoop.api (RTLoop.self l)) /\
    Forall (fun v => v = 0) zs.
Proof.
  intros (Hs & Ha & Hb). unfold RTLoop.protect.
  pose proof (check_safety_notified RTLoop.fields env (RTLoop.mps l) intensity pos
                (RTLoop.self l) Hs) as H.
  cbn zeta in H.
  destruct (MachineProtectionSystem.check_safety (RTLoop.mps l) intensity pos
              (RTLoop.self l)) as [[safe m] f].
  cbn [fst snd] in *. destruct H as (Hs' & [Ha' Hb'] & Hn).
  destruct (notified_fields _ _ _ Ha Hb Hn) as (H1 & H2 & _ & _ & _ & H6 & _ & _).
  split.
  - unfold RTLoop.wired. cbn [RTLoop.mps]. repeat split; try assumption; congruence.
  - destruct safe; cbn; repeat split; assumption.
Qed.

(** The control block returns, and writes exactly one value: the output of
    [step] when control is active, 0 when it is not. *)
Lemma control_total (l : RTLoop.t) (pos : Q) (period_ns : Z) :
  exists u l',
    RTLoop.control l pos period_ns = Ok (u, l') /\
    RTLoop.mps l' = RTLoop.mps l /\
    RTLoop.lim (RTLoop.self l') = RTLoop.lim (RTLoop.self l) /\
    RTLoop.control_enabled (RTLoop.self l') = RTLoop.control_enabled (RTLoop.self l) /\
    RTLoop.emergency_stop (RTLoop.self l') = RTLoop.emergency_stop (RTLoop.self l) /\
    ControlAPI.commands (RTLoop.api (RTLoop.self l'))
    = u :: ControlAPI.commands (RTLoop.api (RTLoop.self l)) /\
    ControlAPI.get_magnet (RTLoop.api (RTLoop.self l')) = u /\
    (RTLoop.control_enabled (RTLoop.self l) && negb (RTLoop.emergency_stop (RTLoop.self l))
     = true ->
     PID.step (RTLoop.pid (RTLoop.self l)) pos
       (inject_Z period_ns * (1 # 1000000000))
       (Limits.magnet_min (RTLoop.lim (RTLoop.self l)))
       (Limits.magnet_max (RTLoop.lim (RTLoop.self l)))
     = Ok (u, RTLoop.pid (RTLoop.self l')) /\
     BPM.offset (ControlAPI.bpm (RTLoop.api (RTLoop.self l'))) = - (4 # 10) * u) /\
    (RTLoop.control_enabled (RTLoop.self l) && negb (RTLoop.emergency_stop (RTLoop.self l))
     = false ->
     u = 0 /\
     RTLoop.pid (RTLoop.self l') = RTLoop.pid (RTLoop.self l) /\
     ControlAPI.bpm (RTLoop.api (RTLoop.self l'))
     = ControlAPI.bpm (RTLoop.api (RTLoop.self l))).
Proof.
  unfold RTLoop.control.
  destruct (RTLoop.control_enabled (RTLoop.self l)
            && negb (RTLoop.emergency_stop (RTLoop.self l))) eqn:E.
  - destruct (step_total (RTLoop.pid (RTLoop.self l)) pos
                (inject_Z period_ns * (1 # 1000000000))
                (Limits.magnet_min (RTLoop.lim (RTLoop.self l)))
                (Limits.magnet_max (RTLoop.lim (RTLoop.self l)))) as (u & p' & Hstep).
    rewrite Hstep. cbn [bind]. exists u. eexists. split; [reflexivity|].
    cbn. repeat split; try reflexivity; try discriminate.
  - do 2 eexists. split; [reflexivity|].
    cbn. repeat split; try reflexivity; try discriminate.
Qed.

(** The first half of an iteration of a wired loop whose limits enclose 0:
    it returns, and what it writes to the actuator are zeros of a
    protection trip followed by one value [u] of the control block. *)
Lemma actuate_within_limits (env : Env) (l : RTLoop.t) (period_ns : Z) :
  RTLoop.wired env l ->
  Limits.magnet_min (RTLoop.lim (RTLoop.self l)) <= 0 ->
  0 <= Limits.magnet_max (RTLoop.lim (RTLoop.self l)) ->
  exists pos intensity u l' zs,
    RTLoop.actuate env l period_ns = Ok (pos, intensity, u, l') /\
    RTLoop.wired env l' /\
    RTLoop.lim (RTLoop.self l') = RTLoop.lim (RTLoop.self l) /\
    ControlAPI.commands (RTLoop.api (RTLoop.self l'))
    = u :: zs ++ ControlAPI.commands (RTLoop.api (RTLoop.self l)) /\
    Forall (fun v => v = 0) zs /\
    Forall (RTLoop.within (RTLoop.lim (RTLoop.self l))) (u :: zs) /\
    ControlAPI.get_magnet (RTLoop.api (RTLoop.self l')) = u /\
    (RTLoop.control_enabled (RTLoop.self l')
     && negb (RTLoop.emergency_stop (RTLoop.self l')) = true ->
     exists p',
       PID.step (RTLoop.pid (RTLoop.self l)) pos
         (inject_Z period_ns * (1 # 1000000000))
         (Limits.magnet_min (RTLoop.lim (RTLoop.self l)))
         (Limits.magnet_max (RTLoop.lim (RTLoop.self l)))
       = Ok (u, p')) /\
    (RTLoop.control_enabled (RTLoop.self l')
     && negb (RTLoop.emergency_stop (RTLoop.self l')) = false ->
     u = 0).
Proof.
  intros Hw Hlo Hhi. unfold RTLoop.actuate.
  pose proof (read_sensors_fields env l) as Hr. cbn zeta in Hr.
  destruct (RTLoop.read_sensors env l) as [[pos intensity] l1].
  cbn [fst snd] in Hr. destruct Hr as (Hr1 & Hr2 & Hr3 & _ & _ & Hr6 & _).
  assert (Hw1 : RTLoop.wired env l1).
  { unfold RTLoop.wired in *. rewrite Hr1. exact Hw. }
  pose proof (protect_wired env l1 intensity pos Hw1) as Hp. cbn zeta in Hp.
  destruct (RTLoop.protect l1 intensity pos) as [safe l2].
  cbn [fst snd] in Hp. destruct Hp as (Hw2 & Hp2 & Hp3 & zs & Hp4 & Hz).
  destruct (control_total l2 pos period_ns)
    as (u & l3 & Hc & Hm & Hl & Hce & Hes & Hcmd & Hget & Hact & Hin).
  rewrite Hc. cbn [bind].
  exists pos, intensity, u, l3, zs.
  assert (Hlim : RTLoop.lim (RTLoop.self l3) = RTLoop.lim (RTLoop.self l))
    by congruence.
  assert (Hu : RTLoop.within (RTLoop.lim (RTLoop.self l)) u).
  { unfold RTLoop.within.
    destruct (RTLoop.control_enabled (RTLoop.self l2)
              && negb (RTLoop.emergency_stop (RTLoop.self l2))) eqn:E.
    - destruct (Hact eq_refl) as [Hstep _].
      rewrite Hp3, Hr3 in Hstep.
      assert (Hb : Limits.magnet_min (RTLoop.lim (RTLoop.self l))
                   <= Limits.magnet_max (RTLoop.lim (RTLoop.self l))) by lra.
      apply (step_output_clamped _ _ _ _ _ _ _ Hb Hstep).
    - destruct (Hin eq_refl) as [-> _]. split; assumption. }
  split; [reflexivity|].
  split; [unfold RTLoop.wired in *; rewrite Hm; exact Hw2|].
  split; [exact Hlim|].
  split; [rewrite Hcmd, Hp4, Hr6; reflexivity|].
  split; [exact Hz|].
  split.
  { constructor; [exact Hu|].
    eapply Forall_impl; [|exact Hz]. cbn. intros v ->.
    unfold RTLoop.within. split; assumption. }
  split; [exact Hget|].
  rewrite Hce, Hes. split.
  - intros E. destruct (Hact E) as [Hstep _].
    rewrite Hp2, Hp3, Hr2, Hr3 in Hstep. eexists. exact Hstep.
  - intros E. now destruct (Hin E).
Qed.

Lemma make_wired (env : Env) (a : ControlAPI.t) : RTLoop.wired env (RTLoop.make env a).
Proof.
  unfold RTLoop.wired, MachineProtectionSystem.standard_blms. cbn.
  repeat split; repeat constructor.
Qed.

(** C2: when, after the machine-protection check of an iteration, control
    is disabled, or the emergency stop is set, or the check has returned
    false, the control block of that iteration writes exactly 0 to the
    actuator, without running the regulator and without touching the sensor
    offset. *)
Theorem inactive_control_commands_zero (env : Env) (l : RTLoop.t) (period_ns : Z)
        (pos intensity : Q) (l1 : RTLoop.t) (mps_safe : bool)
        (m : MachineProtectionSystem.t RTLoop.fields) (f : RTLoop.fields) :
  RTLoop.read_sensors env l = (pos, intensity, l1) ->
  MachineProtectionSystem.check_safety (RTLoop.mps l1) intensity pos (RTLoop.self l1)
  = (mps_safe, m, f) ->
  RTLoop.control_enabled f = false \/ RTLoop.emergency_stop f = true \/ mps_safe = false ->
  exists l',
    RTLoop.actuate env l period_ns = Ok (pos, intensity, 0, l') /\
    ControlAPI.commands (RTLoop.api (RTLoop.self l'))
    = 0 :: ControlAPI.commands (RTLoop.api f) /\
    ControlAPI.get_magnet (RTLoop.api (RTLoop.self l')) = 0 /\
    RTLoop.pid (RTLoop.self l') = RTLoop.pid f /\
    ControlAPI.bpm (RTLoop.api (RTLoop.self l')) = ControlAPI.bpm (RTLoop.api f).
Proof.
  intros Hr Hs H. unfold RTLoop.actuate, RTLoop.protect. rewrite Hr, Hs.
  assert (E : RTLoop.control_enabled
                (RTLoop.self
                   {| RTLoop.self :=
                        if negb mps_safe
                        then RTLoop.with_control_enabled
                               (RTLoop.with_emergency_stop f true) false
                        else f;
                      RTLoop.mps := m |})
              && negb (RTLoop.emergency_stop
                         (RTLoop.self
                            {| RTLoop.self :=
                                 if negb mps_safe
                                 then RTLoop.with_control_enabled
                                        (RTLoop.with_emergency_stop f true) false
                                 else f;
                               RTLoop.mps := m |}))
              = false).
  { cbn [RTLoop.self]. destruct mps_safe; cbn [negb]; [|reflexivity].
    destruct H as [H | [H | H]]; try discriminate; rewrite H;
      [reflexivity | apply andb_false_r]. }
  unfold RTLoop.control. rewrite E. cbn [bind].
  eexists. split; [reflexivity|].
  destruct mps_safe; cbn; repeat split.
Qed.

Lemma inactive_control_commands_zero_witness :
  exists l',
    RTLoop.actuate env_quiet loop_stopped 1000000 = Ok (0 # 2, 10000 # 1, 0, l') /\
    ControlAPI.get_magnet (RTLoop.api (RTLoop.self l')) = 0.
Proof.
  destruct (inactive_control_commands_zero env_quiet loop_stopped 1000000
              _ _ _ _ _ _ eq_refl eq_refl (or_introl eq_refl))
    as (l' & H1 & _ & H2 & _).
  exists l'. split; [exact H1 | exact H2].
Defined.

(** ** A protection trip *)

Section TripFacts.

Variable W : Type.
Variable env : Env.

Local Notation flags := (MachineProtectionSystem.flags W).
Local Notation captured := (MachineProtectionSystem.captured W).

(** A monitor that trips on the next measurement: the derived loss rate is
    above its abort threshold and its abort flag is clear. *)
Local Notation trips b current position :=
  (BeamLossMonitor.abort_active_ b = false /\
   BeamLossMonitor.threshold_abort_ b
   < BeamLossMonitor.simulated_loss current position).

Lemma trigger_beam_abort_flags (reason source : string) (f : flags) (w : W) :
  let f' := fst (MachineProtectionSystem.trigger_beam_abort reason source (f, w)) in
  MachineProtectionSystem.abort_triggered_ f' = true /\
  MachineProtectionSystem.beam_permit_ f' = false /\
  MachineProtectionSystem.total_aborts_ f'
  = u64_incr (MachineProtectionSystem.total_aborts_ f) /\
  MachineProtectionSystem.beam_abort_callback_ f'
  = MachineProtectionSystem.beam_abort_callback_ f /\
  MachineProtectionSystem.alarm_callback_ f'
  = MachineProtectionSystem.alarm_callback_ f.
Proof. cbn. repeat split. Qed.

(** With no alarm callback registered, [trigger_beam_abort] calls the
    beam-abort callback, once. *)
Lemma trigger_beam_abort_world (reason source : string) (f : flags) (w : W)
      (cb : W -> W) :
  MachineProtectionSystem.beam_abort_callback_ f = Some cb ->
  MachineProtectionSystem.alarm_callback_ f = None ->
  snd (MachineProtectionSystem.trigger_beam_abort reason source (f, w)) = cb w.
Proof. intros Ha Hb. cbn. now rewrite Ha, Hb. Qed.

(** The monitors of a protection system that is not latched, one of which
    trips: the beam abort is triggered twice, once by the callback of the
    monitor and once by the loop over the monitors. *)
Lemma check_blms_trip (l : list (BeamLossMonitor.t captured)) (current position : Q) :
  Forall (MachineProtectionSystem.standard_blm env) l ->
  Exists (fun b => trips b current position) l ->
  forall (f : flags) (w : W),
    let r := MachineProtectionSystem.check_blms l current position (f, w) in
    fst (fst r) = false /\
    MachineProtectionSystem.abort_triggered_ (fst (snd r)) = true /\
    MachineProtectionSystem.beam_permit_ (fst (snd r)) = false /\
    MachineProtectionSystem.total_aborts_ (fst (snd r))
    = u64_incr (u64_incr (MachineProtectionSystem.total_aborts_ f)) /\
    (forall cb,
        MachineProtectionSystem.beam_abort_callback_ f = Some cb ->
        MachineProtectionSystem.alarm_callback_ f = None ->
        snd (snd r) = cb (cb w)).
Proof.
  induction l as [|b rest IH]; intros Hl Hex f w; [inversion Hex|].
  inversion Hl as [|? ? [Hwarn Habort] Hrest]; subst.
  cbn zeta. cbn [MachineProtectionSystem.check_blms].
  unfold BeamLossMonitor.update_measurement.
  destruct (fgt (BeamLossMonitor.simulated_loss current position)
                (BeamLossMonitor.threshold_abort_ b)
            && negb (BeamLossMonitor.abort_active_ b)) eqn:E.
  - cbn [negb fst snd BeamLossMonitor.get_id BeamLossMonitor.blm_id_].
    rewrite Habort. cbn [BeamLossMonitor.invoke].
    unfold MachineProtectionSystem.handle_blm_abort.
    set (e1 := MachineProtectionSystem.trigger_beam_abort
                 "BLM_THRESHOLD_EXCEEDED" (BeamLossMonitor.blm_id_ b) (f, w)).
    pose proof (trigger_beam_abort_flags "BLM_THRESHOLD_EXCEEDED"
                  (BeamLossMonitor.blm_id_ b) f w) as H1.
    cbn zeta in H1. fold e1 in H1. destruct H1 as (_ & _ & Hn1 & Ha1 & Hb1).
    destruct e1 as [f1 w1] eqn:E1. cbn [fst snd] in *.
    pose proof (trigger_beam_abort_flags "BLM_ABORT" (BeamLossMonitor.blm_id_ b) f1 w1)
      as H2.
    cbn zeta in H2. destruct H2 as (Ht & Hp & Hn2 & _ & _).
    split; [reflexivity|]. split; [exact Ht|]. split; [exact Hp|].
    split; [rewrite Hn2, Hn1; reflexivity|].
    intros cb Hcb Hal.
    rewrite (trigger_beam_abort_world "BLM_ABORT" (BeamLossMonitor.blm_id_ b) f1 w1 cb)
      by congruence.
    pose proof (trigger_beam_abort_world "BLM_THRESHOLD_EXCEEDED"
                  (BeamLossMonitor.blm_id_ b) f w cb Hcb Hal) as Hw1.
    subst e1. rewrite E1 in Hw1. cbn [snd] in Hw1. now rewrite Hw1.
  - assert (Hex' : Exists (fun b => trips b current position) rest).
    { inversion Hex as [? ? [Hact Hloss] | ? ? Hex']; subst; [|exact Hex'].
      exfalso. rewrite Hact in E. cbn [negb] in E. rewrite andb_true_r in E.
      unfold fgt in E. destruct (flt_cases (BeamLossMonitor.threshold_abort_ b)
                                   (BeamLossMonitor.simulated_loss current position))
        as [[E' _] | [_ C]]; [congruence | lra]. }
    cbn zeta. cbn [negb].
    set (e1 := if fgt (BeamLossMonitor.simulated_loss current position)
                      (BeamLossMonitor.threshold_warning_ b)
                  && negb (BeamLossMonitor.warning_active_ b)
               then BeamLossMonitor.invoke (BeamLossMonitor.warning_callback_ b)
                      (BeamLossMonitor.blm_id_ b)
                      (BeamLossMonitor.simulated_loss current position) (f, w)
               else (f, w)).
    assert (He1 : fst e1 = f /\
                  (MachineProtectionSystem.alarm_callback_ f = None -> snd e1 = w)).
    { subst e1.
      match goal with |- context [if ?c then _ else _] => destruct c end;
        [|split; reflexivity].
      rewrite Hwarn. cbn [BeamLossMonitor.invoke].
      unfold MachineProtectionSystem.handle_blm_warning.
      destruct (MachineProtectionSystem.alarm_callback_ f); cbn;
        split; try reflexivity; discriminate. }
    destruct e1 as [f1 w1]. cbn [fst snd] in He1. destruct He1 as [-> Hw1].
    specialize (IH Hrest Hex' f w1). cbn zeta in IH.
    destruct (MachineProtectionSystem.check_blms rest current position (f, w1))
      as [[safe rest'] [f2 w2]].
    cbn [fst snd] in *. destruct IH as (I1 & I2 & I3 & I4 & I5).
    repeat split; try assumption.
    intros cb Hcb Hal. rewrite (I5 cb Hcb Hal). now rewrite (Hw1 Hal).
Qed.

(** [check_safety] on a protection system that is not latched, with standard
    monitors of which one trips. *)
Lemma check_safety_trip (m : MachineProtectionSystem.t W) (current position : Q) (w : W) :
  MachineProtectionSystem.standard_blms env m ->
  MachineProtectionSystem.beam_permit_ (MachineProtectionSystem.state m) = true ->
  MachineProtectionSystem.abort_triggered_ (MachineProtectionSystem.state m) = false ->
  Exists (fun b => trips b current position) (MachineProtectionSystem.blms_ m) ->
  let r := MachineProtectionSystem.check_safety m current position w in
  fst (fst r) = false /\
  MachineProtectionSystem.is_abort_active (snd (fst r)) = true /\
  MachineProtectionSystem.is_beam_permitted (snd (fst r)) = false /\
  MachineProtectionSystem.get_abort_count (snd (fst r))
  = u64_incr (u64_incr (MachineProtectionSystem.get_abort_count m)) /\
  (forall cb,
      MachineProtectionSystem.beam_abort_callback_ (MachineProtectionSystem.state m)
      = Some cb ->
      MachineProtectionSystem.alarm_callback_ (MachineProtectionSystem.state m) = None ->
      snd r = cb (cb w)).
Proof.
  intros Hs Hp Ht Hex. unfold MachineProtectionSystem.check_safety.
  rewrite Hp, Ht. cbn [negb].
  pose proof (check_blms_trip (MachineProtectionSystem.blms_ m) current position Hs Hex
                (MachineProtectionSystem.state m) w) as H.
  cbn zeta in H.
  destruct (MachineProtectionSystem.check_blms (MachineProtectionSystem.blms_ m)
              current position (MachineProtectionSystem.state m, w))
    as [[safe blms'] [f' w']].
  cbn [fst snd] in *. destruct H as (H1 & H2 & H3 & H4 & H5).
  unfold MachineProtectionSystem.is_abort_active,
    MachineProtectionSystem.is_beam_permitted,
    MachineProtectionSystem.get_abort_count.
  cbn [MachineProtectionSystem.state]. rewrite H2, H3.
  repeat split; assumption.
Qed.

End TripFacts.

(** C3 on the code: a protection system as constructed, with a beam-abort
    callback that counts its calls, checks a beam of intensity 2000000 at
    position 0.  The loss rate derived is above the abort threshold of the
    first monitor; the system latches and withdraws the permit, and the
    abort is counted twice and the callback has been called twice. *)
Theorem check_safety_trip_counts_twice :
  let m := mps_counting in
  let r := MachineProtectionSystem.check_safety m (2000000 # 1) 0 0%nat in
  (1 # 100000) < BeamLossMonitor.simulated_loss (2000000 # 1) 0 /\
  MachineProtectionSystem.is_abort_active m = false /\
  MachineProtectionSystem.get_abort_count m = 0%N /\
  fst (fst r) = false /\
  MachineProtectionSystem.is_abort_active (snd (fst r)) = true /\
  MachineProtectionSystem.is_beam_permitted (snd (fst r)) = false /\
  MachineProtectionSystem.get_abort_count (snd (fst r)) = 2%N /\
  snd r = 2%nat.
Proof. cbv zeta. split; [reflexivity|]. repeat split. Qed.

(** The same trip inside the loop: the iteration that reads the intensity
    2000000 stops the loop and commands the actuator to 0; the abort is
    counted twice, the callback has written its zero twice before the
    control block writes its own, and two alarm lines are printed. *)
Lemma loop_trip_counts_twice :
  exists pos l',
    RTLoop.actuate env_quiet loop_hot 1000000 = Ok (pos, 2000000 # 1, 0, l') /\
    RTLoop.emergency_stop (RTLoop.self l') = true /\
    RTLoop.control_enabled (RTLoop.self l') = false /\
    ControlAPI.commands (RTLoop.api (RTLoop.self l')) = [0; 0; 0] /\
    MachineProtectionSystem.get_abort_count (RTLoop.mps l') = 2%N /\
    List.length (RTLoop.console (RTLoop.self l')) = 2%nat.
Proof. do 2 eexists. repeat split. Qed.

(** ** Whole runs *)

Lemma reset_mps_standard (W : Type) (env : Env) (m : MachineProtectionSystem.t W) :
  MachineProtectionSystem.standard_blms env m ->
  MachineProtectionSystem.standard_blms env (MachineProtectionSystem.reset_mps m).
Proof.
  unfold MachineProtectionSystem.standard_blms. cbn. intros H.
  induction H as [|b rest Hb Hrest IH]; cbn; constructor; assumption.
Qed.

(** A command, whatever it is, writes nothing but zeros to the actuator and
    leaves the limits and the wiring alone. *)
Lemma handle_cmd_commands (env : Env) (l l' : RTLoop.t) (s : string)
      (period_ns period_ns' : Z) (r : reply) :
  RTLoop.handle_cmd env l s period_ns = Ok (r, l', period_ns') ->
  RTLoop.wired env l ->
  RTLoop.wired env l' /\
  RTLoop.lim (RTLoop.self l') = RTLoop.lim (RTLoop.self l) /\
  exists zs,
    ControlAPI.commands (RTLoop.api (RTLoop.self l'))
    = zs ++ ControlAPI.commands (RTLoop.api (RTLoop.self l)) /\
    Forall (fun v => v = 0) zs.
Proof.
  intros H (Hs & Ha & Hb). unfold RTLoop.handle_cmd in H.
  repeat match type of H with
         | context [bind ?m _] => destruct m; cbn [bind] in H
         | context [if ?c then _ else _] => destruct c
         end;
    try discriminate; injection H as <- <- <-;
    (split; [unfold RTLoop.wired; cbn [RTLoop.mps];
             repeat split; try assumption; now apply reset_mps_standard |]);
    (split; [reflexivity|]); cbn.
  all: first [ now (exists []; split; [reflexivity | constructor])
             | now (exists [0]; split; [reflexivity | repeat constructor]) ].
Qed.

(** An iteration that returns has written to the actuator within the
    limits. *)
Lemma iteration_commands (env : Env) (tk : RTLoop.tick) (rs rs' : RTLoop.run_state) :
  RTLoop.wired env (RTLoop.loop rs) ->
  Limits.magnet_min (RTLoop.lim (RTLoop.self (RTLoop.loop rs))) <= 0 ->
  0 <= Limits.magnet_max (RTLoop.lim (RTLoop.self (RTLoop.loop rs))) ->
  RTLoop.iteration env tk rs = Ok rs' ->
  RTLoop.wired env (RTLoop.loop rs') /\
  RTLoop.lim (RTLoop.self (RTLoop.loop rs')) = RTLoop.lim (RTLoop.self (RTLoop.loop rs)) /\
  exists new,
    ControlAPI.commands (RTLoop.api (RTLoop.self (RTLoop.loop rs')))
    = new ++ ControlAPI.commands (RTLoop.api (RTLoop.self (RTLoop.loop rs))) /\
    Forall (RTLoop.within (RTLoop.lim (RTLoop.self (RTLoop.loop rs)))) new.
Proof.
  intros Hw Hlo Hhi H. unfold RTLoop.iteration in H.
  destruct (actuate_within_limits env (RTLoop.loop rs) (RTLoop.period_ns rs)
              Hw Hlo Hhi)
    as (pos & intensity & u & l1 & zs & Hact & Hw1 & Hl1 & Hc1 & _ & Hin & _).
  rewrite Hact in H. cbn [bind] in H.
  destruct (Watchdog.check (RTLoop.wd rs) (RTLoop.execution_ns tk)) as [missed w].
  destruct (RTLoop.request tk) as [s|].
  - match type of H with
    | context [RTLoop.handle_cmd env ?l ?s ?p] =>
        destruct (RTLoop.handle_cmd env l s p) as [[[r l2] p2]|] eqn:Hh;
          [set (lb := l) in Hh | discriminate]
    end.
    cbn [bind] in H. injection H as <-. cbn [RTLoop.loop].
    assert (Hwb : RTLoop.wired env lb) by exact Hw1.
    destruct (handle_cmd_commands env lb l2 s _ _ r Hh Hwb) as (Hw2 & Hl2 & zs2 & Hc2 & Hz2).
    split; [exact Hw2|]. split; [rewrite Hl2; exact Hl1|].
    exists (zs2 ++ u :: zs). split.
    + rewrite Hc2. subst lb. cbn. rewrite Hc1. now rewrite <- app_assoc.
    + apply Forall_app. split; [|exact Hin].
      eapply Forall_impl; [|exact Hz2]. cbn. intros v ->.
      unfold RTLoop.within. split; assumption.
  - injection H as <-. cbn [RTLoop.loop].
    split; [exact Hw1|]. split; [exact Hl1|].
    exists (u :: zs). split; [exact Hc1 | exact Hin].
Qed.

(** Every value a run writes to the actuator lies within the limits. *)
Lemma iterate_commands (env : Env) (ticks : list RTLoop.tick) :
  forall rs rs' : RTLoop.run_state,
    RTLoop.wired env (RTLoop.loop rs) ->
    Limits.magnet_min (RTLoop.lim (RTLoop.self (RTLoop.loop rs))) <= 0 ->
    0 <= Limits.magnet_max (RTLoop.lim (RTLoop.self (RTLoop.loop rs))) ->
    RTLoop.iterate env ticks rs = Ok rs' ->
    exists new,
      ControlAPI.commands (RTLoop.api (RTLoop.self (RTLoop.loop rs')))
      = new ++ ControlAPI.commands (RTLoop.api (RTLoop.self (RTLoop.loop rs))) /\
      Forall (RTLoop.within (RTLoop.lim (RTLoop.self (RTLoop.loop rs)))) new.
Proof.
  induction ticks as [|tk rest IH]; intros rs rs' Hw Hlo Hhi H; cbn in H.
  - injection H as <-. exists []. split; [reflexivity | constructor].
  - destruct (RTLoop.running (RTLoop.self (RTLoop.loop rs))).
    + destruct (RTLoop.iteration env tk rs) as [rs1|] eqn:E; [|discriminate].
      cbn [bind] in H.
      destruct (iteration_commands env tk rs rs1 Hw Hlo Hhi E) as (Hw1 & Hl1 & n1 & Hc1 & Hn1).
      destruct (IH rs1 rs' Hw1) as (n2 & Hc2 & Hn2); try (rewrite Hl1; assumption);
        [exact H|].
      exists (n2 ++ n1). split.
      * rewrite Hc2, Hc1. now rewrite app_assoc.
      * apply Forall_app. split; [rewrite <- Hl1; exact Hn2 | exact Hn1].
    + injection H as <-. exists []. split; [reflexivity | constructor].
Qed.

(** C1: in every iteration of a wired loop whose limits enclose 0, every
    value written to the actuator lies within [magnet_min, magnet_max].  The
    first half of the iteration returns; its control block writes one value
    [u], after the zeros that a protection trip may have written; [u] is the
    output of [step], which [step] has clamped to the bounds it was given,
    when control is active, and 0 when it is not.  The same holds for every
    value written in the course of a run, the commands included. *)
Theorem actuator_command_within_limits (env : Env) (l : RTLoop.t) (period_ns : Z) :
  RTLoop.wired env l ->
  Limits.magnet_min (RTLoop.lim (RTLoop.self l)) <= 0 ->
  0 <= Limits.magnet_max (RTLoop.lim (RTLoop.self l)) ->
  (exists pos intensity u l' zs,
      RTLoop.actuate env l period_ns = Ok (pos, intensity, u, l') /\
      ControlAPI.commands (RTLoop.api (RTLoop.self l'))
      = u :: zs ++ ControlAPI.commands (RTLoop.api (RTLoop.self l)) /\
      Forall (fun v => v = 0) zs /\
      Forall (RTLoop.within (RTLoop.lim (RTLoop.self l))) (u :: zs) /\
      ControlAPI.get_magnet (RTLoop.api (RTLoop.self l')) = u /\
      (RTLoop.control_enabled (RTLoop.self l')
       && negb (RTLoop.emergency_stop (RTLoop.self l')) = true ->
       exists p',
         PID.step (RTLoop.pid (RTLoop.self l)) pos
           (inject_Z period_ns * (1 # 1000000000))
           (Limits.magnet_min (RTLoop.lim (RTLoop.self l)))
           (Limits.magnet_max (RTLoop.lim (RTLoop.self l)))
         = Ok (u, p')) /\
      (RTLoop.control_enabled (RTLoop.self l')
       && negb (RTLoop.emergency_stop (RTLoop.self l')) = false ->
       u = 0)) /\
  (forall ticks w pub rep rs',
      RTLoop.iterate env ticks
        {| RTLoop.loop := l; RTLoop.period_ns := period_ns; RTLoop.wd := w;
           RTLoop.published := pub; RTLoop.replies := rep |} = Ok rs' ->
      exists new,
        ControlAPI.commands (RTLoop.api (RTLoop.self (RTLoop.loop rs')))
        = new ++ ControlAPI.commands (RTLoop.api (RTLoop.self l)) /\
        Forall (RTLoop.within (RTLoop.lim (RTLoop.self l))) new).
Proof.
  intros Hw Hlo Hhi. split.
  - destruct (actuate_within_limits env l period_ns Hw Hlo Hhi)
      as (pos & intensity & u & l' & zs & H1 & _ & _ & H2 & H3 & H4 & H5 & H6 & H7).
    exists pos, intensity, u, l', zs.
    repeat (split; [assumption|]). assumption.
  - intros ticks w pub rep rs' H.
    exact (iterate_commands env ticks
             {| RTLoop.loop := l; RTLoop.period_ns := period_ns; RTLoop.wd := w;
                RTLoop.published := pub; RTLoop.replies := rep |}
             rs' Hw Hlo Hhi H).
Qed.

Lemma actuator_command_within_limits_witness :
  exists pos intensity u l',
    RTLoop.actuate env_quiet loop_fresh 1000000 = Ok (pos, intensity, u, l') /\
    - (2 # 1) <= u /\ u <= 2 # 1 /\
    ControlAPI.get_magnet (RTLoop.api (RTLoop.self l')) = u.
Proof.
  destruct (actuator_command_within_limits env_quiet loop_fresh 1000000)
    as [(pos & intensity & u & l' & zs & H & _ & _ & Hin & Hget & _) _].
  - apply make_wired.
  - cbn. lra.
  - cbn. lra.
  - exists pos, intensity, u, l'. inversion Hin as [|? ? [Hlo Hhi] _]; subst.
    cbn in Hlo, Hhi. repeat split; assumption.
Defined.

(* ================================================================= *)
(** * Part III: further properties of the code *)
(* ================================================================= *)

(** ** The regulator, continued *)

(** X1: the conditional integration never moves the sum of the proportional
    and the integral term further outside the output bounds: when that sum
    is above [out_max] after a step it has not grown, and when it is below
    [out_min] it has not shrunk. *)
Theorem step_never_worsens_saturation (p : PID.t) (y dt lo hi : Q) :
  lo <= hi ->
  exists u p',
    PID.step p y dt lo hi = Ok (u, p') /\
    (hi < PID.kp p * (PID.setpoint p - y) + PID.ki p * PID.integ p' ->
     PID.ki p * PID.integ p' <= PID.ki p * PID.integ p) /\
    (PID.kp p * (PID.setpoint p - y) + PID.ki p * PID.integ p' < lo ->
     PID.ki p * PID.integ p <= PID.ki p * PID.integ p').
Proof.
  intros Hb.
  destruct (step_derivative_total p (PID.setpoint p - y) dt) as [d Hd].
  do 2 eexists. rewrite (step_unfold p y dt lo hi d Hd).
  split; [reflexivity|]. cbn [PID.integ].
  unfold PID.step_integ.
  set (e := PID.setpoint p - y).
  set (t := std_max (PID.integ_min p) (std_min (PID.integ_max p) (PID.integ p + e * dt))).
  destruct (fgt dt 0); [|split; intros _; apply Qle_refl].
  unfold fge, fgt.
  destruct (fle_cases lo (PID.kp p * e + PID.ki p * t)) as [[E1 C1] | [E1 C1]];
    rewrite E1;
    destruct (fle_cases (PID.kp p * e + PID.ki p * t) hi) as [[E2 C2] | [E2 C2]];
    rewrite E2; cbn [andb];
    try (split; intros H; exfalso; lra).
  - destruct (flt_cases hi (PID.kp p * e + PID.ki p * t)) as [[E3 C3] | [E3 C3]];
      rewrite E3;
      destruct (flt_cases (PID.kp p * e + PID.ki p * t)
                  (PID.kp p * e + PID.ki p * PID.integ p)) as [[E4 C4] | [E4 C4]];
      rewrite E4; cbn [andb orb];
      destruct (flt_cases (PID.kp p * e + PID.ki p * t) lo) as [[E5 C5] | [E5 C5]];
      try rewrite E5; cbn [andb orb];
      try (destruct (flt_cases (PID.kp p * e + PID.ki p * PID.integ p)
                       (PID.kp p * e + PID.ki p * t)) as [[E6 C6] | [E6 C6]];
           rewrite E6);
      split; intros H; lra.
  - destruct (flt_cases hi (PID.kp p * e + PID.ki p * t)) as [[E3 C3] | [E3 C3]];
      rewrite E3;
      destruct (flt_cases (PID.kp p * e + PID.ki p * t)
                  (PID.kp p * e + PID.ki p * PID.integ p)) as [[E4 C4] | [E4 C4]];
      rewrite E4; cbn [andb orb];
      destruct (flt_cases (PID.kp p * e + PID.ki p * t) lo) as [[E5 C5] | [E5 C5]];
      try rewrite E5; cbn [andb orb];
      try (destruct (flt_cases (PID.kp p * e + PID.ki p * PID.integ p)
                       (PID.kp p * e + PID.ki p * t)) as [[E6 C6] | [E6 C6]];
           rewrite E6);
      split; intros H; lra.
Qed.

Lemma step_never_worsens_saturation_witness :
  exists u p',
    PID.step (PID.with_gains PID.init 1 1 0) 0 (1 # 1000) (- (2 # 1)) (2 # 1) = Ok (u, p') /\
    u == 0.
Proof.
  destruct (step_never_worsens_saturation (PID.with_gains PID.init 1 1 0) 0 (1 # 1000)
              (- (2 # 1)) (2 # 1)) as (u & p' & H & _).
  - lra.
  - exists u, p'. split; [exact H|].
    vm_compute in H. injection H as <- _. reflexivity.
Defined.


(** X3: the output of [step] called with the magnet limits as bounds passes
    [Limits::clamp] unchanged: clamping it once more does nothing. *)
Theorem clamp_after_step_is_identity (p : PID.t) (lm : Limits.t) (y dt : Q) :
  Limits.magnet_min lm <= Limits.magnet_max lm ->
  exists u p',
    PID.step p y dt (Limits.magnet_min lm) (Limits.magnet_max lm) = Ok (u, p') /\
    Limits.clamp lm u = u.
Proof.
  intros H.
  destruct (step_total p y dt (Limits.magnet_min lm) (Limits.magnet_max lm))
    as (u & p' & Hs).
  exists u, p'. split; [exact Hs|].
  destruct (step_output_clamped p p' y dt _ _ u H Hs) as [H1 H2].
  unfold Limits.clamp. fcmp; try reflexivity; exfalso; lra.
Qed.

Lemma clamp_after_step_is_identity_witness :
  exists u p',
    PID.step (PID.with_setpoint PID.init (100 # 1)) 0 (1 # 1000) (- (2 # 1)) (2 # 1)
    = Ok (u, p') /\
    Limits.clamp Limits.init u = u.
Proof.
  apply (clamp_after_step_is_identity (PID.with_setpoint PID.init (100 # 1)) Limits.init).
  cbn. lra.
Defined.


(** X4: once [set_integrator_limits(lo, hi)] has been called with
    [lo <= hi], the integrator stays within [lo, hi] through every sequence
    of steps, whatever the measurements, time steps and output bounds. *)
Theorem integrator_stays_within_limits (p : PID.t) (lo hi : Q) (inputs : list step_input) :
  lo <= hi ->
  exists p',
    pid_steps (PID.set_integrator_limits p lo hi) inputs = Ok p' /\
    lo <= PID.integ p' /\ PID.integ p' <= hi.
Proof.
  intros H.
  assert (G : forall q : PID.t,
             PID.integ_in_window q ->
             exists q', pid_steps q inputs = Ok q' /\
                        PID.integ_in_window q' /\
                        PID.integ_min q' = PID.integ_min q /\
                        PID.integ_max q' = PID.integ_max q).
  { induction inputs as [|i rest IH]; intros q Hq.
    - exists q. cbn. repeat split; apply Hq.
    - destruct (step_derivative_total q (PID.setpoint q - si_measurement i) (si_dt i))
        as [d Hd].
      cbn [pid_steps].
      rewrite (step_unfold q (si_measurement i) (si_dt i) (si_out_min i) (si_out_max i)
                 d Hd).
      cbn [bind].
      match goal with |- context [pid_steps ?q1 rest] => destruct (IH q1) as (q' & H1 & H2 & H3 & H4) end.
      + unfold PID.integ_in_window. cbn. now apply step_integ_window.
      + exists q'. split; [exact H1|]. split; [exact H2|]. split; [exact H3 | exact H4]. }
  destruct (G (PID.set_integrator_limits p lo hi)) as (p' & H1 & [H2 H3] & H4 & H5).
  - unfold PID.integ_in_window. cbn. now apply std_clamp_bounds.
  - exists p'. split; [exact H1|]. rewrite H4, H5 in *. cbn in H2, H3. split; assumption.
Qed.

Lemma integrator_stays_within_limits_witness :
  exists p',
    pid_steps (PID.set_integrator_limits (PID.with_gains (PID.with_setpoint PID.init (10 # 1)) 0 1 0)
                 (- (2 # 1)) (3 # 1))
      [ {| si_measurement := 0; si_dt := 1; si_out_min := - (10 # 1); si_out_max := 10 # 1 |};
        {| si_measurement := 0; si_dt := 1; si_out_min := - (10 # 1); si_out_max := 10 # 1 |} ]
    = Ok p' /\
    - (2 # 1) <= PID.integ p' /\ PID.integ p' <= 3 # 1.
Proof.
  apply integrator_stays_within_limits. lra.
Defined.


(** ** The regulator and the limits in binary64

    The order of binary64: the comparisons of two floats that are no NaN
    are those of a total order, and every comparison with a NaN is false. *)

Section Binary64Facts.

Import PrimFloat SpecFloat FloatOps FloatAxioms.
Local Open Scope float_scope.

Lemma SFcompare_antisym (a b : spec_float) :
  SFcompare b a = option_map CompOpp (SFcompare a b).
Proof.
  destruct a as [sa | sa | | sa ma ea], b as [sb | sb | | sb mb eb]; cbn;
    try reflexivity; try (destruct sa; reflexivity); try (destruct sb; reflexivity);
    try (destruct sa, sb; reflexivity).
  assert (Hm : Pos.compare_cont Eq mb ma = CompOpp (Pos.compare_cont Eq ma mb))
    by (rewrite Pos.compare_cont_antisym; reflexivity).
  destruct sa, sb; cbn; try reflexivity;
    rewrite (Z.compare_antisym ea eb), Hm;
    destruct (ea ?= eb)%Z; cbn; try reflexivity;
    destruct (Pos.compare_cont Eq ma mb); reflexivity.
Qed.

Lemma SFcompare_refl (a : spec_float) :
  a <> S754_nan -> SFcompare a a = Some Eq.
Proof.
  destruct a as [sa | sa | | sa ma ea]; cbn; intros H; try reflexivity.
  - destruct sa; reflexivity.
  - congruence.
  - rewrite Z.compare_refl, Pos.compare_cont_refl. destruct sa; reflexivity.
Qed.

Lemma SFcompare_nan (a b : spec_float) :
  SFcompare a b = None <-> a = S754_nan \/ b = S754_nan.
Proof.
  destruct a as [sa | sa | | sa ma ea], b as [sb | sb | | sb mb eb]; cbn;
    split; intros H; try discriminate; try tauto;
    try (destruct H; discriminate).
Qed.

Lemma is_nan_spec (x : float) : is_nan x = true <-> Prim2SF x = S754_nan.
Proof.
  unfold is_nan. rewrite eqb_spec. unfold SFeqb. split.
  - intros H. destruct (Prim2SF x) eqn:E; try reflexivity;
      rewrite SFcompare_refl in H by discriminate; discriminate.
  - intros ->. reflexivity.
Qed.

Lemma is_nan_false (x : float) : is_nan x = false <-> Prim2SF x <> S754_nan.
Proof.
  rewrite <- is_nan_spec. destruct (is_nan x); split; congruence.
Qed.

Lemma is_nan_eq (x : float) : is_nan x = true -> x = nan.
Proof.
  intros H. apply is_nan_spec in H. apply Prim2SF_inj. rewrite H. reflexivity.
Qed.

(** The order of two floats that are no NaN. *)
Lemma compare_cases (a b : float) :
  is_nan a = false -> is_nan b = false ->
  ((a <? b) = true /\ (a <=? b) = true /\ (b <? a) = false /\ (b <=? a) = false) \/
  ((a <? b) = false /\ (a <=? b) = true /\ (b <? a) = false /\ (b <=? a) = true) \/
  ((a <? b) = false /\ (a <=? b) = false /\ (b <? a) = true /\ (b <=? a) = true).
Proof.
  intros Ha Hb. apply is_nan_false in Ha, Hb.
  rewrite !ltb_spec, !leb_spec. unfold SFltb, SFleb.
  rewrite (SFcompare_antisym (Prim2SF a) (Prim2SF b)).
  destruct (SFcompare (Prim2SF a) (Prim2SF b)) as [[]|] eqn:E; cbn.
  - right. left. repeat split.
  - left. repeat split.
  - right. right. repeat split.
  - apply SFcompare_nan in E. tauto.
Qed.

Lemma ltb_not_nan (a b : float) : (a <? b) = true -> is_nan a = false /\ is_nan b = false.
Proof.
  rewrite ltb_spec. unfold SFltb. intros H. rewrite !is_nan_false.
  destruct (SFcompare (Prim2SF a) (Prim2SF b)) eqn:E; [|discriminate].
  split; intros N; rewrite N in E; [|destruct (Prim2SF a)]; discriminate.
Qed.

Lemma leb_not_nan (a b : float) : (a <=? b) = true -> is_nan a = false /\ is_nan b = false.
Proof.
  rewrite leb_spec. unfold SFleb. intros H. rewrite !is_nan_false.
  destruct (SFcompare (Prim2SF a) (Prim2SF b)) eqn:E; [|discriminate].
  split; intros N; rewrite N in E; [|destruct (Prim2SF a)]; discriminate.
Qed.

Lemma nan_ltb_l (a b : float) : is_nan a = true -> (a <? b) = false.
Proof.
  intros H. destruct (a <? b) eqn:E; [|reflexivity].
  apply ltb_not_nan in E. destruct E. congruence.
Qed.

Lemma nan_ltb_r (a b : float) : is_nan b = true -> (a <? b) = false.
Proof.
  intros H. destruct (a <? b) eqn:E; [|reflexivity].
  apply ltb_not_nan in E. destruct E. congruence.
Qed.

Lemma leb_refl (a : float) : is_nan a = false -> (a <=? a) = true.
Proof.
  intros H. destruct (compare_cases a a H H) as [H1 | [H1 | H1]];
    destruct H1 as (? & ? & ? & ?); congruence.
Qed.

Ltac forder a b Ha Hb :=
  destruct (compare_cases a b Ha Hb) as [(?&?&?&?)|[(?&?&?&?)|(?&?&?&?)]].

Ltac frew :=
  repeat match goal with
         | H : (?a <? ?b) = _ |- context [?a <? ?b] => rewrite H
         | H : (?a <=? ?b) = _ |- context [?a <=? ?b] => rewrite H
         end.

Ltac frew_in H :=
  repeat match goal with
         | E : (?a <? ?b) = _ |- _ =>
             match type of H with context [a <? b] => rewrite E in H end
         | E : (?a <=? ?b) = _ |- _ =>
             match type of H with context [a <=? b] => rewrite E in H end
         end.

Lemma nan_leb_l (a b : float) : is_nan a = true -> (a <=? b) = false.
Proof.
  intros H. destruct (a <=? b) eqn:E; [|reflexivity].
  apply leb_not_nan in E. destruct E. congruence.
Qed.

Lemma nan_leb_r (a b : float) : is_nan b = true -> (a <=? b) = false.
Proof.
  intros H. destruct (a <=? b) eqn:E; [|reflexivity].
  apply leb_not_nan in E. destruct E. congruence.
Qed.

(** [std::max(lo, std::min(hi, x))] against the test of [is_saturated]. *)
Lemma clamp_cases (lo hi x : float) :
  let u := Binary64.std_max lo (Binary64.std_min hi x) in
  ((x <=? lo) || (hi <=? x) = true -> u = lo \/ u = hi) /\
  ((x <=? lo) || (hi <=? x) = false ->
   is_nan lo = false -> is_nan hi = false -> is_nan x = false -> u = x) /\
  (is_nan x = true -> (x <=? lo) || (hi <=? x) = false /\ (u = lo \/ u = hi)).
Proof.
  cbv zeta. unfold Binary64.std_max, Binary64.std_min.
  destruct (is_nan x) eqn:Nx.
  - rewrite (nan_ltb_l x hi Nx), (nan_leb_l x lo Nx), (nan_leb_r hi x Nx). cbn.
    split; [discriminate|]. split; [discriminate|]. intros _. split; [reflexivity|].
    destruct (lo <? hi); tauto.
  - split; [|split; [|discriminate]].
    + intros H. destruct (x <? hi) eqn:E1; [|destruct (lo <? hi); tauto].
      destruct (lo <? x) eqn:E2; [|tauto].
      exfalso. destruct (ltb_not_nan _ _ E1) as [_ Nhi].
      destruct (ltb_not_nan _ _ E2) as [Nlo _].
      forder x lo Nx Nlo; forder hi x Nhi Nx; try congruence;
        frew_in H; cbn in H; congruence.
    + intros H Nlo Nhi _.
      forder x lo Nx Nlo; forder hi x Nhi Nx; frew_in H; cbn in H;
        try discriminate; frew; reflexivity.
Qed.

(** X2: [Limits::clamp] in binary64, the limits ordered.  For every
    argument that is no NaN the result lies within
    [magnet_min, magnet_max]; an argument within the limits is returned
    unchanged; applied twice the function gives what it gives once.  A NaN
    fails both comparisons and is returned as it is, so the result is then
    not within the limits. *)
Theorem limits_clamp_within (lm : Limits64.t) (v : float) :
  (Limits64.magnet_min lm <=? Limits64.magnet_max lm) = true ->
  (is_nan v = false ->
   (Limits64.magnet_min lm <=? Limits64.clamp lm v) = true /\
   (Limits64.clamp lm v <=? Limits64.magnet_max lm) = true) /\
  (is_nan v = true ->
   Limits64.clamp lm v = v /\
   (Limits64.magnet_min lm <=? Limits64.clamp lm v) = false /\
   (Limits64.clamp lm v <=? Limits64.magnet_max lm) = false) /\
  ((Limits64.magnet_min lm <=? v) = true -> (v <=? Limits64.magnet_max lm) = true ->
   Limits64.clamp lm v = v) /\
  Limits64.clamp lm (Limits64.clamp lm v) = Limits64.clamp lm v.
Proof.
  intros Hb. destruct (leb_not_nan _ _ Hb) as [Nlo Nhi].
  unfold Limits64.clamp.
  destruct (is_nan v) eqn:Nv.
  - rewrite (nan_ltb_l v _ Nv), (nan_ltb_r _ v Nv).
    split; [discriminate|]. split.
    { intros _. split; [reflexivity|].
      split; [apply nan_leb_r | apply nan_leb_l]; exact Nv. }
    split.
    + intros H. apply leb_not_nan in H. destruct H; congruence.
    + rewrite (nan_ltb_l v _ Nv), (nan_ltb_r _ v Nv). reflexivity.
  - forder v (Limits64.magnet_min lm) Nv Nlo;
      forder (Limits64.magnet_max lm) v Nhi Nv;
      forder (Limits64.magnet_min lm) (Limits64.magnet_max lm) Nlo Nhi;
      forder (Limits64.magnet_min lm) (Limits64.magnet_min lm) Nlo Nlo;
      forder (Limits64.magnet_max lm) (Limits64.magnet_max lm) Nhi Nhi;
      try congruence; frew; cbn; frew; cbn;
      (split; [intros _; split; congruence|]);
      (split; [discriminate|]);
      (split; [intros; congruence|]); frew; reflexivity.
Qed.

(** The limits as initialised: 3 is clamped to 2, NaN passes. *)
Lemma limits_clamp_within_witness :
  Limits64.clamp Limits64.init 3.0 = 2.0 /\
  Limits64.clamp Limits64.init nan = nan /\
  (Limits64.magnet_min Limits64.init <=? Limits64.clamp Limits64.init 3.0) = true /\
  (Limits64.clamp Limits64.init 3.0 <=? Limits64.magnet_max Limits64.init) = true.
Proof.
  destruct (limits_clamp_within Limits64.init 3.0 eq_refl) as (H & _).
  destruct (H eq_refl) as [H1 H2].
  split; [reflexivity|]. split; [reflexivity|]. split; [exact H1 | exact H2].
Defined.

(** X5: [is_saturated], asked after a step with the bounds of that step, in
    binary64.  When it answers true, the output of the step is one of the
    two bounds.  When it answers false and the bounds and the sum of the
    three stored terms are no NaN, the output is that sum.  When the sum of
    the stored terms is NaN (a proportional and a derivative term that
    overflow to opposite infinities), it answers false although the output
    is one of the bounds. *)
Theorem is_saturated_after_step (p : PID64.t) (y dt lo hi : float) :
  let r := PID64.step p y dt lo hi in
  let total := PID64.last_proportional (snd r) + PID64.last_integral (snd r)
               + PID64.last_derivative (snd r) in
  (PID64.is_saturated (snd r) lo hi = true -> fst r = lo \/ fst r = hi) /\
  (PID64.is_saturated (snd r) lo hi = false ->
   is_nan lo = false -> is_nan hi = false -> is_nan total = false -> fst r = total) /\
  (is_nan total = true ->
   PID64.is_saturated (snd r) lo hi = false /\ (fst r = lo \/ fst r = hi)).
Proof.
  cbv zeta. unfold PID64.is_saturated, PID64.step.
  cbn [fst snd PID64.last_proportional PID64.last_integral PID64.last_derivative].
  apply clamp_cases.
Qed.

(** Gains 10 and -10, a measurement of -1e308 after 1 s: the proportional
    term is +infinity, the derivative term -infinity, their sum NaN. *)
Lemma is_saturated_after_step_witness :
  let p := {| PID64.kp := 10.0; PID64.ki := 0.0; PID64.kd := -10.0;
              PID64.setpoint := 0.0; PID64.integ := 0.0; PID64.prev_err := 0.0;
              PID64.integ_min := -1e6; PID64.integ_max := 1e6;
              PID64.last_proportional := 0.0; PID64.last_integral := 0.0;
              PID64.last_derivative := 0.0; PID64.last_error := 0.0 |} in
  let r := PID64.step p (-1e308) 1.0 (-2.0) 2.0 in
  PID64.last_proportional (snd r) = infinity /\
  PID64.last_derivative (snd r) = neg_infinity /\
  PID64.is_saturated (snd r) (-2.0) 2.0 = false /\
  fst r = 2.0.
Proof.
  intros p r.
  destruct (is_saturated_after_step p (-1e308) 1.0 (-2.0) 2.0) as (_ & _ & H).
  destruct (H eq_refl) as [H1 _].
  split; [reflexivity|]. split; [reflexivity|]. split; [exact H1 | reflexivity].
Defined.

Lemma finite_cases (x : float) :
  is_finite x = true ->
  (exists s, Prim2SF x = S754_zero s) \/ (exists s m e, Prim2SF x = S754_finite s m e).
Proof.
  unfold is_finite, is_infinity. intros H. apply negb_true_iff in H.
  apply orb_false_iff in H. destruct H as [H1 H2].
  apply is_nan_false in H1. rewrite eqb_spec, abs_spec in H2.
  destruct (Prim2SF x) as [s | s | | s m e]; try congruence.
  - left. now exists s.
  - discriminate H2.
  - right. now exists s, m, e.
Qed.

Lemma sub_self_zero (x : float) :
  is_finite x = true -> Prim2SF (x - x) = S754_zero false.
Proof.
  intros H. rewrite sub_spec. destruct (finite_cases x H) as [[s E] | (s & m & e & E)];
    rewrite E.
  - destruct s; reflexivity.
  - unfold SF64sub, SFsub. rewrite Z.sub_diag. reflexivity.
Qed.

Lemma mul_zero_r (k z : float) (s : bool) :
  is_finite k = true -> Prim2SF z = S754_zero s ->
  exists s', Prim2SF (k * z) = S754_zero s'.
Proof.
  intros H E. rewrite mul_spec, E.
  destruct (finite_cases k H) as [[sk Ek] | (sk & m & e & Ek)]; rewrite Ek; cbn;
    eexists; reflexivity.
Qed.

Lemma div_zero_l (z d : float) (s : bool) :
  Prim2SF z = S754_zero s -> (1e-9 <? d) = true ->
  exists s', Prim2SF (z / d) = S754_zero s'.
Proof.
  intros E H. rewrite div_spec, E. rewrite ltb_spec in H.
  destruct (Prim2SF d) as [sd | sd | | sd m e]; cbn; try (eexists; reflexivity).
  - vm_compute in H. discriminate.
  - vm_compute in H. discriminate.
Qed.

(** X6: at rest the derivative term vanishes, in binary64.  When two steps
    in a row see the same measurement, the error [setpoint - measurement]
    is finite and the derivative gain is finite, the derivative term of the
    second step is 0 (of either sign), whatever the time steps and the
    bounds: the derivative acts on the change of the error.  An error that
    overflows to infinity gives the term NaN instead. *)
Theorem derivative_vanishes_at_rest (p : PID64.t) (y dt1 dt2 lo hi : float) :
  is_finite (PID64.setpoint p - y) = true ->
  is_finite (PID64.kd p) = true ->
  let p1 := snd (PID64.step p y dt1 lo hi) in
  let p2 := snd (PID64.step p1 y dt2 lo hi) in
  (PID64.last_derivative p2 =? 0.0) = true.
Proof.
  intros He Hk. cbv zeta. unfold PID64.step.
  cbn [snd PID64.last_derivative PID64.setpoint]. unfold PID64.step_derivative.
  cbn [PID64.kd PID64.prev_err].
  destruct ((1e-9 <? dt2) && negb (PID64.kd p =? 0.0)) eqn:G; [|reflexivity].
  apply andb_true_iff in G. destruct G as [G _].
  pose proof (sub_self_zero _ He) as Hz.
  destruct (mul_zero_r (PID64.kd p) _ false Hk Hz) as [s1 H1].
  destruct (div_zero_l _ dt2 s1 H1 G) as [s2 H2].
  rewrite eqb_spec, H2. reflexivity.
Qed.

Lemma derivative_vanishes_at_rest_witness :
  let p := PID64.with_derivative 0.5 1.0 0.3 in
  let p1 := snd (PID64.step p 0.2 0.001 (-2.0) 2.0) in
  let p2 := snd (PID64.step p1 0.2 0.001 (-2.0) 2.0) in
  (PID64.last_derivative p1 =? 0.0) = false /\
  (PID64.last_derivative p2 =? 0.0) = true.
Proof.
  split; [reflexivity|].
  exact (derivative_vanishes_at_rest (PID64.with_derivative 0.5 1.0 0.3)
           0.2 0.001 0.001 (-2.0) 2.0 eq_refl eq_refl).
Defined.

(** A setpoint of 1e308 against a measurement of -1e308: the error is
    +infinity in both steps, and the derivative term of the second is NaN. *)
Lemma derivative_at_rest_overflows :
  let p := PID64.with_derivative 0.5 1e308 0.0 in
  let p1 := snd (PID64.step p (-1e308) 0.001 (-2.0) 2.0) in
  let p2 := snd (PID64.step p1 (-1e308) 0.001 (-2.0) 2.0) in
  PID64.last_error p2 = infinity /\ is_nan (PID64.last_derivative p2) = true.
Proof. vm_compute. split; reflexivity. Qed.

End Binary64Facts.

(** ** The periodic clock *)

Lemma wait_many_schedule (nows : list Z) :
  forall c : PeriodicClock.t,
    PeriodicClock.period (PeriodicClock.wait_many c nows) = PeriodicClock.period c /\
    PeriodicClock.next (PeriodicClock.wait_many c nows)
    = (PeriodicClock.next c + Z.of_nat (List.length nows) * PeriodicClock.period c)%Z.
Proof.
  induction nows as [|now rest IH]; intros c.
  - cbn. split; [reflexivity | lia].
  - cbn [PeriodicClock.wait_many List.length].
    destruct (IH (snd (PeriodicClock.wait_next c now))) as [H1 H2].
    rewrite H1, H2. cbn [PeriodicClock.wait_next snd PeriodicClock.period PeriodicClock.next].
    split; [reflexivity | lia].
Qed.

(** X7: the clock does not drift: after [n] calls of [wait_next], at
    whatever instants they are made and however late, the next target is
    the first one plus [n] periods, and the period is unchanged. *)
Theorem clock_schedule_is_arithmetic (c : PeriodicClock.t) (nows : list Z) :
  PeriodicClock.get_period (PeriodicClock.wait_many c nows) = PeriodicClock.get_period c /\
  PeriodicClock.next (PeriodicClock.wait_many c nows)
  = (PeriodicClock.next c + Z.of_nat (List.length nows) * PeriodicClock.period c)%Z.
Proof.
  destruct (wait_many_schedule nows c) as [Hperiod Hnext].
  unfold PeriodicClock.get_period. split; [exact Hperiod | exact Hnext].
Qed.


(** X8: [set_period] re-bases the schedule on the instant of the call: the
    old target is forgotten, the time to the next tick is the new period,
    and [n] waits later the target is the instant of the call plus [n + 1]
    new periods. *)
Theorem clock_set_period_rebases (c : PeriodicClock.t) (p now : Z) (nows : list Z) :
  PeriodicClock.time_to_next (PeriodicClock.set_period c p now) now = Z.max 0 p /\
  PeriodicClock.next (PeriodicClock.wait_many (PeriodicClock.set_period c p now) nows)
  = (now + (Z.of_nat (List.length nows) + 1) * p)%Z.
Proof.
  split.
  - unfold PeriodicClock.time_to_next, PeriodicClock.set_period. cbn.
    destruct (Z.leb_spec (now + p) now); lia.
  - destruct (wait_many_schedule nows (PeriodicClock.set_period c p now)) as [_ H].
    rewrite H. cbn. lia.
Qed.

(** ** The deadline watchdog *)

Lemma u64_incr_small (n : N) :
  (n + 1 < u64_modulus)%N -> u64_incr n = (n + 1)%N.
Proof. intros H. unfold u64_incr. now apply N.mod_small. Qed.

Section WatchdogFacts.

Variable W : Type.

(** What a check leaves of the counters it does not count with. *)
Lemma check_fixed (w : DeadlineWatchdog.t W) (e : Z) (world : W) :
  let w' := snd (fst (DeadlineWatchdog.check w e world)) in
  DeadlineWatchdog.budget (DeadlineWatchdog.state w')
  = DeadlineWatchdog.budget (DeadlineWatchdog.state w) /\
  DeadlineWatchdog.warning_threshold (DeadlineWatchdog.state w')
  = DeadlineWatchdog.warning_threshold (DeadlineWatchdog.state w) /\
  DeadlineWatchdog.critical_consecutive_threshold (DeadlineWatchdog.state w')
  = DeadlineWatchdog.critical_consecutive_threshold (DeadlineWatchdog.state w) /\
  DeadlineWatchdog.warning_consecutive_threshold (DeadlineWatchdog.state w')
  = DeadlineWatchdog.warning_consecutive_threshold (DeadlineWatchdog.state w) /\
  DeadlineWatchdog.critical_callback w' = DeadlineWatchdog.critical_callback w /\
  DeadlineWatchdog.warning_callback w' = DeadlineWatchdog.warning_callback w /\
  DeadlineWatchdog.tripped (DeadlineWatchdog.state w')
  = (DeadlineWatchdog.budget (DeadlineWatchdog.state w) <? e)%Z /\
  fst (fst (DeadlineWatchdog.check w e world))
  = (DeadlineWatchdog.budget (DeadlineWatchdog.state w) <? e)%Z /\
  DeadlineWatchdog.total_checks (DeadlineWatchdog.state w')
  = u64_incr (DeadlineWatchdog.total_checks (DeadlineWatchdog.state w)).
Proof.
  unfold DeadlineWatchdog.check, DeadlineWatchdog.handle_deadline_miss,
    DeadlineWatchdog.handle_warning.
  cbn -[Z.ltb N.leb u64_incr DeadlineWatchdog.u32_incr DeadlineWatchdog.to_uint64
        N.ltb N.modulo].
  destruct (DeadlineWatchdog.budget (DeadlineWatchdog.state w) <? e)%Z;
    destruct (DeadlineWatchdog.critical_callback w);
    destruct (DeadlineWatchdog.warning_callback w);
    cbn -[Z.ltb N.leb u64_incr DeadlineWatchdog.u32_incr DeadlineWatchdog.to_uint64
          N.ltb N.modulo];
    repeat match goal with
      | |- context [if ?c then _ else _] => destruct c;
          cbn -[Z.ltb N.leb u64_incr DeadlineWatchdog.u32_incr
                DeadlineWatchdog.to_uint64 N.ltb N.modulo]
      end;
    repeat split.
Qed.

(** X9: what the loop asks of the watchdog depends on the budget alone:
    [check] returns whether the execution time exceeds the budget,
    [is_tripped] then answers the same, [reset] clears that verdict, and
    none of them changes the budget, whatever the statistics, the
    thresholds and the callbacks are.  The class, seen through its budget
    and its verdict, is the two-field watchdog of the loop. *)
Theorem watchdog_view_is_faithful (w : DeadlineWatchdog.t W) (e : Z) (world : W)
        (budget_ns : Z) (ratio : Q) :
  DeadlineWatchdog.reduce (DeadlineWatchdog.make W budget_ns ratio)
  = Watchdog.make budget_ns /\
  Watchdog.check (DeadlineWatchdog.reduce w) e
  = (fst (fst (DeadlineWatchdog.check w e world)),
     DeadlineWatchdog.reduce (snd (fst (DeadlineWatchdog.check w e world)))) /\
  DeadlineWatchdog.is_tripped (snd (fst (DeadlineWatchdog.check w e world)))
  = Watchdog.is_tripped (snd (Watchdog.check (DeadlineWatchdog.reduce w) e)) /\
  DeadlineWatchdog.reduce (DeadlineWatchdog.reset w)
  = Watchdog.reset (DeadlineWatchdog.reduce w).
Proof.
  destruct (check_fixed w e world) as (H1 & _ & _ & _ & _ & _ & H7 & H8 & _).
  cbn zeta in H1, H7.
  split; [reflexivity|]. split; [|split; [|reflexivity]].
  - unfold Watchdog.check, DeadlineWatchdog.reduce. cbn [Watchdog.budget].
    rewrite H8, H1, H7. reflexivity.
  - unfold DeadlineWatchdog.is_tripped. rewrite H7. reflexivity.
Qed.


(** One check keeps the order of the three totals and counts itself. *)
Lemma check_totals (w : DeadlineWatchdog.t W) (e : Z) (world : W) :
  (DeadlineWatchdog.warning_threshold (DeadlineWatchdog.state w)
   <= DeadlineWatchdog.budget (DeadlineWatchdog.state w))%Z ->
  (DeadlineWatchdog.total_violations (DeadlineWatchdog.state w)
   <= DeadlineWatchdog.total_warnings (DeadlineWatchdog.state w))%N ->
  (DeadlineWatchdog.total_warnings (DeadlineWatchdog.state w)
   <= DeadlineWatchdog.total_checks (DeadlineWatchdog.state w))%N ->
  (DeadlineWatchdog.total_checks (DeadlineWatchdog.state w) + 1 < u64_modulus)%N ->
  let w' := snd (fst (DeadlineWatchdog.check w e world)) in
  (DeadlineWatchdog.total_violations (DeadlineWatchdog.state w')
   <= DeadlineWatchdog.total_warnings (DeadlineWatchdog.state w'))%N /\
  (DeadlineWatchdog.total_warnings (DeadlineWatchdog.state w')
   <= DeadlineWatchdog.total_checks (DeadlineWatchdog.state w'))%N /\
  DeadlineWatchdog.total_checks (DeadlineWatchdog.state w')
  = (DeadlineWatchdog.total_checks (DeadlineWatchdog.state w) + 1)%N /\
  DeadlineWatchdog.total_violations (DeadlineWatchdog.state w')
  = (DeadlineWatchdog.total_violations (DeadlineWatchdog.state w)
     + if (DeadlineWatchdog.budget (DeadlineWatchdog.state w) <? e)%Z then 1 else 0)%N.
Proof.
  intros Hwt Hvw Hwc Hc.
  assert (Hv : u64_incr (DeadlineWatchdog.total_violations (DeadlineWatchdog.state w))
               = (DeadlineWatchdog.total_violations (DeadlineWatchdog.state w) + 1)%N)
    by (apply u64_incr_small; lia).
  assert (Hw : u64_incr (DeadlineWatchdog.total_warnings (DeadlineWatchdog.state w))
               = (DeadlineWatchdog.total_warnings (DeadlineWatchdog.state w) + 1)%N)
    by (apply u64_incr_small; lia).
  assert (Hk : u64_incr (DeadlineWatchdog.total_checks (DeadlineWatchdog.state w))
               = (DeadlineWatchdog.total_checks (DeadlineWatchdog.state w) + 1)%N)
    by (apply u64_incr_small; lia).
  unfold DeadlineWatchdog.check, DeadlineWatchdog.handle_deadline_miss,
    DeadlineWatchdog.handle_warning.
  cbn -[Z.ltb N.leb u64_incr DeadlineWatchdog.u32_incr DeadlineWatchdog.to_uint64
        N.ltb N.modulo].
  repeat match goal with
    | |- context [match ?c with Some _ => _ | None => _ end] => destruct c
    | |- context [if ?c then _ else _] => destruct c eqn:?
    | _ => progress cbn -[Z.ltb N.leb u64_incr DeadlineWatchdog.u32_incr
                          DeadlineWatchdog.to_uint64 N.ltb N.modulo]
    end;
    repeat match goal with
      | H : (_ <? _)%Z = true |- _ => apply Z.ltb_lt in H
      | H : (_ <? _)%Z = false |- _ => apply Z.ltb_ge in H
      end;
    cbn -[Z.ltb N.leb u64_incr DeadlineWatchdog.u32_incr DeadlineWatchdog.to_uint64
          N.ltb N.modulo] in *;
    rewrite ?Hv, ?Hw, ?Hk; repeat split; lia.
Qed.

(** X10: with the warning threshold not above the budget, the totals of the
    watchdog stay ordered through every sequence of checks that does not
    wrap the check counter: violations <= warnings <= checks, the checks
    counted one by one. *)
Theorem watchdog_totals_ordered (executions : list Z) :
  forall (w : DeadlineWatchdog.t W) (world : W),
    (DeadlineWatchdog.warning_threshold (DeadlineWatchdog.state w)
     <= DeadlineWatchdog.budget (DeadlineWatchdog.state w))%Z ->
    (DeadlineWatchdog.total_violations (DeadlineWatchdog.state w)
     <= DeadlineWatchdog.total_warnings (DeadlineWatchdog.state w))%N ->
    (DeadlineWatchdog.total_warnings (DeadlineWatchdog.state w)
     <= DeadlineWatchdog.total_checks (DeadlineWatchdog.state w))%N ->
    (DeadlineWatchdog.total_checks (DeadlineWatchdog.state w)
     + N.of_nat (List.length executions) < u64_modulus)%N ->
    let w' := fst (DeadlineWatchdog.check_many w executions world) in
    (DeadlineWatchdog.get_total_violations w'
     <= DeadlineWatchdog.get_total_warnings w')%N /\
    (DeadlineWatchdog.get_total_warnings w'
     <= DeadlineWatchdog.get_total_checks w')%N /\
    DeadlineWatchdog.get_total_checks w'
    = (DeadlineWatchdog.get_total_checks w + N.of_nat (List.length executions))%N.
Proof.
  unfold DeadlineWatchdog.get_total_violations, DeadlineWatchdog.get_total_warnings,
    DeadlineWatchdog.get_total_checks.
  induction executions as [|e rest IH]; intros w world Hwt Hvw Hwc Hc.
  - cbn. repeat split; try assumption; try lia.
  - cbn [DeadlineWatchdog.check_many List.length] in *.
    destruct (check_totals w e world Hwt Hvw Hwc ltac:(lia)) as (H1 & H2 & H3 & _).
    destruct (check_fixed w e world) as (F1 & F2 & _).
    destruct (DeadlineWatchdog.check w e world) as [[v w1] world1].
    cbn [fst snd] in *.
    cbn zeta in *.
    destruct (IH w1 world1 ltac:(lia) ltac:(lia) ltac:(lia) ltac:(lia))
      as (I1 & I2 & I3).
    split; [exact I1|]. split; [exact I2|]. lia.
Qed.

Lemma check_many_fixed (executions : list Z) :
  forall (w : DeadlineWatchdog.t W) (world : W),
    let w' := fst (DeadlineWatchdog.check_many w executions world) in
    DeadlineWatchdog.budget (DeadlineWatchdog.state w')
    = DeadlineWatchdog.budget (DeadlineWatchdog.state w) /\
    DeadlineWatchdog.warning_threshold (DeadlineWatchdog.state w')
    = DeadlineWatchdog.warning_threshold (DeadlineWatchdog.state w) /\
    DeadlineWatchdog.critical_consecutive_threshold (DeadlineWatchdog.state w')
    = DeadlineWatchdog.critical_consecutive_threshold (DeadlineWatchdog.state w) /\
    DeadlineWatchdog.warning_consecutive_threshold (DeadlineWatchdog.state w')
    = DeadlineWatchdog.warning_consecutive_threshold (DeadlineWatchdog.state w) /\
    DeadlineWatchdog.critical_callback w' = DeadlineWatchdog.critical_callback w /\
    DeadlineWatchdog.warning_callback w' = DeadlineWatchdog.warning_callback w.
Proof.
  induction executions as [|e rest IH]; intros w world.
  - cbn. repeat split.
  - cbn [DeadlineWatchdog.check_many].
    destruct (check_fixed w e world) as (F1 & F2 & F3 & F4 & F5 & F6 & _).
    destruct (DeadlineWatchdog.check w e world) as [[v w1] world1].
    cbn [fst snd] in *.
    destruct (IH w1 world1) as (I1 & I2 & I3 & I4 & I5 & I6).
    cbn zeta in *.
    repeat split; congruence.
Qed.

(** X11: [reset] clears the verdict and the two consecutive counters and
    keeps everything else: the budget, the thresholds, the three totals,
    the extremes and the sum of the execution times, and the callbacks.
    [reset_all], after whatever checks a constructed watchdog has made,
    gives back the counters of the constructor. *)
Theorem watchdog_reset_round_trip (budget_ns : Z) (ratio : Q) (executions : list Z)
        (w : DeadlineWatchdog.t W) (world : W) :
  DeadlineWatchdog.state
    (DeadlineWatchdog.reset_all
       (fst (DeadlineWatchdog.check_many (DeadlineWatchdog.make W budget_ns ratio)
               executions world)))
  = DeadlineWatchdog.fresh budget_ns ratio /\
  DeadlineWatchdog.is_tripped (DeadlineWatchdog.reset w) = false /\
  DeadlineWatchdog.get_consecutive_misses (DeadlineWatchdog.reset w) = 0%N /\
  DeadlineWatchdog.get_total_checks (DeadlineWatchdog.reset w)
  = DeadlineWatchdog.get_total_checks w /\
  DeadlineWatchdog.get_total_violations (DeadlineWatchdog.reset w)
  = DeadlineWatchdog.get_total_violations w /\
  DeadlineWatchdog.get_total_warnings (DeadlineWatchdog.reset w)
  = DeadlineWatchdog.get_total_warnings w /\
  DeadlineWatchdog.get_min_execution_ns (DeadlineWatchdog.reset w)
  = DeadlineWatchdog.get_min_execution_ns w /\
  DeadlineWatchdog.get_max_execution_ns (DeadlineWatchdog.reset w)
  = DeadlineWatchdog.get_max_execution_ns w /\
  (let c := DeadlineWatchdog.state w in
   let c' := DeadlineWatchdog.state (DeadlineWatchdog.reset w) in
   DeadlineWatchdog.tripped c' = false /\
   DeadlineWatchdog.consecutive_misses c' = 0%N /\
   DeadlineWatchdog.consecutive_warnings c' = 0%N /\
   DeadlineWatchdog.budget c' = DeadlineWatchdog.budget c /\
   DeadlineWatchdog.warning_threshold c' = DeadlineWatchdog.warning_threshold c /\
   DeadlineWatchdog.total_violations c' = DeadlineWatchdog.total_violations c /\
   DeadlineWatchdog.total_checks c' = DeadlineWatchdog.total_checks c /\
   DeadlineWatchdog.total_warnings c' = DeadlineWatchdog.total_warnings c /\
   DeadlineWatchdog.min_execution_ns c' = DeadlineWatchdog.min_execution_ns c /\
   DeadlineWatchdog.max_execution_ns c' = DeadlineWatchdog.max_execution_ns c /\
   DeadlineWatchdog.sum_execution_ns c' = DeadlineWatchdog.sum_execution_ns c /\
   DeadlineWatchdog.critical_consecutive_threshold c'
   = DeadlineWatchdog.critical_consecutive_threshold c /\
   DeadlineWatchdog.warning_consecutive_threshold c'
   = DeadlineWatchdog.warning_consecutive_threshold c) /\
  DeadlineWatchdog.critical_callback (DeadlineWatchdog.reset w)
  = DeadlineWatchdog.critical_callback w /\
  DeadlineWatchdog.warning_callback (DeadlineWatchdog.reset w)
  = DeadlineWatchdog.warning_callback w.
Proof.
  split; [|repeat split].
  destruct (check_many_fixed executions (DeadlineWatchdog.make W budget_ns ratio) world)
    as (F1 & F2 & F3 & F4 & _).
  cbn zeta in *.
  destruct (fst (DeadlineWatchdog.check_many (DeadlineWatchdog.make W budget_ns ratio)
                   executions world)) as [c cb1 cb2].
  cbn [DeadlineWatchdog.state] in *.
  destruct c. cbn in F1, F2, F3, F4. subst.
  reflexivity.
Qed.


(** What a check does to the extremes. *)
Lemma check_extremes (w : DeadlineWatchdog.t W) (e : Z) (world : W) :
  let w' := snd (fst (DeadlineWatchdog.check w e world)) in
  (DeadlineWatchdog.min_execution_ns (DeadlineWatchdog.state w')
   <= DeadlineWatchdog.to_uint64 e)%N /\
  (DeadlineWatchdog.to_uint64 e
   <= DeadlineWatchdog.max_execution_ns (DeadlineWatchdog.state w'))%N /\
  (DeadlineWatchdog.min_execution_ns (DeadlineWatchdog.state w')
   <= DeadlineWatchdog.min_execution_ns (DeadlineWatchdog.state w))%N /\
  (DeadlineWatchdog.max_execution_ns (DeadlineWatchdog.state w)
   <= DeadlineWatchdog.max_execution_ns (DeadlineWatchdog.state w'))%N.
Proof.
  unfold DeadlineWatchdog.check, DeadlineWatchdog.handle_deadline_miss,
    DeadlineWatchdog.handle_warning.
  cbn -[Z.ltb N.leb u64_incr DeadlineWatchdog.u32_incr DeadlineWatchdog.to_uint64
        N.ltb N.modulo].
  repeat match goal with
    | |- context [match ?c with Some _ => _ | None => _ end] => destruct c
    | |- context [if (?a <? ?b)%N then _ else _] => destruct (N.ltb_spec a b)
    | |- context [if ?c then _ else _] => destruct c
    | _ => progress cbn -[Z.ltb N.leb u64_incr DeadlineWatchdog.u32_incr
                          DeadlineWatchdog.to_uint64 N.ltb N.modulo]
    end;
    repeat split; lia.
Qed.

(** X12: the extremes bracket every measured time: after a sequence of
    checks, each execution time checked (non-negative and below 2^64) lies
    between what [get_min_execution_ns] and [get_max_execution_ns]
    return. *)
Theorem watchdog_extremes_bracket (executions : list Z) :
  forall (w : DeadlineWatchdog.t W) (world : W) (e : Z),
    In e executions ->
    (0 <= e < Z.of_N u64_modulus)%Z ->
    let w' := fst (DeadlineWatchdog.check_many w executions world) in
    (Z.of_N (DeadlineWatchdog.get_min_execution_ns w') <= e)%Z /\
    (e <= Z.of_N (DeadlineWatchdog.get_max_execution_ns w'))%Z.
Proof.
  assert (Hmono : forall es (w : DeadlineWatchdog.t W) (world : W),
             let w' := fst (DeadlineWatchdog.check_many w es world) in
             (DeadlineWatchdog.min_execution_ns (DeadlineWatchdog.state w')
              <= DeadlineWatchdog.min_execution_ns (DeadlineWatchdog.state w))%N /\
             (DeadlineWatchdog.max_execution_ns (DeadlineWatchdog.state w)
              <= DeadlineWatchdog.max_execution_ns (DeadlineWatchdog.state w'))%N).
  { induction es as [|x rest IH]; intros w world; cbn zeta.
    - cbn. split; lia.
    - cbn [DeadlineWatchdog.check_many].
      destruct (check_extremes w x world) as (_ & _ & H3 & H4).
      destruct (DeadlineWatchdog.check w x world) as [[v w1] world1].
      cbn [fst snd] in *. destruct (IH w1 world1) as [I1 I2]. cbn zeta in *.
      split; lia. }
  unfold DeadlineWatchdog.get_min_execution_ns, DeadlineWatchdog.get_max_execution_ns.
  induction executions as [|x rest IH]; intros w world e Hin He; [contradiction|].
  cbn [DeadlineWatchdog.check_many]. cbn zeta.
  destruct (check_extremes w x world) as (H1 & H2 & _ & _).
  destruct (DeadlineWatchdog.check w x world) as [[v w1] world1] eqn:E.
  cbn [fst snd] in *.
  destruct Hin as [-> | Hin].
  - destruct (Hmono rest w1 world1) as [M1 M2]. cbn zeta in *.
    assert (Hu : Z.of_N (DeadlineWatchdog.to_uint64 e) = e).
    { unfold DeadlineWatchdog.to_uint64. rewrite Z.mod_small by lia.
      apply Z2N.id. lia. }
    destruct (N.eqb_spec
                (DeadlineWatchdog.min_execution_ns
                   (DeadlineWatchdog.state
                      (fst (DeadlineWatchdog.check_many w1 rest world1))))
                DeadlineWatchdog.UINT64_MAX); split; lia.
  - apply (IH w1 world1 e Hin He).
Qed.

(** X13: from the miss that makes the consecutive misses reach the critical
    threshold on, every missed deadline calls the critical callback, with
    the watchdog already tripped and the miss counted; a missed deadline
    below the threshold calls nothing.  (No warning callback registered; the
    consecutive counter not wrapping.) *)
Theorem watchdog_critical_callback_repeats (w : DeadlineWatchdog.t W) (e : Z) (world : W)
        (cb : DeadlineWatchdog.callback W) :
  DeadlineWatchdog.critical_callback w = Some cb ->
  DeadlineWatchdog.warning_callback w = None ->
  (DeadlineWatchdog.budget (DeadlineWatchdog.state w) < e)%Z ->
  (DeadlineWatchdog.consecutive_misses (DeadlineWatchdog.state w) + 1
   < DeadlineWatchdog.u32_modulus)%N ->
  let r := DeadlineWatchdog.check w e world in
  fst (fst r) = true /\
  DeadlineWatchdog.get_consecutive_misses (snd (fst r))
  = (DeadlineWatchdog.consecutive_misses (DeadlineWatchdog.state w) + 1)%N /\
  ((DeadlineWatchdog.critical_consecutive_threshold (DeadlineWatchdog.state w)
    <= DeadlineWatchdog.consecutive_misses (DeadlineWatchdog.state w) + 1)%N ->
   exists c,
     snd r = cb c world /\
     DeadlineWatchdog.tripped c = true /\
     DeadlineWatchdog.consecutive_misses c
     = (DeadlineWatchdog.consecutive_misses (DeadlineWatchdog.state w) + 1)%N) /\
  ((DeadlineWatchdog.consecutive_misses (DeadlineWatchdog.state w) + 1
    < DeadlineWatchdog.critical_consecutive_threshold (DeadlineWatchdog.state w))%N ->
   snd r = world).
Proof.
  intros Hcb Hwb Hmiss Hwrap.
  assert (Hi : DeadlineWatchdog.u32_incr
                 (DeadlineWatchdog.consecutive_misses (DeadlineWatchdog.state w))
               = (DeadlineWatchdog.consecutive_misses (DeadlineWatchdog.state w) + 1)%N)
    by (unfold DeadlineWatchdog.u32_incr; now apply N.mod_small).
  unfold DeadlineWatchdog.check, DeadlineWatchdog.handle_deadline_miss,
    DeadlineWatchdog.handle_warning, DeadlineWatchdog.get_consecutive_misses.
  rewrite Hcb, Hwb.
  cbn -[Z.ltb N.leb u64_incr DeadlineWatchdog.u32_incr DeadlineWatchdog.to_uint64
        N.ltb N.modulo].
  apply Z.ltb_lt in Hmiss. rewrite Hmiss.
  cbn -[Z.ltb N.leb u64_incr DeadlineWatchdog.u32_incr DeadlineWatchdog.to_uint64
        N.ltb N.modulo].
  rewrite Hi.
  destruct (N.leb_spec
              (DeadlineWatchdog.critical_consecutive_threshold (DeadlineWatchdog.state w))
              (DeadlineWatchdog.consecutive_misses (DeadlineWatchdog.state w) + 1));
    cbn -[Z.ltb N.leb u64_incr DeadlineWatchdog.u32_incr DeadlineWatchdog.to_uint64
          N.ltb N.modulo];
    destruct (DeadlineWatchdog.warning_threshold (DeadlineWatchdog.state w) <? e)%Z;
    cbn -[Z.ltb N.leb u64_incr DeadlineWatchdog.u32_incr DeadlineWatchdog.to_uint64
          N.ltb N.modulo];
    (split; [reflexivity|]); (split; [reflexivity|]); split; intros Hx;
    try lia; try reflexivity;
    eexists; (split; [reflexivity|]); split; reflexivity.
Qed.

End WatchdogFacts.

Lemma watchdog_totals_ordered_witness :
  let w' := fst (DeadlineWatchdog.check_many
                   (DeadlineWatchdog.make unit 1000 (8 # 10)) [500; 900; 1200]%Z tt) in
  (DeadlineWatchdog.get_total_violations w'
   <= DeadlineWatchdog.get_total_warnings w')%N /\
  DeadlineWatchdog.get_total_checks w' = 3%N.
Proof.
  destruct (watchdog_totals_ordered unit [500; 900; 1200]%Z
              (DeadlineWatchdog.make unit 1000 (8 # 10)) tt) as (H1 & _ & H3).
  - vm_compute. discriminate.
  - vm_compute. discriminate.
  - vm_compute. discriminate.
  - vm_compute. reflexivity.
  - split; [exact H1 | exact H3].
Defined.

Lemma watchdog_extremes_bracket_witness :
  let w' := fst (DeadlineWatchdog.check_many
                   (DeadlineWatchdog.make unit 100000 (8 # 10))
                   [10000; 200000; 75000]%Z tt) in
  (Z.of_N (DeadlineWatchdog.get_min_execution_ns w') <= 75000)%Z /\
  (75000 <= Z.of_N (DeadlineWatchdog.get_max_execution_ns w'))%Z.
Proof.
  apply (watchdog_extremes_bracket unit [10000; 200000; 75000]%Z).
  - cbn. tauto.
  - vm_compute. split; [discriminate | reflexivity].
Defined.

Lemma watchdog_critical_callback_repeats_witness :
  let w := DeadlineWatchdog.set_thresholds
             (DeadlineWatchdog.set_critical_callback
                (DeadlineWatchdog.make nat 1000 (8 # 10)) (fun _ n => S n)) 2 10 in
  snd (DeadlineWatchdog.check_many w [2000; 2000; 2000]%Z 0%nat) = 2%nat.
Proof.
  cbv zeta.
  set (w := DeadlineWatchdog.set_thresholds
              (DeadlineWatchdog.set_critical_callback
                 (DeadlineWatchdog.make nat 1000 (8 # 10)) (fun _ n => S n)) 2 10).
  cbn [DeadlineWatchdog.check_many].
  destruct (watchdog_critical_callback_repeats nat w 2000 0%nat (fun _ n => S n)
              eq_refl eq_refl) as (_ & _ & _ & Hquiet).
  - vm_compute. reflexivity.
  - vm_compute. reflexivity.
  - cbn zeta in Hquiet. specialize (Hquiet ltac:(vm_compute; reflexivity)).
    destruct (DeadlineWatchdog.check w 2000 0%nat) as [[v1 w1] n1] eqn:E1.
    cbn [snd] in Hquiet. subst n1.
    vm_compute in E1. injection E1 as _ <-.
    vm_compute. reflexivity.
Defined.

(** ** The ring buffer *)

Section RingBufferFacts.

Variable T : Type.
Variable default_value : T.

Lemma store_length (l : list T) (v : T) :
  forall i, List.length (RingBuffer.store l i v) = List.length l.
Proof.
  induction l as [|x l IH]; intros [|i]; cbn; try reflexivity. now rewrite IH.
Qed.

Lemma store_firstn_before (l : list T) (v : T) :
  forall i k, (k <= i)%nat ->
              firstn k (RingBuffer.store l i v) = firstn k l.
Proof.
  induction l as [|x l IH]; intros [|i] [|k] H; cbn; try reflexivity; try lia.
  f_equal. apply IH. lia.
Qed.

Lemma store_firstn_at (l : list T) (v : T) :
  forall i, (i < List.length l)%nat ->
            firstn (S i) (RingBuffer.store l i v) = firstn i l ++ [v].
Proof.
  induction l as [|x l IH]; intros [|i] H; cbn in *; try lia; try reflexivity.
  f_equal. apply IH. lia.
Qed.

Lemma store_skipn_after (l : list T) (v : T) :
  forall i k, (i < k)%nat ->
              skipn k (RingBuffer.store l i v) = skipn k l.
Proof.
  induction l as [|x l IH]; intros [|i] [|k] H; cbn; try reflexivity; try lia.
  apply IH. lia.
Qed.

Lemma store_nth_at (l : list T) (v d : T) :
  forall i, (i < List.length l)%nat -> nth i (RingBuffer.store l i v) d = v.
Proof.
  induction l as [|x l IH]; intros [|i] H; cbn in *; try lia; try reflexivity.
  apply IH. lia.
Qed.

Lemma skipn_cons_nth (l : list T) (d : T) :
  forall s, (s < List.length l)%nat -> skipn s l = nth s l d :: skipn (S s) l.
Proof.
  induction l as [|x l IH]; intros [|s] H; cbn in *; try lia; try reflexivity.
  apply IH. lia.
Qed.

Lemma store_whole (l : list T) (v : T) (i : nat) :
  S i = List.length l -> RingBuffer.store l i v = firstn i l ++ [v].
Proof.
  intros H. rewrite <- (firstn_all (RingBuffer.store l i v)).
  rewrite store_length, <- H. apply store_firstn_at. lia.
Qed.

Lemma collect_all (l : list T) :
  forall acc, fold_left (fun result item => result ++ [item]) l acc = acc ++ l.
Proof.
  induction l as [|x l IH]; intros acc; cbn.
  - now rewrite app_nil_r.
  - rewrite IH, <- app_assoc. reflexivity.
Qed.

(** [snapshot] collects what [for_each] visits, in that order. *)
Lemma snapshot_visited (rb : RingBuffer.t T) :
  RingBuffer.snapshot rb = RingBuffer.visited rb.
Proof.
  unfold RingBuffer.snapshot, RingBuffer.for_each.
  destruct (RingBuffer.visited rb); [|reflexivity].
  now rewrite collect_all.
Qed.

(** What a push does to the elements visited, for a buffer that has room for
    at least one element and whose head does not wrap. *)
Lemma push_visited (rb : RingBuffer.t T) (v : T) :
  RingBuffer.buf rb <> [] ->
  (RingBuffer.head rb + 1 < u64_modulus)%N ->
  exists rb' l,
    RingBuffer.push rb v = RingBuffer.Value rb' /\
    RingBuffer.visited rb = RingBuffer.Value l /\
    List.length (RingBuffer.buf rb') = List.length (RingBuffer.buf rb) /\
    RingBuffer.head rb' = (RingBuffer.head rb + 1)%N /\
    List.length l = N.to_nat (RingBuffer.size rb) /\
    RingBuffer.visited rb'
    = RingBuffer.Value ((if RingBuffer.full rb then tl l else l) ++ [v]).
Proof.
  intros Hne Hw. destruct rb as [b h]. cbn [RingBuffer.buf RingBuffer.head] in *.
  set (n := List.length b).
  assert (Hn : (0 < n)%nat) by (subst n; destruct b; [contradiction | cbn; lia]).
  assert (Hm : (N.to_nat (h mod N.of_nat n) < n)%nat).
  { pose proof (N.mod_upper_bound h (N.of_nat n) ltac:(lia)). lia. }
  exists {| RingBuffer.buf := RingBuffer.store b (N.to_nat (h mod N.of_nat n)) v;
            RingBuffer.head := (h + 1)%N |}.
  assert (Hpush : RingBuffer.push {| RingBuffer.buf := b; RingBuffer.head := h |} v
                  = RingBuffer.Value
                      {| RingBuffer.buf :=
                           RingBuffer.store b (N.to_nat (h mod N.of_nat n)) v;
                         RingBuffer.head := (h + 1)%N |}).
  { unfold RingBuffer.push, RingBuffer.buf_size. cbn [RingBuffer.buf RingBuffer.head].
    fold n. destruct (N.eqb_spec (N.of_nat n) 0) as [E | _]; [lia|].
    rewrite (N.mod_small (h + 1)) by exact Hw. reflexivity. }
  unfold RingBuffer.visited, RingBuffer.full, RingBuffer.size, RingBuffer.buf_size.
  cbn [RingBuffer.buf RingBuffer.head].
  rewrite store_length. fold n.
  destruct (N.eqb_spec (N.of_nat n) 0) as [E | _]; [lia|].
  destruct (N.ltb_spec h (N.of_nat n)) as [Hlt | Hge];
    (eexists; split; [exact Hpush|]).
  - (* not yet full *)
    split; [reflexivity|]. split; [reflexivity|]. split; [reflexivity|].
    destruct (N.leb_spec (N.of_nat n) h) as [|_]; [lia|].
    rewrite N.mod_small by exact Hlt.
    split; [rewrite length_firstn; fold n; lia|].
    destruct (N.ltb_spec (h + 1) (N.of_nat n)) as [Hlt' | Hge'].
    + replace (N.to_nat (h + 1)) with (S (N.to_nat h)) by lia.
      rewrite store_firstn_at by (fold n; lia). reflexivity.
    + assert (E : S (N.to_nat h) = n) by lia.
      assert (E' : ((h + 1) mod N.of_nat n = 0)%N).
      { replace (h + 1)%N with (N.of_nat n) by lia. apply N.Div0.mod_same. }
      rewrite E'. cbn [N.to_nat skipn firstn]. rewrite app_nil_r.
      rewrite (store_whole b v (N.to_nat h) E). reflexivity.
  - (* full: the oldest element goes *)
    split; [reflexivity|]. split; [reflexivity|]. split; [reflexivity|].
    destruct (N.leb_spec (N.of_nat n) h) as [_|]; [|lia].
    destruct (N.ltb_spec (h + 1) (N.of_nat n)) as [|_]; [lia|].
    set (s := N.to_nat (h mod N.of_nat n)) in *.
    split.
    { rewrite length_app, length_skipn, length_firstn. fold n. lia. }
    assert (Hs1 : N.to_nat ((h + 1) mod N.of_nat n)
                  = if (S s =? n)%nat then 0%nat else S s).
    { pose proof (N.div_mod h (N.of_nat n) ltac:(lia)) as Hd.
      destruct (Nat.eqb_spec (S s) n) as [E | E].
      - assert (E2 : (h + 1 = (h / N.of_nat n + 1) * N.of_nat n)%N) by (subst s; lia).
        rewrite E2, N.Div0.mod_mul. reflexivity.
      - assert (E2 : (h + 1 = (h mod N.of_nat n + 1) + (h / N.of_nat n) * N.of_nat n)%N)
          by lia.
        rewrite E2, N.Div0.mod_add. rewrite N.mod_small by (subst s; lia).
        subst s. lia. }
    rewrite Hs1.
    pose proof (skipn_cons_nth b default_value s Hm) as Hsk.
    rewrite Hsk. cbn [tl app].
    destruct (Nat.eqb_spec (S s) n) as [E | E].
    + rewrite (skipn_all2 b) by (fold n; lia).
      cbn [skipn firstn app]. rewrite app_nil_r.
      apply f_equal. apply store_whole. exact E.
    + rewrite store_skipn_after by lia.
      rewrite store_firstn_at by (fold n; lia).
      now rewrite app_assoc.
Qed.

(** X14: a push into a buffer with room for at least one element (the head
    not wrapping) appends the value to what [snapshot] returns, dropping the
    oldest element when the buffer was full; the capacity is unchanged and
    [latest] returns the value pushed. *)
Theorem ring_buffer_push_is_fifo (rb : RingBuffer.t T) (v : T) :
  RingBuffer.buf rb <> [] ->
  (RingBuffer.head rb + 1 < u64_modulus)%N ->
  exists rb' l,
    RingBuffer.push rb v = RingBuffer.Value rb' /\
    RingBuffer.snapshot rb = RingBuffer.Value l /\
    RingBuffer.snapshot rb'
    = RingBuffer.Value ((if RingBuffer.full rb then tl l else l) ++ [v]) /\
    RingBuffer.capacity rb' = RingBuffer.capacity rb /\
    RingBuffer.latest default_value rb' = RingBuffer.Value v.
Proof.
  intros Hne Hw.
  destruct (push_visited rb v Hne Hw) as (rb' & l & H1 & H2 & H3 & H4 & _ & H6).
  exists rb', l. rewrite !snapshot_visited.
  split; [exact H1|]. split; [exact H2|]. split; [exact H6|].
  split; [unfold RingBuffer.capacity, RingBuffer.buf_size; now rewrite H3|].
  unfold RingBuffer.push in H1.
  destruct (N.eqb_spec (RingBuffer.buf_size rb) 0) as [|Hz]; [discriminate|].
  injection H1 as <-.
  unfold RingBuffer.latest, RingBuffer.buf_size in *.
  cbn [RingBuffer.buf RingBuffer.head].
  rewrite store_length, (N.mod_small (RingBuffer.head rb + 1)) by exact Hw.
  destruct (N.eqb_spec (RingBuffer.head rb + 1) 0) as [|_]; [lia|].
  destruct (N.eqb_spec (N.of_nat (List.length (RingBuffer.buf rb))) 0) as [|_];
    [contradiction|].
  replace (RingBuffer.head rb + 1 - 1)%N with (RingBuffer.head rb) by lia.
  f_equal. apply store_nth_at.
  pose proof (N.mod_upper_bound (RingBuffer.head rb)
                (N.of_nat (List.length (RingBuffer.buf rb))) Hz).
  lia.
Qed.

Lemma last_n_short (l : list T) (n : nat) :
  (List.length l <= n)%nat -> last_n n l = l.
Proof.
  intros H. unfold last_n. replace (List.length l - n)%nat with 0%nat by lia.
  reflexivity.
Qed.

Lemma push_many_visited (vs : list T) :
  forall (rb : RingBuffer.t T) (l : list T),
    RingBuffer.buf rb <> [] ->
    (RingBuffer.head rb + N.of_nat (List.length vs) < u64_modulus)%N ->
    RingBuffer.visited rb = RingBuffer.Value l ->
    List.length l = N.to_nat (RingBuffer.size rb) ->
    exists rb',
      RingBuffer.push_many rb vs = RingBuffer.Value rb' /\
      List.length (RingBuffer.buf rb') = List.length (RingBuffer.buf rb) /\
      RingBuffer.head rb' = (RingBuffer.head rb + N.of_nat (List.length vs))%N /\
      RingBuffer.visited rb'
      = RingBuffer.Value (last_n (List.length (RingBuffer.buf rb)) (l ++ vs)).
Proof.
  induction vs as [|v rest IH]; intros rb l Hne Hw Hv Hl.
  - exists rb. cbn. rewrite app_nil_r, N.add_0_r.
    repeat split; try reflexivity.
    rewrite last_n_short; [exact Hv|].
    unfold RingBuffer.size, RingBuffer.buf_size in Hl. lia.
  - cbn [List.length] in Hw.
    destruct (push_visited rb v Hne ltac:(lia))
      as (rb1 & l0 & H1 & H2 & H3 & H4 & H5 & H6).
    rewrite Hv in H2. injection H2 as <-.
    cbn [RingBuffer.push_many]. rewrite H1.
    assert (Hne1 : RingBuffer.buf rb1 <> []).
    { intros E. rewrite E in H3. destruct (RingBuffer.buf rb); [contradiction|].
      cbn in H3. lia. }
    assert (Hfull : RingBuffer.full rb = true -> exists x t, l = x :: t /\
                      List.length l = List.length (RingBuffer.buf rb)).
    { unfold RingBuffer.full, RingBuffer.size, RingBuffer.buf_size in Hl |- *.
      intros E. apply N.leb_le in E.
      assert (Hlen : List.length l = List.length (RingBuffer.buf rb)) by lia.
      destruct l as [|x t].
      - destruct (RingBuffer.buf rb); [contradiction | cbn in Hlen; lia].
      - eauto. }
    destruct (IH rb1 ((if RingBuffer.full rb then tl l else l) ++ [v]) Hne1)
      as (rb' & I1 & I2 & I3 & I4).
    + rewrite H4. lia.
    + exact H6.
    + unfold RingBuffer.size, RingBuffer.buf_size.
      rewrite H3, H4, length_app. cbn [List.length].
      destruct (RingBuffer.full rb) eqn:Ef.
      * destruct (Hfull eq_refl) as (x & t & -> & Hlen).
        unfold RingBuffer.full, RingBuffer.buf_size in Ef. apply N.leb_le in Ef.
        cbn [tl List.length] in *. lia.
      * unfold RingBuffer.full, RingBuffer.buf_size in Ef. apply N.leb_gt in Ef.
        unfold RingBuffer.size, RingBuffer.buf_size in Hl. lia.
    + exists rb'. split; [exact I1|]. split; [congruence|].
      split; [rewrite I3, H4; cbn [List.length]; lia|].
      rewrite I4, H3. f_equal.
      destruct (RingBuffer.full rb) eqn:Ef.
      * destruct (Hfull eq_refl) as (x & t & -> & Hlen).
        unfold last_n. cbn [tl]. rewrite <- app_assoc. cbn [app].
        rewrite !length_app. cbn [List.length app] in *.
        rewrite length_app. cbn [List.length].
        replace (S (List.length t + S (List.length rest))
                 - List.length (RingBuffer.buf rb))%nat
          with (S (List.length t + S (List.length rest)
                   - List.length (RingBuffer.buf rb)))%nat by lia.
        reflexivity.
      * rewrite <- app_assoc. reflexivity.
Qed.

(** X15: after any number of pushes into a new buffer of capacity [n > 0]
    (fewer than 2^64 of them), [snapshot] returns the last [n] values
    pushed, oldest first, or all of them when they are fewer than [n]; what
    was pushed earlier is gone. *)
Theorem ring_buffer_keeps_the_latest (n : nat) (vs : list T) :
  (0 < n)%nat ->
  (N.of_nat (List.length vs) < u64_modulus)%N ->
  exists rb',
    RingBuffer.push_many (RingBuffer.make default_value n) vs = RingBuffer.Value rb' /\
    RingBuffer.snapshot rb' = RingBuffer.Value (last_n n vs) /\
    RingBuffer.size rb' = N.min (N.of_nat (List.length vs)) (N.of_nat n).
Proof.
  intros Hn Hw.
  assert (Hlen : List.length (RingBuffer.buf (RingBuffer.make default_value n)) = n)
    by (cbn; apply repeat_length).
  destruct (push_many_visited vs (RingBuffer.make default_value n) [])
    as (rb' & H1 & H2 & H3 & H4).
  - intros E. rewrite E in Hlen. cbn in Hlen. lia.
  - cbn [RingBuffer.make RingBuffer.head]. lia.
  - unfold RingBuffer.visited, RingBuffer.buf_size. rewrite Hlen.
    cbn [RingBuffer.make RingBuffer.head RingBuffer.buf].
    destruct (N.ltb_spec 0 (N.of_nat n)); [reflexivity | lia].
  - unfold RingBuffer.size. cbn [RingBuffer.make RingBuffer.head List.length]. lia.
  - exists rb'. split; [exact H1|]. rewrite snapshot_visited, H4, Hlen.
    split; [reflexivity|].
    unfold RingBuffer.size, RingBuffer.buf_size. rewrite H2, H3, Hlen.
    cbn [RingBuffer.make RingBuffer.head]. lia.
Qed.

(** X16: [size] is the number of elements that [for_each] visits and
    [snapshot] returns; an empty buffer has none, and after [clear] the
    buffer is empty whatever it held. *)
Theorem ring_buffer_size_counts_elements (rb : RingBuffer.t T) :
  RingBuffer.buf rb <> [] ->
  exists l,
    RingBuffer.snapshot rb = RingBuffer.Value l /\
    N.of_nat (List.length l) = RingBuffer.size rb /\
    (RingBuffer.empty rb = true -> l = []) /\
    RingBuffer.snapshot (RingBuffer.clear rb) = RingBuffer.Value [] /\
    RingBuffer.size (RingBuffer.clear rb) = 0%N.
Proof.
  intros Hne. rewrite !snapshot_visited.
  unfold RingBuffer.visited, RingBuffer.size, RingBuffer.empty, RingBuffer.clear,
    RingBuffer.buf_size.
  cbn [RingBuffer.buf RingBuffer.head].
  assert (Hn : (0 < List.length (RingBuffer.buf rb))%nat)
    by (destruct (RingBuffer.buf rb); [contradiction | cbn; lia]).
  destruct (N.ltb_spec 0 (N.of_nat (List.length (RingBuffer.buf rb)))) as [_|]; [|lia].
  destruct (N.eqb_spec (N.of_nat (List.length (RingBuffer.buf rb))) 0) as [|_]; [lia|].
  destruct (N.ltb_spec (RingBuffer.head rb) (N.of_nat (List.length (RingBuffer.buf rb))))
    as [Hlt | Hge]; eexists; (split; [reflexivity|]).
  - rewrite length_firstn. split; [lia|].
    split; [|split; [reflexivity | lia]].
    intros E. apply N.eqb_eq in E. rewrite E. reflexivity.
  - rewrite length_app, length_skipn, length_firstn.
    pose proof (N.mod_upper_bound (RingBuffer.head rb)
                  (N.of_nat (List.length (RingBuffer.buf rb))) ltac:(lia)).
    split; [lia|]. split; [|split; [reflexivity | lia]].
    intros E. apply N.eqb_eq in E. lia.
Qed.

(** X17: a buffer of capacity 0 is unusable: [push], [snapshot] (through
    [for_each]) and [latest] each take a remainder by the size or index the
    empty vector, also on the buffer just constructed. *)
Theorem ring_buffer_zero_capacity_undefined (rb : RingBuffer.t T) (v : T) :
  RingBuffer.buf rb = [] ->
  RingBuffer.push rb v = RingBuffer.Undefined /\
  RingBuffer.snapshot rb = RingBuffer.Undefined /\
  RingBuffer.latest default_value rb = RingBuffer.Undefined.
Proof.
  intros H. rewrite snapshot_visited.
  unfold RingBuffer.push, RingBuffer.visited, RingBuffer.latest, RingBuffer.buf_size.
  rewrite H. cbn [List.length N.of_nat N.eqb].
  split; [reflexivity|]. split.
  - destruct (N.ltb_spec (RingBuffer.head rb) 0); [lia | reflexivity].
  - destruct (RingBuffer.head rb =? 0)%N; reflexivity.
Qed.

End RingBufferFacts.

Lemma ring_buffer_push_is_fifo_witness :
  exists rb',
    RingBuffer.push {| RingBuffer.buf := [1; 2; 3]%Z; RingBuffer.head := 3 |} 4%Z
    = RingBuffer.Value rb' /\
    RingBuffer.snapshot rb' = RingBuffer.Value [2; 3; 4]%Z /\
    RingBuffer.latest 0%Z rb' = RingBuffer.Value 4%Z.
Proof.
  destruct (ring_buffer_push_is_fifo Z 0%Z
              {| RingBuffer.buf := [1; 2; 3]%Z; RingBuffer.head := 3 |} 4%Z)
    as (rb' & l & H1 & H2 & H3 & _ & H5).
  - discriminate.
  - vm_compute. reflexivity.
  - exists rb'. split; [exact H1|]. split; [|exact H5].
    vm_compute in H2. injection H2 as <-. exact H3.
Defined.

Lemma ring_buffer_keeps_the_latest_witness :
  exists rb',
    RingBuffer.push_many (RingBuffer.make 0%Z 3) [1; 2; 3; 4; 5]%Z = RingBuffer.Value rb' /\
    RingBuffer.snapshot rb' = RingBuffer.Value [3; 4; 5]%Z.
Proof.
  destruct (ring_buffer_keeps_the_latest Z 0%Z 3 [1; 2; 3; 4; 5]%Z)
    as (rb' & H1 & H2 & _).
  - lia.
  - vm_compute. reflexivity.
  - exists rb'. split; [exact H1 | exact H2].
Defined.

Lemma ring_buffer_size_counts_elements_witness :
  exists l,
    RingBuffer.snapshot {| RingBuffer.buf := [1; 2; 3]%Z; RingBuffer.head := 2 |}
    = RingBuffer.Value l /\
    N.of_nat (List.length l) = 2%N.
Proof.
  destruct (ring_buffer_size_counts_elements Z
              {| RingBuffer.buf := [1; 2; 3]%Z; RingBuffer.head := 2 |})
    as (l & H1 & H2 & _).
  - discriminate.
  - exists l. split; [exact H1 | exact H2].
Defined.

Lemma ring_buffer_zero_capacity_undefined_witness :
  RingBuffer.push (RingBuffer.make 0%Z 0) 1%Z = RingBuffer.Undefined /\
  RingBuffer.snapshot (RingBuffer.make 0%Z 0) = RingBuffer.Undefined.
Proof.
  destruct (ring_buffer_zero_capacity_undefined Z 0%Z (RingBuffer.make 0%Z 0) 1%Z eq_refl)
    as (H1 & H2 & _).
  split; [exact H1 | exact H2].
Defined.

(** ** Beam loss monitors, continued *)



Section MonitorFacts.

Variable E : Type.

(** A measurement that trips the monitor, and one that does not. *)
Lemma update_measurement_trips (b : BeamLossMonitor.t E) (c p : Q) (e : E) :
  BeamLossMonitor.abort_active_ b = false ->
  BeamLossMonitor.threshold_abort_ b < BeamLossMonitor.simulated_loss c p ->
  BeamLossMonitor.update_measurement b c p e
  = (false,
     {| BeamLossMonitor.blm_id_ := BeamLossMonitor.blm_id_ b;
        BeamLossMonitor.loss_rate_ := BeamLossMonitor.simulated_loss c p;
        BeamLossMonitor.threshold_warning_ := BeamLossMonitor.threshold_warning_ b;
        BeamLossMonitor.threshold_abort_ := BeamLossMonitor.threshold_abort_ b;
        BeamLossMonitor.warning_active_ := BeamLossMonitor.warning_active_ b;
        BeamLossMonitor.abort_active_ := true;
        BeamLossMonitor.total_measurements_ :=
          u64_incr (BeamLossMonitor.total_measurements_ b);
        BeamLossMonitor.warning_count_ := BeamLossMonitor.warning_count_ b;
        BeamLossMonitor.abort_count_ := u64_incr (BeamLossMonitor.abort_count_ b);
        BeamLossMonitor.warning_callback_ := BeamLossMonitor.warning_callback_ b;
        BeamLossMonitor.abort_callback_ := BeamLossMonitor.abort_callback_ b |},
     BeamLossMonitor.invoke (BeamLossMonitor.abort_callback_ b)
       (BeamLossMonitor.blm_id_ b) (BeamLossMonitor.simulated_loss c p) e).
Proof.
  intros Ha H. unfold BeamLossMonitor.update_measurement, fgt.
  destruct (flt_cases (BeamLossMonitor.threshold_abort_ b)
              (BeamLossMonitor.simulated_loss c p)) as [[E1 _] | [_ C]]; [|lra].
  rewrite E1, Ha. reflexivity.
Qed.

Lemma update_measurement_passes (b : BeamLossMonitor.t E) (c p : Q) (e : E) :
  BeamLossMonitor.abort_active_ b = true \/
  BeamLossMonitor.simulated_loss c p <= BeamLossMonitor.threshold_abort_ b ->
  let loss := BeamLossMonitor.simulated_loss c p in
  let above := fgt loss (BeamLossMonitor.threshold_warning_ b) in
  let rising := above && negb (BeamLossMonitor.warning_active_ b) in
  BeamLossMonitor.update_measurement b c p e
  = (true,
     {| BeamLossMonitor.blm_id_ := BeamLossMonitor.blm_id_ b;
        BeamLossMonitor.loss_rate_ := loss;
        BeamLossMonitor.threshold_warning_ := BeamLossMonitor.threshold_warning_ b;
        BeamLossMonitor.threshold_abort_ := BeamLossMonitor.threshold_abort_ b;
        BeamLossMonitor.warning_active_ := above;
        BeamLossMonitor.abort_active_ :=
          if negb (fgt loss (BeamLossMonitor.threshold_abort_ b)) then false
          else BeamLossMonitor.abort_active_ b;
        BeamLossMonitor.total_measurements_ :=
          u64_incr (BeamLossMonitor.total_measurements_ b);
        BeamLossMonitor.warning_count_ :=
          if rising then u64_incr (BeamLossMonitor.warning_count_ b)
          else BeamLossMonitor.warning_count_ b;
        BeamLossMonitor.abort_count_ := BeamLossMonitor.abort_count_ b;
        BeamLossMonitor.warning_callback_ := BeamLossMonitor.warning_callback_ b;
        BeamLossMonitor.abort_callback_ := BeamLossMonitor.abort_callback_ b |},
     if rising
     then BeamLossMonitor.invoke (BeamLossMonitor.warning_callback_ b)
            (BeamLossMonitor.blm_id_ b) loss e
     else e).
Proof.
  intros H. cbv zeta. unfold BeamLossMonitor.update_measurement.
  assert (Hc : fgt (BeamLossMonitor.simulated_loss c p)
                   (BeamLossMonitor.threshold_abort_ b)
               && negb (BeamLossMonitor.abort_active_ b) = false).
  { destruct H as [H | H].
    - rewrite H. apply andb_false_r.
    - unfold fgt. destruct (flt_cases (BeamLossMonitor.threshold_abort_ b)
                              (BeamLossMonitor.simulated_loss c p)) as [[_ C] | [E1 _]];
        [lra | now rewrite E1]. }
  rewrite Hc.
  destruct (fgt (BeamLossMonitor.simulated_loss c p)
                (BeamLossMonitor.threshold_warning_ b));
    destruct (BeamLossMonitor.warning_active_ b); reflexivity.
Qed.

(** X19: a monitor on its own reports an excess once.  The measurement on
    which the loss rate first exceeds the abort threshold returns false and
    counts an abort; the next measurement, with the loss rate still above
    the threshold, returns true, counts no abort and calls no abort
    callback. *)
Theorem monitor_reports_abort_once (b : BeamLossMonitor.t E)
        (c1 p1 c2 p2 : Q) (e : E) :
  BeamLossMonitor.abort_active_ b = false ->
  BeamLossMonitor.threshold_abort_ b < BeamLossMonitor.simulated_loss c1 p1 ->
  BeamLossMonitor.threshold_abort_ b < BeamLossMonitor.simulated_loss c2 p2 ->
  let r1 := BeamLossMonitor.update_measurement b c1 p1 e in
  let r2 := BeamLossMonitor.update_measurement (snd (fst r1)) c2 p2 (snd r1) in
  fst (fst r1) = false /\
  BeamLossMonitor.abort_count_ (snd (fst r1)) = u64_incr (BeamLossMonitor.abort_count_ b) /\
  fst (fst r2) = true /\
  BeamLossMonitor.is_abort_active (snd (fst r2)) = true /\
  BeamLossMonitor.abort_count_ (snd (fst r2))
  = BeamLossMonitor.abort_count_ (snd (fst r1)) /\
  (BeamLossMonitor.warning_callback_ b = None -> snd r2 = snd r1).
Proof.
  intros Ha H1 H2. cbv zeta.
  rewrite (update_measurement_trips b c1 p1 e Ha H1). cbn [fst snd].
  rewrite update_measurement_passes by (left; reflexivity).
  cbn [fst snd BeamLossMonitor.abort_count_ BeamLossMonitor.is_abort_active
       BeamLossMonitor.abort_active_ BeamLossMonitor.threshold_abort_
       BeamLossMonitor.warning_callback_].
  assert (Hf : fgt (BeamLossMonitor.simulated_loss c2 p2)
                   (BeamLossMonitor.threshold_abort_ b) = true).
  { unfold fgt. destruct (flt_cases (BeamLossMonitor.threshold_abort_ b)
                            (BeamLossMonitor.simulated_loss c2 p2)) as [[E2 _] | [_ C]];
      [exact E2 | lra]. }
  unfold BeamLossMonitor.is_abort_active. cbn [BeamLossMonitor.abort_active_].
  rewrite Hf. cbn [negb].
  split; [reflexivity|]. split; [reflexivity|]. split; [reflexivity|].
  split; [reflexivity|]. split; [reflexivity|].
  intros Hw. rewrite Hw. cbn [BeamLossMonitor.invoke].
  match goal with |- context [if ?c then _ else _] => destruct c end; reflexivity.
Qed.

(** X20: a warning is raised on its rising edge only.  A measurement that
    does not trip the monitor (the loss rate is not above the abort
    threshold, or the abort flag is already set) returns true, counts a
    warning exactly when the loss rate is above the warning threshold with
    the warning flag clear, and leaves the warning flag telling whether the
    loss rate is above the warning threshold.  The same measurement made
    again returns true and changes neither the warning count, nor the two
    flags, nor the outside world. *)
Theorem monitor_warning_on_rising_edge (b : BeamLossMonitor.t E) (c p : Q) (e : E) :
  BeamLossMonitor.abort_active_ b = true \/
  BeamLossMonitor.simulated_loss c p <= BeamLossMonitor.threshold_abort_ b ->
  let loss := BeamLossMonitor.simulated_loss c p in
  let r1 := BeamLossMonitor.update_measurement b c p e in
  let r2 := BeamLossMonitor.update_measurement (snd (fst r1)) c p (snd r1) in
  fst (fst r1) = true /\
  fst (fst r2) = true /\
  BeamLossMonitor.warning_count_ (snd (fst r1))
  = (if fgt loss (BeamLossMonitor.threshold_warning_ b)
        && negb (BeamLossMonitor.warning_active_ b)
     then u64_incr (BeamLossMonitor.warning_count_ b)
     else BeamLossMonitor.warning_count_ b) /\
  BeamLossMonitor.is_warning_active (snd (fst r1))
  = fgt loss (BeamLossMonitor.threshold_warning_ b) /\
  BeamLossMonitor.is_abort_active (snd (fst r1))
  = fgt loss (BeamLossMonitor.threshold_abort_ b) /\
  BeamLossMonitor.abort_count_ (snd (fst r1)) = BeamLossMonitor.abort_count_ b /\
  BeamLossMonitor.warning_count_ (snd (fst r2))
  = BeamLossMonitor.warning_count_ (snd (fst r1)) /\
  BeamLossMonitor.is_warning_active (snd (fst r2))
  = BeamLossMonitor.is_warning_active (snd (fst r1)) /\
  BeamLossMonitor.is_abort_active (snd (fst r2))
  = BeamLossMonitor.is_abort_active (snd (fst r1)) /\
  snd r2 = snd r1.
Proof.
  intros H. cbv zeta.
  assert (Ha : BeamLossMonitor.abort_active_ b = true /\
               fgt (BeamLossMonitor.simulated_loss c p)
                   (BeamLossMonitor.threshold_abort_ b) = true \/
               BeamLossMonitor.simulated_loss c p <= BeamLossMonitor.threshold_abort_ b /\
               fgt (BeamLossMonitor.simulated_loss c p)
                   (BeamLossMonitor.threshold_abort_ b) = false).
  { unfold fgt. destruct (flt_cases (BeamLossMonitor.threshold_abort_ b)
                            (BeamLossMonitor.simulated_loss c p)) as [[E1 C] | [E1 C]].
    - left. split; [|exact E1]. destruct H as [H | H]; [exact H | exfalso; lra].
    - right. split; [exact C | exact E1]. }
  rewrite (update_measurement_passes b c p e H). cbn [fst snd].
  rewrite update_measurement_passes.
  2: { cbn [BeamLossMonitor.threshold_abort_ BeamLossMonitor.abort_active_].
       destruct Ha as [[A1 A2] | [A1 A2]]; [left | right; exact A1].
       rewrite A2, A1. reflexivity. }
  unfold BeamLossMonitor.is_warning_active, BeamLossMonitor.is_abort_active.
  cbn [fst snd BeamLossMonitor.warning_active_ BeamLossMonitor.abort_active_
       BeamLossMonitor.warning_count_ BeamLossMonitor.abort_count_
       BeamLossMonitor.threshold_warning_ BeamLossMonitor.threshold_abort_].
  destruct Ha as [[A1 A2] | [A1 A2]]; rewrite A2; try rewrite A1; cbn [negb];
    destruct (fgt (BeamLossMonitor.simulated_loss c p)
                  (BeamLossMonitor.threshold_warning_ b));
    cbn [andb negb]; repeat split.
Qed.

End MonitorFacts.

Lemma monitor_reports_abort_once_witness :
  let b := BeamLossMonitor.make unit "BLM_01" in
  let r1 := BeamLossMonitor.update_measurement b (2000000 # 1) 0 tt in
  let r2 := BeamLossMonitor.update_measurement (snd (fst r1)) (2000000 # 1) 0 (snd r1) in
  fst (fst r1) = false /\ fst (fst r2) = true.
Proof.
  destruct (monitor_reports_abort_once unit (BeamLossMonitor.make unit "BLM_01")
              (2000000 # 1) 0 (2000000 # 1) 0 tt)
    as (H1 & _ & H3 & _); try reflexivity.
  split; [exact H1 | exact H3].
Defined.

Lemma monitor_warning_on_rising_edge_witness :
  let b := BeamLossMonitor.make unit "BLM_01" in
  let r1 := BeamLossMonitor.update_measurement b (200000 # 1) 0 tt in
  let r2 := BeamLossMonitor.update_measurement (snd (fst r1)) (200000 # 1) 0 (snd r1) in
  BeamLossMonitor.warning_count_ (snd (fst r1)) = 1%N /\
  BeamLossMonitor.warning_count_ (snd (fst r2)) = 1%N.
Proof.
  destruct (monitor_warning_on_rising_edge unit (BeamLossMonitor.make unit "BLM_01")
              (200000 # 1) 0 tt) as (_ & _ & H1 & _ & _ & _ & H2 & _).
  - right. vm_compute. discriminate.
  - cbv zeta in *. split; [|rewrite H2]; rewrite H1; reflexivity.
Defined.

(** ** The machine protection system, continued *)

Section ProtectionFacts.

Variable W : Type.
Variable env : Env.

Local Notation flags := (MachineProtectionSystem.flags W).
Local Notation captured := (MachineProtectionSystem.captured W).

(** A monitor that the next measurement does not trip. *)
Local Notation passes b current position :=
  (BeamLossMonitor.abort_active_ b = true \/
   BeamLossMonitor.simulated_loss current position
   <= BeamLossMonitor.threshold_abort_ b).

Local Notation trips b current position :=
  (BeamLossMonitor.abort_active_ b = false /\
   BeamLossMonitor.threshold_abort_ b
   < BeamLossMonitor.simulated_loss current position).

Lemma passes_or_trips (b : BeamLossMonitor.t captured) (current position : Q) :
  passes b current position \/ trips b current position.
Proof.
  destruct (BeamLossMonitor.abort_active_ b); [left; left; reflexivity|].
  destruct (Qlt_le_dec (BeamLossMonitor.threshold_abort_ b)
              (BeamLossMonitor.simulated_loss current position)) as [H | H].
  - right. split; [reflexivity | exact H].
  - left. right. exact H.
Qed.

(** The loop over the monitors: a verdict of true leaves the flags as they
    were, a verdict of false leaves the system latched. *)
Lemma check_blms_verdict (l : list (BeamLossMonitor.t captured)) (current position : Q) :
  Forall (MachineProtectionSystem.standard_blm env) l ->
  forall (f : flags) (w : W),
    let r := MachineProtectionSystem.check_blms l current position (f, w) in
    (fst (fst r) = true -> fst (snd r) = f /\ Forall (fun b => passes b current position) l) /\
    (fst (fst r) = false ->
     MachineProtectionSystem.abort_triggered_ (fst (snd r)) = true /\
     MachineProtectionSystem.beam_permit_ (fst (snd r)) = false /\
     Exists (fun b => trips b current position) l).
Proof.
  induction l as [|b rest IH]; intros Hl f w; cbn zeta.
  - cbn. split; [intros _; split; [reflexivity | constructor] | discriminate].
  - inversion Hl as [|? ? [Hwarn Habort] Hrest]; subst.
    cbn [MachineProtectionSystem.check_blms].
    destruct (passes_or_trips b current position) as [Hp | [Ha Ht]].
    + rewrite (update_measurement_passes captured b current position (f, w) Hp).
      cbn [negb].
      match goal with
      | |- context [MachineProtectionSystem.check_blms rest current position ?e] =>
          assert (He : fst e = f);
          [| destruct e as [f1 w1] eqn:Ee; cbn [fst] in He; subst f1 ]
      end.
      { match goal with |- context [if ?c then _ else _] => destruct c end;
          [|reflexivity].
        rewrite Hwarn. cbn [BeamLossMonitor.invoke].
        unfold MachineProtectionSystem.handle_blm_warning.
        destruct (MachineProtectionSystem.alarm_callback_ f); reflexivity. }
      specialize (IH Hrest f w1). cbn zeta in IH.
      destruct (MachineProtectionSystem.check_blms rest current position (f, w1))
        as [[safe rest'] [f2 w2]].
      cbn [fst snd] in *. destruct IH as [I1 I2]. split.
      * intros Hs. destruct (I1 Hs) as [-> Hf]. split; [reflexivity|].
        constructor; assumption.
      * intros Hs. destruct (I2 Hs) as (J1 & J2 & J3).
        split; [exact J1|]. split; [exact J2|]. now apply Exists_cons_tl.
    + rewrite (update_measurement_trips captured b current position (f, w) Ha Ht).
      cbn [negb fst snd]. split; [discriminate|]. intros _.
      match goal with
      | |- context [MachineProtectionSystem.trigger_beam_abort ?r ?s ?e] =>
          pose proof (trigger_beam_abort_flags W r s (fst e) (snd e)) as H;
          destruct e as [f1 w1]
      end.
      cbn zeta in H. cbn [fst snd] in H. destruct H as (H1 & H2 & _).
      split; [exact H1|]. split; [exact H2|].
      apply Exists_cons_hd. split; assumption.
Qed.

(** A check that trips no monitor calls nothing but the alarm callback:
    whatever the alarm callback keeps of the world is kept. *)
Lemma check_blms_quiet (P : W -> Prop)
      (l : list (BeamLossMonitor.t captured)) (current position : Q) :
  Forall (MachineProtectionSystem.standard_blm env) l ->
  Forall (fun b => passes b current position) l ->
  forall (f : flags) (w : W),
    (forall cb message w0,
        MachineProtectionSystem.alarm_callback_ f = Some cb -> P w0 -> P (cb message w0)) ->
    P w ->
    let r := MachineProtectionSystem.check_blms l current position (f, w) in
    fst (fst r) = true /\ fst (snd r) = f /\ P (snd (snd r)).
Proof.
  induction l as [|b rest IH]; intros Hl Hp f w Hcb Hw; cbn zeta.
  - cbn. repeat split. exact Hw.
  - inversion Hl as [|? ? [Hwarn Habort] Hrest]; subst.
    inversion Hp as [|? ? Hb Hprest]; subst.
    cbn [MachineProtectionSystem.check_blms].
    rewrite (update_measurement_passes captured b current position (f, w) Hb).
    cbn [negb].
    match goal with
    | |- context [MachineProtectionSystem.check_blms rest current position ?e] =>
        assert (He : fst e = f /\ P (snd e));
        [| destruct e as [f1 w1]; cbn [fst snd] in He; destruct He as [-> Hw1] ]
    end.
    { match goal with |- context [if ?c then _ else _] => destruct c end;
        [|split; [reflexivity | exact Hw]].
      rewrite Hwarn. cbn [BeamLossMonitor.invoke].
      unfold MachineProtectionSystem.handle_blm_warning.
      destruct (MachineProtectionSystem.alarm_callback_ f) as [cb|] eqn:Ecb;
        cbn [fst snd]; split; try reflexivity; [|exact Hw].
      apply (Hcb cb _ w eq_refl Hw). }
    specialize (IH Hrest Hprest f w1 Hcb Hw1). cbn zeta in IH.
    destruct (MachineProtectionSystem.check_blms rest current position (f, w1))
      as [[safe rest'] [f2 w2]].
    cbn [fst snd] in *. exact IH.
Qed.

(** X21: the verdict of [check_safety] is the permit: on a system with the
    monitors that [add_blm] builds, [check_safety] returns exactly what
    [is_beam_permitted] answers after the call. *)
Theorem check_safety_verdict_is_permit (m : MachineProtectionSystem.t W)
        (current position : Q) (w : W) :
  MachineProtectionSystem.standard_blms env m ->
  let r := MachineProtectionSystem.check_safety m current position w in
  fst (fst r) = MachineProtectionSystem.is_beam_permitted (snd (fst r)).
Proof.
  intros Hs. cbv zeta.
  unfold MachineProtectionSystem.check_safety, MachineProtectionSystem.is_beam_permitted.
  destruct (MachineProtectionSystem.beam_permit_ (MachineProtectionSystem.state m)) eqn:Ep;
    cbn [negb].
  2: { cbn [fst snd]. now rewrite Ep. }
  destruct (MachineProtectionSystem.abort_triggered_ (MachineProtectionSystem.state m))
    eqn:Et.
  { cbn [fst snd]. now rewrite Ep, Et. }
  pose proof (check_blms_verdict (MachineProtectionSystem.blms_ m) current position Hs
                (MachineProtectionSystem.state m) w) as H.
  cbn zeta in H.
  destruct (MachineProtectionSystem.check_blms (MachineProtectionSystem.blms_ m)
              current position (MachineProtectionSystem.state m, w))
    as [[safe blms'] [f' w']].
  cbn [fst snd MachineProtectionSystem.state] in *. destruct H as [H1 H2].
  destruct safe.
  - destruct (H1 eq_refl) as [-> _]. now rewrite Ep, Et.
  - destruct (H2 eq_refl) as (-> & -> & _). reflexivity.
Qed.

(** X22: a system that permits the beam and whose monitors have their abort
    flags clear (as constructed, or after [reset_mps]) answers true exactly
    when the derived loss rate exceeds the abort threshold of none of its
    monitors; it then keeps its flags and its abort count. *)
Theorem check_safety_permits_iff_below_thresholds (m : MachineProtectionSystem.t W)
        (current position : Q) (w : W) :
  MachineProtectionSystem.standard_blms env m ->
  MachineProtectionSystem.is_beam_permitted m = true ->
  Forall (fun b => BeamLossMonitor.abort_active_ b = false)
         (MachineProtectionSystem.blms_ m) ->
  let r := MachineProtectionSystem.check_safety m current position w in
  (fst (fst r) = true <->
   Forall (fun b => BeamLossMonitor.simulated_loss current position
                    <= BeamLossMonitor.threshold_abort_ b)
          (MachineProtectionSystem.blms_ m)) /\
  (fst (fst r) = true ->
   MachineProtectionSystem.state (snd (fst r)) = MachineProtectionSystem.state m).
Proof.
  intros Hs Hp Ha. cbv zeta.
  unfold MachineProtectionSystem.is_beam_permitted in Hp.
  apply andb_true_iff in Hp. destruct Hp as [Hp Ht]. apply negb_true_iff in Ht.
  unfold MachineProtectionSystem.check_safety. rewrite Hp, Ht. cbn [negb].
  pose proof (check_blms_verdict (MachineProtectionSystem.blms_ m) current position Hs
                (MachineProtectionSystem.state m) w) as H.
  cbn zeta in H.
  destruct (MachineProtectionSystem.check_blms (MachineProtectionSystem.blms_ m)
              current position (MachineProtectionSystem.state m, w))
    as [[safe blms'] [f' w']].
  cbn [fst snd MachineProtectionSystem.state] in *. destruct H as [H1 H2].
  split; [split|].
  - intros ->. destruct (H1 eq_refl) as [_ Hf].
    rewrite Forall_forall in *. intros b Hb.
    destruct (Hf b Hb) as [Hx | Hx]; [|exact Hx].
    rewrite (Ha b Hb) in Hx. discriminate.
  - intros Hf. destruct safe; [reflexivity|].
    destruct (H2 eq_refl) as (_ & _ & Hex).
    apply Exists_exists in Hex. destruct Hex as (b & Hb & _ & Hlt).
    rewrite Forall_forall in Hf. specialize (Hf b Hb). lra.
  - intros ->. now destruct (H1 eq_refl) as [-> _].
Qed.

(** X23: [reset_mps] brings every system with standard monitors back to
    operation: the beam is permitted, no abort is active, the total abort
    count and the two callbacks of the system are kept; every monitor has
    its two flags and its three counters (measurements, warnings, aborts)
    cleared and keeps its identifier, its last loss rate, its two
    thresholds and its callbacks.  The next [check_safety] answers true
    exactly when no abort threshold is exceeded. *)
Theorem reset_mps_restores_operation (m : MachineProtectionSystem.t W)
        (current position : Q) (w : W) :
  MachineProtectionSystem.standard_blms env m ->
  let m' := MachineProtectionSystem.reset_mps m in
  MachineProtectionSystem.is_beam_permitted m' = true /\
  MachineProtectionSystem.is_abort_active m' = false /\
  MachineProtectionSystem.get_abort_count m' = MachineProtectionSystem.get_abort_count m /\
  map (@BeamLossMonitor.blm_id_ captured) (MachineProtectionSystem.blms_ m')
  = map (@BeamLossMonitor.blm_id_ captured) (MachineProtectionSystem.blms_ m) /\
  map (@BeamLossMonitor.threshold_abort_ captured) (MachineProtectionSystem.blms_ m')
  = map (@BeamLossMonitor.threshold_abort_ captured) (MachineProtectionSystem.blms_ m) /\
  Forall (fun b => BeamLossMonitor.abort_active_ b = false /\
                   BeamLossMonitor.warning_active_ b = false /\
                   BeamLossMonitor.abort_count_ b = 0%N /\
                   BeamLossMonitor.total_measurements_ b = 0%N)
         (MachineProtectionSystem.blms_ m') /\
  (fst (fst (MachineProtectionSystem.check_safety m' current position w)) = true <->
   Forall (fun b => BeamLossMonitor.simulated_loss current position
                    <= BeamLossMonitor.threshold_abort_ b)
          (MachineProtectionSystem.blms_ m)) /\
  MachineProtectionSystem.beam_permit_ (MachineProtectionSystem.state m') = true /\
  MachineProtectionSystem.abort_triggered_ (MachineProtectionSystem.state m') = false /\
  MachineProtectionSystem.total_aborts_ (MachineProtectionSystem.state m')
  = MachineProtectionSystem.total_aborts_ (MachineProtectionSystem.state m) /\
  MachineProtectionSystem.beam_abort_callback_ (MachineProtectionSystem.state m')
  = MachineProtectionSystem.beam_abort_callback_ (MachineProtectionSystem.state m) /\
  MachineProtectionSystem.alarm_callback_ (MachineProtectionSystem.state m')
  = MachineProtectionSystem.alarm_callback_ (MachineProtectionSystem.state m) /\
  Forall2 (fun b b' =>
             BeamLossMonitor.warning_active_ b' = false /\
             BeamLossMonitor.abort_active_ b' = false /\
             BeamLossMonitor.total_measurements_ b' = 0%N /\
             BeamLossMonitor.warning_count_ b' = 0%N /\
             BeamLossMonitor.abort_count_ b' = 0%N /\
             BeamLossMonitor.blm_id_ b' = BeamLossMonitor.blm_id_ b /\
             BeamLossMonitor.loss_rate_ b' = BeamLossMonitor.loss_rate_ b /\
             BeamLossMonitor.threshold_warning_ b' = BeamLossMonitor.threshold_warning_ b /\
             BeamLossMonitor.threshold_abort_ b' = BeamLossMonitor.threshold_abort_ b /\
             BeamLossMonitor.warning_callback_ b' = BeamLossMonitor.warning_callback_ b /\
             BeamLossMonitor.abort_callback_ b' = BeamLossMonitor.abort_callback_ b)
          (MachineProtectionSystem.blms_ m) (MachineProtectionSystem.blms_ m').
Proof.
  intros Hs. cbv zeta.
  split; [reflexivity|]. split; [reflexivity|]. split; [reflexivity|].
  cbn [MachineProtectionSystem.reset_mps MachineProtectionSystem.blms_].
  rewrite !map_map. cbn [BeamLossMonitor.reset_statistics BeamLossMonitor.blm_id_
                         BeamLossMonitor.threshold_abort_].
  split; [reflexivity|]. split; [reflexivity|]. split.
  { apply Forall_map. apply Forall_forall. intros b _. cbn. repeat split. }
  pose proof (reset_mps_standard W env m Hs) as Hs'.
  assert (Hall : forall l : list (BeamLossMonitor.t captured),
             Forall2 (fun b b' =>
                        BeamLossMonitor.warning_active_ b' = false /\
                        BeamLossMonitor.abort_active_ b' = false /\
                        BeamLossMonitor.total_measurements_ b' = 0%N /\
                        BeamLossMonitor.warning_count_ b' = 0%N /\
                        BeamLossMonitor.abort_count_ b' = 0%N /\
                        BeamLossMonitor.blm_id_ b' = BeamLossMonitor.blm_id_ b /\
                        BeamLossMonitor.loss_rate_ b' = BeamLossMonitor.loss_rate_ b /\
                        BeamLossMonitor.threshold_warning_ b'
                        = BeamLossMonitor.threshold_warning_ b /\
                        BeamLossMonitor.threshold_abort_ b'
                        = BeamLossMonitor.threshold_abort_ b /\
                        BeamLossMonitor.warning_callback_ b'
                        = BeamLossMonitor.warning_callback_ b /\
                        BeamLossMonitor.abort_callback_ b'
                        = BeamLossMonitor.abort_callback_ b)
                     l (map (@BeamLossMonitor.reset_statistics captured) l)).
  { induction l as [|b rest IH]; cbn [map]; constructor; [|exact IH].
    cbn. repeat split. }
  refine ((fun H => conj H (conj eq_refl (conj eq_refl (conj eq_refl
            (conj eq_refl (conj eq_refl (Hall _))))))) _).
  unfold MachineProtectionSystem.check_safety.
  cbn [MachineProtectionSystem.reset_mps MachineProtectionSystem.state
       MachineProtectionSystem.beam_permit_ MachineProtectionSystem.abort_triggered_
       MachineProtectionSystem.blms_ negb].
  match goal with
  | |- context [MachineProtectionSystem.check_blms ?l current position ?e] =>
      pose proof (check_blms_verdict l current position Hs' (fst e) (snd e)) as H;
      cbn [fst snd] in H; cbn zeta in H;
      destruct (MachineProtectionSystem.check_blms l current position e)
        as [[safe blms'] [f' w']]
  end.
  cbn [fst snd] in *. destruct H as [H1 H2]. split.
  - intros ->. destruct (H1 eq_refl) as [_ Hf].
    apply Forall_map in Hf. rewrite Forall_forall in *. intros b Hb.
    destruct (Hf b Hb) as [Hx | Hx]; [discriminate | exact Hx].
  - intros Hf. destruct safe; [reflexivity|].
    destruct (H2 eq_refl) as (_ & _ & Hex).
    apply Exists_exists in Hex. destruct Hex as (b' & Hb' & _ & Hlt).
    apply in_map_iff in Hb'. destruct Hb' as (b & <- & Hb).
    rewrite Forall_forall in Hf. specialize (Hf b Hb). cbn in Hlt. lra.
Qed.

(** X24: once a check has tripped the system, every further [check_safety]
    returns false and changes neither the system nor the world: no monitor
    measures, no callback runs, no abort is counted, whatever the beam. *)
Theorem latched_system_is_inert (m : MachineProtectionSystem.t W)
        (current position current' position' : Q) (w w' : W) :
  MachineProtectionSystem.standard_blms env m ->
  MachineProtectionSystem.is_beam_permitted m = true ->
  Exists (fun b => trips b current position) (MachineProtectionSystem.blms_ m) ->
  let m1 := snd (fst (MachineProtectionSystem.check_safety m current position w)) in
  MachineProtectionSystem.is_beam_permitted m1 = false /\
  MachineProtectionSystem.check_safety m1 current' position' w' = (false, m1, w').
Proof.
  intros Hs Hp Hex. cbv zeta.
  unfold MachineProtectionSystem.is_beam_permitted in Hp.
  apply andb_true_iff in Hp. destruct Hp as [Hp Ht]. apply negb_true_iff in Ht.
  destruct (check_safety_trip W env m current position w Hs Hp Ht Hex)
    as (_ & H2 & H3 & _).
  split; [exact H3|].
  unfold MachineProtectionSystem.is_abort_active in H2.
  revert H2.
  generalize (snd (fst (MachineProtectionSystem.check_safety m current position w))).
  intros m1 H2. unfold MachineProtectionSystem.check_safety. rewrite H2.
  destruct (MachineProtectionSystem.beam_permit_ (MachineProtectionSystem.state m1));
    reflexivity.
Qed.

(** X25: the loop over the monitors stops at the first one that trips: the
    monitors after it take no measurement in that check and are left exactly
    as they were. *)
Theorem trip_skips_later_monitors (m : MachineProtectionSystem.t W)
        (pre suf : list (BeamLossMonitor.t captured)) (b : BeamLossMonitor.t captured)
        (current position : Q) (w : W) :
  MachineProtectionSystem.standard_blms env m ->
  MachineProtectionSystem.is_beam_permitted m = true ->
  MachineProtectionSystem.blms_ m = pre ++ b :: suf ->
  Forall (fun x => passes x current position) pre ->
  trips b current position ->
  exists pre' b',
    MachineProtectionSystem.blms_
      (snd (fst (MachineProtectionSystem.check_safety m current position w)))
    = pre' ++ b' :: suf /\
    List.length pre' = List.length pre /\
    BeamLossMonitor.total_measurements_ b'
    = u64_incr (BeamLossMonitor.total_measurements_ b) /\
    BeamLossMonitor.is_abort_active b' = true.
Proof.
  intros Hs Hp Hb Hpre [Ha Ht].
  unfold MachineProtectionSystem.is_beam_permitted in Hp.
  apply andb_true_iff in Hp. destruct Hp as [Hp Hl]. apply negb_true_iff in Hl.
  unfold MachineProtectionSystem.check_safety. rewrite Hp, Hl, Hb. cbn [negb].
  unfold MachineProtectionSystem.standard_blms in Hs. rewrite Hb in Hs.
  clear Hb Hp Hl.
  generalize (MachineProtectionSystem.state m) as f. revert w.
  induction pre as [|x pre IH]; intros w f.
  - cbn [app MachineProtectionSystem.check_blms].
    rewrite (update_measurement_trips captured b current position (f, w) Ha Ht).
    cbn [negb].
    match goal with
    | |- context [MachineProtectionSystem.trigger_beam_abort ?r ?s ?e] =>
        destruct (MachineProtectionSystem.trigger_beam_abort r s e) as [f2 w2]
    end.
    cbn [fst snd MachineProtectionSystem.blms_].
    exists []. eexists. split; [reflexivity|]. cbn. repeat split.
  - inversion Hpre as [|? ? Hx Hpre']; subst.
    inversion Hs as [|? ? [Hwarn Habort] Hs']; subst.
    cbn [app MachineProtectionSystem.check_blms].
    rewrite (update_measurement_passes captured x current position (f, w) Hx).
    cbn [negb].
    match goal with
    | |- context [MachineProtectionSystem.check_blms (pre ++ b :: suf) current position ?e] =>
        destruct e as [f1 w1]
    end.
    destruct (IH Hs' Hpre' w1 f1) as (pre' & b' & H1 & H2 & H3 & H4).
    destruct (MachineProtectionSystem.check_blms (pre ++ b :: suf) current position
                (f1, w1)) as [[safe l'] [f2 w2]].
    cbn [fst snd MachineProtectionSystem.blms_] in *.
    eexists (_ :: pre'), b'. rewrite H1. cbn [app List.length].
    repeat split; try assumption. now rewrite H2.
Qed.

End ProtectionFacts.

Lemma mps_counting_standard :
  MachineProtectionSystem.standard_blms env_quiet mps_counting.
Proof.
  unfold MachineProtectionSystem.standard_blms. cbn. repeat constructor.
Qed.

Lemma check_safety_verdict_is_permit_witness :
  MachineProtectionSystem.standard_blms env_quiet mps_counting /\
  fst (fst (MachineProtectionSystem.check_safety mps_counting (2000000 # 1) 0 0%nat))
  = MachineProtectionSystem.is_beam_permitted
      (snd (fst (MachineProtectionSystem.check_safety mps_counting (2000000 # 1) 0 0%nat))).
Proof.
  split; [exact mps_counting_standard|].
  exact (check_safety_verdict_is_permit nat env_quiet mps_counting (2000000 # 1) 0 0%nat
           mps_counting_standard).
Defined.

Lemma check_safety_permits_iff_below_thresholds_witness :
  (fst (fst (MachineProtectionSystem.check_safety mps_counting (1000 # 1) (1 # 2) 0%nat))
   = true <->
   Forall (fun b => BeamLossMonitor.simulated_loss (1000 # 1) (1 # 2)
                    <= BeamLossMonitor.threshold_abort_ b)
          (MachineProtectionSystem.blms_ mps_counting)) /\
  (fst (fst (MachineProtectionSystem.check_safety mps_counting (1000 # 1) (1 # 2) 0%nat))
   = true ->
   MachineProtectionSystem.state
     (snd (fst (MachineProtectionSystem.check_safety mps_counting (1000 # 1) (1 # 2) 0%nat)))
   = MachineProtectionSystem.state mps_counting).
Proof.
  apply (check_safety_permits_iff_below_thresholds nat env_quiet mps_counting
           (1000 # 1) (1 # 2) 0%nat mps_counting_standard).
  - reflexivity.
  - cbn. repeat constructor.
Defined.

Lemma reset_mps_restores_operation_witness :
  MachineProtectionSystem.get_abort_count
    (MachineProtectionSystem.reset_mps
       (snd (fst (MachineProtectionSystem.check_safety mps_counting (2000000 # 1) 0 0%nat))))
  = 2%N /\
  MachineProtectionSystem.is_beam_permitted
    (MachineProtectionSystem.reset_mps
       (snd (fst (MachineProtectionSystem.check_safety mps_counting (2000000 # 1) 0 0%nat))))
  = true.
Proof.
  assert (Hs : MachineProtectionSystem.standard_blms env_quiet
                 (snd (fst (MachineProtectionSystem.check_safety mps_counting
                              (2000000 # 1) 0 0%nat)))).
  { unfold MachineProtectionSystem.standard_blms. cbn. repeat constructor. }
  destruct (reset_mps_restores_operation nat env_quiet _ (1000 # 1) 0 0%nat Hs)
    as (H1 & _ & H3 & _).
  split; [rewrite H3; reflexivity | exact H1].
Defined.

Lemma latched_system_is_inert_witness :
  MachineProtectionSystem.check_safety
    (snd (fst (MachineProtectionSystem.check_safety mps_counting (2000000 # 1) 0 0%nat)))
    (1000 # 1) 0 7%nat
  = (false,
     snd (fst (MachineProtectionSystem.check_safety mps_counting (2000000 # 1) 0 0%nat)),
     7%nat).
Proof.
  refine (proj2 (latched_system_is_inert nat env_quiet mps_counting
                   (2000000 # 1) 0 (1000 # 1) 0 0%nat 7%nat
                   mps_counting_standard eq_refl _)).
  apply Exists_cons_hd. split; reflexivity.
Defined.

Lemma trip_skips_later_monitors_witness :
  exists pre' b',
    MachineProtectionSystem.blms_
      (snd (fst (MachineProtectionSystem.check_safety mps_counting (2000000 # 1) 0 0%nat)))
    = pre' ++ b' :: tl (MachineProtectionSystem.blms_ mps_counting) /\
    List.length pre' = 0%nat /\
    BeamLossMonitor.total_measurements_ b' = 1%N /\
    BeamLossMonitor.is_abort_active b' = true.
Proof.
  refine (trip_skips_later_monitors nat env_quiet mps_counting []
            (tl (MachineProtectionSystem.blms_ mps_counting))
            (hd (BeamLossMonitor.make _ EmptyString)
                (MachineProtectionSystem.blms_ mps_counting))
            (2000000 # 1) 0 0%nat mps_counting_standard eq_refl eq_refl _ _).
  - constructor.
  - split; reflexivity.
Defined.

(** ** The loop over whole runs, continued *)

(** The loop's callbacks leave its counters alone. *)
Lemma notified_counters (f0 : MachineProtectionSystem.flags RTLoop.fields)
      (f f' : RTLoop.fields) :
  MachineProtectionSystem.beam_abort_callback_ f0 = Some RTLoop.on_beam_abort ->
  MachineProtectionSystem.alarm_callback_ f0 = Some RTLoop.on_alarm ->
  MachineProtectionSystem.notified f0 f f' ->
  RTLoop.loop_count f' = RTLoop.loop_count f /\
  RTLoop.deadline_misses f' = RTLoop.deadline_misses f /\
  BPM.offset (ControlAPI.bpm (RTLoop.api f')) = BPM.offset (ControlAPI.bpm (RTLoop.api f)) /\
  (ControlAPI.get_magnet (RTLoop.api f) = 0 -> ControlAPI.get_magnet (RTLoop.api f') = 0).
Proof.
  intros Ha Hb Hn. induction Hn as [w | w w' cb Hcb Hn IH | w w' cb msg Hcb Hn IH].
  - repeat split; try reflexivity; tauto.
  - rewrite Ha in Hcb. injection Hcb as <-.
    destruct IH as (H1 & H2 & H3 & H4). cbn. repeat split; assumption.
  - rewrite Hb in Hcb. injection Hcb as <-.
    destruct IH as (H1 & H2 & H3 & H4). cbn. repeat split; assumption.
Qed.

(** The first half of an iteration returns, whatever the loop. *)
Lemma actuate_total (env : Env) (l : RTLoop.t) (period_ns : Z) :
  exists pos intensity u l', RTLoop.actuate env l period_ns = Ok (pos, intensity, u, l').
Proof.
  unfold RTLoop.actuate.
  destruct (RTLoop.read_sensors env l) as [[pos intensity] l1].
  destruct (RTLoop.protect l1 intensity pos) as [safe l2].
  destruct (control_total l2 pos period_ns) as (u & l3 & Hc & _).
  rewrite Hc. cbn [bind]. now exists pos, intensity, u, l3.
Qed.

(** The control block touches neither the loop's flags of operation nor its
    counters. *)
Lemma control_keeps (l l' : RTLoop.t) (pos u : Q) (period_ns : Z) :
  RTLoop.control l pos period_ns = Ok (u, l') ->
  RTLoop.running (RTLoop.self l') = RTLoop.running (RTLoop.self l) /\
  RTLoop.hz (RTLoop.self l') = RTLoop.hz (RTLoop.self l) /\
  RTLoop.loop_count (RTLoop.self l') = RTLoop.loop_count (RTLoop.self l) /\
  RTLoop.deadline_misses (RTLoop.self l') = RTLoop.deadline_misses (RTLoop.self l).
Proof.
  unfold RTLoop.control. intros H.
  destruct (RTLoop.control_enabled (RTLoop.self l)
            && negb (RTLoop.emergency_stop (RTLoop.self l))).
  - destruct (PID.step _ _ _ _ _) as [[u1 p1]|]; [|discriminate].
    cbn [bind] in H. injection H as _ <-. cbn. repeat split.
  - injection H as _ <-. cbn. repeat split.
Qed.

(** What the first half of an iteration of a wired loop keeps. *)
Lemma actuate_keeps (env : Env) (l l' : RTLoop.t) (period_ns : Z) (pos intensity u : Q) :
  RTLoop.wired env l ->
  RTLoop.actuate env l period_ns = Ok (pos, intensity, u, l') ->
  RTLoop.wired env l' /\
  RTLoop.running (RTLoop.self l') = RTLoop.running (RTLoop.self l) /\
  RTLoop.hz (RTLoop.self l') = RTLoop.hz (RTLoop.self l) /\
  RTLoop.loop_count (RTLoop.self l') = RTLoop.loop_count (RTLoop.self l) /\
  RTLoop.deadline_misses (RTLoop.self l') = RTLoop.deadline_misses (RTLoop.self l) /\
  ControlAPI.get_magnet (RTLoop.api (RTLoop.self l')) = u /\
  (RTLoop.emergency_stop (RTLoop.self l) = true ->
   RTLoop.emergency_stop (RTLoop.self l') = true /\
   u = 0 /\
   RTLoop.pid (RTLoop.self l') = RTLoop.pid (RTLoop.self l) /\
   BPM.offset (ControlAPI.bpm (RTLoop.api (RTLoop.self l')))
   = BPM.offset (ControlAPI.bpm (RTLoop.api (RTLoop.self l))) /\
   exists zs,
     ControlAPI.commands (RTLoop.api (RTLoop.self l'))
     = 0 :: zs ++ ControlAPI.commands (RTLoop.api (RTLoop.self l)) /\
     Forall (fun v => v = 0) zs).
Proof.
  intros Hw H. unfold RTLoop.actuate in H.
  assert (Hr : let l1 := snd (RTLoop.read_sensors env l) in
               RTLoop.mps l1 = RTLoop.mps l /\
               RTLoop.running (RTLoop.self l1) = RTLoop.running (RTLoop.self l) /\
               RTLoop.hz (RTLoop.self l1) = RTLoop.hz (RTLoop.self l) /\
               RTLoop.loop_count (RTLoop.self l1) = RTLoop.loop_count (RTLoop.self l) /\
               RTLoop.deadline_misses (RTLoop.self l1)
               = RTLoop.deadline_misses (RTLoop.self l) /\
               RTLoop.emergency_stop (RTLoop.self l1)
               = RTLoop.emergency_stop (RTLoop.self l) /\
               RTLoop.pid (RTLoop.self l1) = RTLoop.pid (RTLoop.self l) /\
               BPM.offset (ControlAPI.bpm (RTLoop.api (RTLoop.self l1)))
               = BPM.offset (ControlAPI.bpm (RTLoop.api (RTLoop.self l))) /\
               ControlAPI.commands (RTLoop.api (RTLoop.self l1))
               = ControlAPI.commands (RTLoop.api (RTLoop.self l))).
  { cbn. repeat split. }
  cbn zeta in Hr.
  destruct (RTLoop.read_sensors env l) as [[pos1 intensity1] l1].
  cbn [snd] in Hr.
  destruct Hr as (R1 & R2 & R3 & R4 & R5 & R6 & R7 & R8 & R9).
  assert (Hw1 : RTLoop.wired env l1).
  { unfold RTLoop.wired in *. rewrite R1. exact Hw. }
  destruct Hw1 as (Hs & Ha & Hb).
  destruct (RTLoop.protect l1 intensity1 pos1) as [safe l2] eqn:Ep.
  unfold RTLoop.protect in Ep.
  pose proof (check_safety_notified RTLoop.fields env (RTLoop.mps l1) intensity1 pos1
                (RTLoop.self l1) Hs) as Hc.
  cbn zeta in Hc.
  destruct (MachineProtectionSystem.check_safety (RTLoop.mps l1) intensity1 pos1
              (RTLoop.self l1)) as [[safe1 m] f].
  cbn [fst snd] in Hc. destruct Hc as (Hs' & [Ha' Hb'] & Hn).
  destruct (notified_fields _ _ _ Ha Hb Hn) as (N1 & N2 & N3 & N4 & N5 & (zs & N6 & N7) & N8 & N9).
  destruct (notified_counters _ _ _ Ha Hb Hn) as (M1 & M2 & M3 & _).
  injection Ep as <- <-.
  destruct (control_total
              {| RTLoop.self :=
                   if negb safe1
                   then RTLoop.with_control_enabled (RTLoop.with_emergency_stop f true) false
                   else f;
                 RTLoop.mps := m |} pos1 period_ns)
    as (u1 & l3 & Hctl & C1 & C2 & C3 & C4 & C5 & C6 & C7 & C8).
  rewrite Hctl in H. cbn [bind] in H. injection H as <- <- <- <-.
  cbn [RTLoop.self RTLoop.mps] in *.
  assert (Hsame : forall (A : Type) (g : RTLoop.fields -> A),
             (forall x b, g (RTLoop.with_control_enabled x b) = g x) ->
             (forall x b, g (RTLoop.with_emergency_stop x b) = g x) ->
             g (if negb safe1
                then RTLoop.with_control_enabled (RTLoop.with_emergency_stop f true) false
                else f) = g f).
  { intros A g G1 G2. destruct safe1; cbn [negb]; [reflexivity|]. now rewrite G1, G2. }
  assert (Hrun : RTLoop.running (RTLoop.self l3) = RTLoop.running (RTLoop.self l) /\
                 RTLoop.hz (RTLoop.self l3) = RTLoop.hz (RTLoop.self l) /\
                 RTLoop.loop_count (RTLoop.self l3) = RTLoop.loop_count (RTLoop.self l) /\
                 RTLoop.deadline_misses (RTLoop.self l3)
                 = RTLoop.deadline_misses (RTLoop.self l)).
  { destruct (control_keeps _ _ _ _ _ Hctl) as (K1 & K2 & K3 & K4).
    cbn [RTLoop.self] in K1, K2, K3, K4.
    rewrite K1, K2, K3, K4.
    rewrite (Hsame _ RTLoop.running), (Hsame _ RTLoop.hz),
      (Hsame _ RTLoop.loop_count), (Hsame _ RTLoop.deadline_misses)
      by reflexivity.
    repeat split; congruence. }
  destruct Hrun as (U1 & U2 & U3 & U4).
  split.
  { unfold RTLoop.wired. rewrite C1. repeat split; try assumption; congruence. }
  split; [exact U1|]. split; [exact U2|]. split; [exact U3|]. split; [exact U4|].
  split; [exact C6|].
  intros Hstop.
  assert (Hf : RTLoop.emergency_stop f = true) by (apply N8; congruence).
  assert (Hoff : RTLoop.control_enabled
                   (if negb safe1
                    then RTLoop.with_control_enabled (RTLoop.with_emergency_stop f true) false
                    else f)
                 && negb (RTLoop.emergency_stop
                            (if negb safe1
                             then RTLoop.with_control_enabled
                                    (RTLoop.with_emergency_stop f true) false
                             else f)) = false).
  { destruct safe1; cbn [negb]; [|reflexivity]. rewrite Hf. apply andb_false_r. }
  destruct (C8 Hoff) as (-> & D2 & D3).
  split.
  { rewrite C4. destruct safe1; cbn [negb]; [exact Hf | reflexivity]. }
  split; [reflexivity|].
  split.
  { rewrite D2, (Hsame _ RTLoop.pid); [congruence | reflexivity | reflexivity]. }
  split.
  { rewrite D3.
    rewrite (Hsame _ (fun x => ControlAPI.bpm (RTLoop.api x))); [|reflexivity|reflexivity].
    congruence. }
  exists zs. split; [|exact N7].
  rewrite C5.
  rewrite (Hsame _ (fun x => ControlAPI.commands (RTLoop.api x))); [|reflexivity|reflexivity].
  rewrite N6, R9. reflexivity.
Qed.

(** A command leaves the loop running and its counters alone. *)
Lemma handle_cmd_keeps (env : Env) (l l' : RTLoop.t) (s : string)
      (period_ns period_ns' : Z) (r : reply) :
  RTLoop.handle_cmd env l s period_ns = Ok (r, l', period_ns') ->
  RTLoop.running (RTLoop.self l') = RTLoop.running (RTLoop.self l) /\
  RTLoop.loop_count (RTLoop.self l') = RTLoop.loop_count (RTLoop.self l) /\
  RTLoop.deadline_misses (RTLoop.self l') = RTLoop.deadline_misses (RTLoop.self l).
Proof.
  intros H. unfold RTLoop.handle_cmd in H.
  repeat match type of H with
         | context [bind ?m _] => destruct m; cbn [bind] in H
         | context [if ?c then _ else _] => destruct c
         end;
    try discriminate; injection H as <- <- <-; cbn; repeat split.
Qed.

(** Under a latched stop a command other than [recommission] leaves the stop
    latched, writes nothing but zeros and keeps the state of the regulator. *)
Lemma handle_cmd_stopped (env : Env) (l l' : RTLoop.t) (s : string)
      (period_ns period_ns' : Z) (r : reply) :
  RTLoop.emergency_stop (RTLoop.self l) = true ->
  Json.eq_literal (Json.at_key (env_json_parse env s) "cmd") "recommission" = false ->
  RTLoop.handle_cmd env l s period_ns = Ok (r, l', period_ns') ->
  RTLoop.emergency_stop (RTLoop.self l') = true /\
  PID.integ (RTLoop.pid (RTLoop.self l')) = PID.integ (RTLoop.pid (RTLoop.self l)) /\
  PID.prev_err (RTLoop.pid (RTLoop.self l')) = PID.prev_err (RTLoop.pid (RTLoop.self l)) /\
  BPM.offset (ControlAPI.bpm (RTLoop.api (RTLoop.self l')))
  = BPM.offset (ControlAPI.bpm (RTLoop.api (RTLoop.self l))) /\
  exists zs,
    ControlAPI.commands (RTLoop.api (RTLoop.self l'))
    = zs ++ ControlAPI.commands (RTLoop.api (RTLoop.self l)) /\
    Forall (fun v => v = 0) zs.
Proof.
  intros Hstop Hnr H. unfold RTLoop.handle_cmd in H. rewrite Hnr in H.
  rewrite Hstop in H. cbn [negb] in H.
  repeat match type of H with
         | context [bind ?m _] => destruct m; cbn [bind] in H
         | context [if ?c then _ else _] => destruct c
         end;
    try discriminate; injection H as <- <- <-; cbn;
    (split; [first [exact Hstop | reflexivity]|]);
    (split; [reflexivity|]); (split; [reflexivity|]); (split; [reflexivity|]).
  all: first [ now (exists []; split; [reflexivity | constructor])
             | now (exists [0]; split; [reflexivity | repeat constructor]) ].
Qed.

(** The bookkeeping of one iteration of a wired loop. *)
Lemma iteration_bookkeeping (env : Env) (tk : RTLoop.tick) (rs rs' : RTLoop.run_state) :
  RTLoop.wired env (RTLoop.loop rs) ->
  RTLoop.iteration env tk rs = Ok rs' ->
  RTLoop.wired env (RTLoop.loop rs') /\
  RTLoop.running (RTLoop.self (RTLoop.loop rs'))
  = RTLoop.running (RTLoop.self (RTLoop.loop rs)) /\
  RTLoop.loop_count (RTLoop.self (RTLoop.loop rs'))
  = u64_incr (RTLoop.loop_count (RTLoop.self (RTLoop.loop rs))) /\
  RTLoop.deadline_misses (RTLoop.self (RTLoop.loop rs'))
  = (if (Watchdog.budget (RTLoop.wd rs) <? RTLoop.execution_ns tk)%Z
     then u64_incr (RTLoop.deadline_misses (RTLoop.self (RTLoop.loop rs)))
     else RTLoop.deadline_misses (RTLoop.self (RTLoop.loop rs))) /\
  Watchdog.budget (RTLoop.wd rs') = Watchdog.budget (RTLoop.wd rs) /\
  (exists record,
      RTLoop.published rs' = record :: RTLoop.published rs /\
      RTLoop.tm_t record = RTLoop.t_end tk /\
      RTLoop.tm_deadline_miss record
      = (if (Watchdog.budget (RTLoop.wd rs) <? RTLoop.execution_ns tk)%Z
         then 1 else 0)%Z) /\
  match RTLoop.request tk with
  | Some _ => exists r, RTLoop.replies rs' = r :: RTLoop.replies rs
  | None => RTLoop.replies rs' = RTLoop.replies rs /\
            RTLoop.period_ns rs' = RTLoop.period_ns rs
  end.
Proof.
  intros Hw H. unfold RTLoop.iteration in H.
  destruct (RTLoop.actuate env (RTLoop.loop rs) (RTLoop.period_ns rs))
    as [[[[pos intensity] u] l1]|] eqn:Ea; [|discriminate].
  cbn [bind] in H.
  destruct (actuate_keeps env _ _ _ _ _ _ Hw Ea) as (Hw1 & K1 & _ & K3 & K4 & _).
  unfold Watchdog.check in H. cbn [Watchdog.is_tripped Watchdog.tripped] in H.
  destruct (RTLoop.request tk) as [s|].
  - match type of H with
    | context [RTLoop.handle_cmd env ?l ?s ?p] =>
        destruct (RTLoop.handle_cmd env l s p) as [[[r l2] p2]|] eqn:Hh;
          [set (lb := l) in Hh | discriminate]
    end.
    cbn [bind] in H. injection H as <-.
    cbn [RTLoop.loop RTLoop.wd RTLoop.published RTLoop.replies Watchdog.reset
         Watchdog.budget].
    assert (Hwb : RTLoop.wired env lb) by exact Hw1.
    destruct (handle_cmd_commands env lb l2 s _ _ r Hh Hwb) as (Hw2 & _).
    destruct (handle_cmd_keeps env lb l2 s _ _ r Hh) as (C1 & C2 & C3).
    subst lb. cbn [RTLoop.self RTLoop.running RTLoop.loop_count RTLoop.deadline_misses
                   RTLoop.with_counters] in C1, C2, C3.
    split; [exact Hw2|]. split; [congruence|]. split; [congruence|].
    split; [rewrite C3, K4; reflexivity|]. split; [reflexivity|].
    split; [|eexists; reflexivity].
    eexists. split; [reflexivity|]. split; [reflexivity|]. reflexivity.
  - injection H as <-.
    cbn [RTLoop.loop RTLoop.wd RTLoop.published RTLoop.replies Watchdog.reset
         Watchdog.budget RTLoop.self RTLoop.running RTLoop.loop_count
         RTLoop.deadline_misses RTLoop.with_counters RTLoop.period_ns].
    split; [exact Hw1|]. split; [exact K1|]. split; [congruence|].
    split; [rewrite K4; reflexivity|]. split; [reflexivity|].
    split; [|split; reflexivity].
    eexists. split; [reflexivity|]. split; [reflexivity|]. reflexivity.
Qed.

Lemma u64_incr_add (a n : N) :
  u64_incr ((a + n) mod u64_modulus) = ((a + (n + 1)) mod u64_modulus)%N.
Proof.
  unfold u64_incr. rewrite N.Div0.add_mod_idemp_l. f_equal. lia.
Qed.

(** [iterate] over ticks, the loop running: every tick is one iteration. *)
Lemma iterate_bookkeeping (env : Env) (ticks : list RTLoop.tick) :
  forall rs rs' : RTLoop.run_state,
    RTLoop.wired env (RTLoop.loop rs) ->
    RTLoop.running (RTLoop.self (RTLoop.loop rs)) = true ->
    (RTLoop.loop_count (RTLoop.self (RTLoop.loop rs)) < u64_modulus)%N ->
    (RTLoop.deadline_misses (RTLoop.self (RTLoop.loop rs)) < u64_modulus)%N ->
    RTLoop.iterate env ticks rs = Ok rs' ->
    RTLoop.running (RTLoop.self (RTLoop.loop rs')) = true /\
    Watchdog.budget (RTLoop.wd rs') = Watchdog.budget (RTLoop.wd rs) /\
    RTLoop.loop_count (RTLoop.self (RTLoop.loop rs'))
    = ((RTLoop.loop_count (RTLoop.self (RTLoop.loop rs))
        + N.of_nat (List.length ticks)) mod u64_modulus)%N /\
    RTLoop.deadline_misses (RTLoop.self (RTLoop.loop rs'))
    = ((RTLoop.deadline_misses (RTLoop.self (RTLoop.loop rs))
        + N.of_nat (List.length
                      (filter (fun tk => (Watchdog.budget (RTLoop.wd rs)
                                          <? RTLoop.execution_ns tk)%Z) ticks)))
       mod u64_modulus)%N /\
    map RTLoop.tm_t (RTLoop.published rs')
    = rev (map RTLoop.t_end ticks) ++ map RTLoop.tm_t (RTLoop.published rs) /\
    List.length (RTLoop.replies rs')
    = (List.length (filter (fun tk => match RTLoop.request tk with
                                      | Some _ => true
                                      | None => false
                                      end) ticks)
       + List.length (RTLoop.replies rs))%nat.
Proof.
  induction ticks as [|tk rest IH]; intros rs rs' Hw Hrun Hlc Hdm H; cbn in H.
  - injection H as <-. cbn [List.length filter map rev app N.of_nat].
    rewrite !N.add_0_r, !N.mod_small by assumption. repeat split. exact Hrun.
  - rewrite Hrun in H.
    destruct (RTLoop.iteration env tk rs) as [rs1|] eqn:E; [|discriminate].
    cbn [bind] in H.
    destruct (iteration_bookkeeping env tk rs rs1 Hw E)
      as (Hw1 & R1 & L1 & D1 & B1 & (record & P1 & P2 & _) & Q1).
    assert (Hlc1 : (RTLoop.loop_count (RTLoop.self (RTLoop.loop rs1)) < u64_modulus)%N).
    { rewrite L1. unfold u64_incr. apply N.mod_upper_bound. discriminate. }
    assert (Hdm1 : (RTLoop.deadline_misses (RTLoop.self (RTLoop.loop rs1))
                    < u64_modulus)%N).
    { rewrite D1. destruct (_ <? _)%Z; [|exact Hdm].
      unfold u64_incr. apply N.mod_upper_bound. discriminate. }
    destruct (IH rs1 rs' Hw1 ltac:(congruence) Hlc1 Hdm1 H)
      as (I1 & I2 & I3 & I4 & I5 & I6).
    split; [exact I1|]. split; [congruence|].
    split.
    { rewrite I3, L1. unfold u64_incr. rewrite N.Div0.add_mod_idemp_l.
      f_equal. cbn [List.length]. lia. }
    split.
    { rewrite I4, D1, B1. cbn [filter].
      destruct (Watchdog.budget (RTLoop.wd rs) <? RTLoop.execution_ns tk)%Z.
      - unfold u64_incr. rewrite N.Div0.add_mod_idemp_l.
        f_equal. cbn [List.length]. lia.
      - reflexivity. }
    split.
    { rewrite I5, P1. cbn [map rev]. rewrite P2, <- app_assoc. reflexivity. }
    rewrite I6. cbn [filter].
    destruct (RTLoop.request tk) as [s|].
    + destruct Q1 as [r ->]. cbn [List.length]. lia.
    + destruct Q1 as [-> _]. reflexivity.
Qed.

(** X26: the bookkeeping of a run of a wired loop.  The loop runs one
    iteration for every tick; each iteration counts once in [loop_count]
    (modulo 2^64) and publishes one record, in order; a reply is sent for
    every tick that carries a request.  The watchdog keeps the budget it was
    built with, the period derived from [hz] when [run] was entered, also
    after a [set_freq] command: [deadline_misses] counts the iterations
    whose execution time exceeds that first period. *)
Theorem run_bookkeeping (env : Env) (ticks : list RTLoop.tick) (l : RTLoop.t)
        (rs' : RTLoop.run_state) :
  RTLoop.wired env l ->
  RTLoop.running (RTLoop.self l) = true ->
  (RTLoop.loop_count (RTLoop.self l) < u64_modulus)%N ->
  (RTLoop.deadline_misses (RTLoop.self l) < u64_modulus)%N ->
  RTLoop.run env ticks l = Ok rs' ->
  exists p,
    RTLoop.period_of (RTLoop.hz (RTLoop.self l)) = Ok p /\
    Watchdog.budget (RTLoop.wd rs') = p /\
    RTLoop.running (RTLoop.self (RTLoop.loop rs')) = true /\
    RTLoop.loop_count (RTLoop.self (RTLoop.loop rs'))
    = ((RTLoop.loop_count (RTLoop.self l) + N.of_nat (List.length ticks))
       mod u64_modulus)%N /\
    RTLoop.deadline_misses (RTLoop.self (RTLoop.loop rs'))
    = ((RTLoop.deadline_misses (RTLoop.self l)
        + N.of_nat (List.length
                      (filter (fun tk => (p <? RTLoop.execution_ns tk)%Z) ticks)))
       mod u64_modulus)%N /\
    map RTLoop.tm_t (RTLoop.published rs') = rev (map RTLoop.t_end ticks) /\
    List.length (RTLoop.replies rs')
    = List.length (filter (fun tk => match RTLoop.request tk with
                                     | Some _ => true
                                     | None => false
                                     end) ticks).
Proof.
  intros Hw Hrun Hlc Hdm H. unfold RTLoop.run in H.
  destruct (RTLoop.period_of (RTLoop.hz (RTLoop.self l))) as [p|] eqn:Ep;
    [|discriminate].
  cbn [bind] in H. exists p. split; [reflexivity|].
  destruct (iterate_bookkeeping env ticks
              {| RTLoop.loop := l; RTLoop.period_ns := p; RTLoop.wd := Watchdog.make p;
                 RTLoop.published := []; RTLoop.replies := [] |}
              rs' Hw Hrun Hlc Hdm H)
    as (I1 & I2 & I3 & I4 & I5 & I6).
  cbn [RTLoop.loop RTLoop.wd RTLoop.published RTLoop.replies Watchdog.make
       Watchdog.budget map List.length] in *.
  rewrite app_nil_r in I5. rewrite Nat.add_0_r in I6.
  repeat split; assumption.
Qed.

(** Two ticks, the second late and with a request waiting. *)
Lemma run_bookkeeping_witness :
  exists rs',
    RTLoop.run env_quiet [tick_quiet; tick_late_request] loop_fresh = Ok rs' /\
    RTLoop.loop_count (RTLoop.self (RTLoop.loop rs')) = 2%N /\
    RTLoop.deadline_misses (RTLoop.self (RTLoop.loop rs')) = 1%N /\
    List.length (RTLoop.replies rs') = 1%nat.
Proof.
  destruct (RTLoop.run env_quiet [tick_quiet; tick_late_request] loop_fresh)
    as [rs'|e] eqn:E; [|vm_compute in E; discriminate].
  exists rs'. split; [reflexivity|].
  destruct (run_bookkeeping env_quiet _ loop_fresh rs' (make_wired _ _) eq_refl
              eq_refl eq_refl E) as (p & Hp & _ & _ & H1 & H2 & _ & H3).
  vm_compute in Hp. injection Hp as <-.
  split; [exact H1|]. split; [exact H2 | exact H3].
Defined.

(** One iteration under a latched stop. *)
Lemma iteration_stopped (env : Env) (tk : RTLoop.tick) (rs rs' : RTLoop.run_state) :
  RTLoop.wired env (RTLoop.loop rs) ->
  RTLoop.emergency_stop (RTLoop.self (RTLoop.loop rs)) = true ->
  match RTLoop.request tk with
  | Some s =>
      Json.eq_literal (Json.at_key (env_json_parse env s) "cmd") "recommission" = false
  | None => True
  end ->
  RTLoop.iteration env tk rs = Ok rs' ->
  RTLoop.wired env (RTLoop.loop rs') /\
  RTLoop.emergency_stop (RTLoop.self (RTLoop.loop rs')) = true /\
  PID.integ (RTLoop.pid (RTLoop.self (RTLoop.loop rs')))
  = PID.integ (RTLoop.pid (RTLoop.self (RTLoop.loop rs))) /\
  PID.prev_err (RTLoop.pid (RTLoop.self (RTLoop.loop rs')))
  = PID.prev_err (RTLoop.pid (RTLoop.self (RTLoop.loop rs))) /\
  BPM.offset (ControlAPI.bpm (RTLoop.api (RTLoop.self (RTLoop.loop rs'))))
  = BPM.offset (ControlAPI.bpm (RTLoop.api (RTLoop.self (RTLoop.loop rs)))) /\
  (exists zs,
      ControlAPI.commands (RTLoop.api (RTLoop.self (RTLoop.loop rs')))
      = zs ++ ControlAPI.commands (RTLoop.api (RTLoop.self (RTLoop.loop rs))) /\
      Forall (fun v => v = 0) zs) /\
  (exists record,
      RTLoop.published rs' = record :: RTLoop.published rs /\
      RTLoop.tm_mag record = 0).
Proof.
  intros Hw Hstop Hreq H. unfold RTLoop.iteration in H.
  destruct (RTLoop.actuate env (RTLoop.loop rs) (RTLoop.period_ns rs))
    as [[[[pos intensity] u] l1]|] eqn:Ea; [|discriminate].
  cbn [bind] in H.
  destruct (actuate_keeps env _ _ _ _ _ _ Hw Ea) as (Hw1 & _ & _ & _ & _ & Hget & K).
  destruct (K Hstop) as (S1 & -> & S3 & S4 & zs & S5 & S6).
  unfold Watchdog.check in H. cbn [Watchdog.is_tripped Watchdog.tripped] in H.
  destruct (RTLoop.request tk) as [s|].
  - match type of H with
    | context [RTLoop.handle_cmd env ?l ?s ?p] =>
        destruct (RTLoop.handle_cmd env l s p) as [[[r l2] p2]|] eqn:Hh;
          [set (lb := l) in Hh | discriminate]
    end.
    cbn [bind] in H. injection H as <-.
    cbn [RTLoop.loop RTLoop.published].
    assert (Hwb : RTLoop.wired env lb) by exact Hw1.
    assert (Hsb : RTLoop.emergency_stop (RTLoop.self lb) = true) by exact S1.
    destruct (handle_cmd_commands env lb l2 s _ _ r Hh Hwb) as (Hw2 & _).
    destruct (handle_cmd_stopped env lb l2 s _ _ r Hsb Hreq Hh)
      as (C1 & C2 & C3 & C4 & zs2 & C5 & C6).
    subst lb. cbn [RTLoop.self RTLoop.pid RTLoop.api RTLoop.with_counters] in *.
    split; [exact Hw2|]. split; [exact C1|].
    split; [rewrite C2, S3; reflexivity|].
    split; [rewrite C3, S3; reflexivity|].
    split; [rewrite C4, S4; reflexivity|].
    split.
    + exists (zs2 ++ 0 :: zs). split.
      * rewrite C5, S5, <- app_assoc. reflexivity.
      * apply Forall_app. split; [exact C6|]. constructor; [reflexivity | exact S6].
    + eexists. split; [reflexivity|]. exact Hget.
  - injection H as <-.
    cbn [RTLoop.loop RTLoop.published RTLoop.self RTLoop.pid RTLoop.api
         RTLoop.with_counters RTLoop.emergency_stop].
    split; [exact Hw1|]. split; [exact S1|].
    split; [rewrite S3; reflexivity|]. split; [rewrite S3; reflexivity|].
    split; [exact S4|].
    split.
    + exists (0 :: zs). split; [exact S5|]. constructor; [reflexivity | exact S6].
    + eexists. split; [reflexivity|]. exact Hget.
Qed.

Lemma iterate_stopped (env : Env) (ticks : list RTLoop.tick) :
  forall rs rs' : RTLoop.run_state,
    RTLoop.wired env (RTLoop.loop rs) ->
    RTLoop.emergency_stop (RTLoop.self (RTLoop.loop rs)) = true ->
    Forall (fun tk =>
              match RTLoop.request tk with
              | Some s =>
                  Json.eq_literal (Json.at_key (env_json_parse env s) "cmd")
                                  "recommission" = false
              | None => True
              end) ticks ->
    RTLoop.iterate env ticks rs = Ok rs' ->
    RTLoop.emergency_stop (RTLoop.self (RTLoop.loop rs')) = true /\
    PID.integ (RTLoop.pid (RTLoop.self (RTLoop.loop rs')))
    = PID.integ (RTLoop.pid (RTLoop.self (RTLoop.loop rs))) /\
    PID.prev_err (RTLoop.pid (RTLoop.self (RTLoop.loop rs')))
    = PID.prev_err (RTLoop.pid (RTLoop.self (RTLoop.loop rs))) /\
    BPM.offset (ControlAPI.bpm (RTLoop.api (RTLoop.self (RTLoop.loop rs'))))
    = BPM.offset (ControlAPI.bpm (RTLoop.api (RTLoop.self (RTLoop.loop rs)))) /\
    (exists zs,
        ControlAPI.commands (RTLoop.api (RTLoop.self (RTLoop.loop rs')))
        = zs ++ ControlAPI.commands (RTLoop.api (RTLoop.self (RTLoop.loop rs))) /\
        Forall (fun v => v = 0) zs) /\
    (exists records,
        RTLoop.published rs' = records ++ RTLoop.published rs /\
        Forall (fun r => RTLoop.tm_mag r = 0) records).
Proof.
  induction ticks as [|tk rest IH]; intros rs rs' Hw Hstop Hreq H; cbn in H.
  - injection H as <-. split; [exact Hstop|]. repeat split.
    + exists []. split; [reflexivity | constructor].
    + exists []. split; [reflexivity | constructor].
  - destruct (RTLoop.running (RTLoop.self (RTLoop.loop rs))).
    2: { injection H as <-. split; [exact Hstop|]. repeat split.
         - exists []. split; [reflexivity | constructor].
         - exists []. split; [reflexivity | constructor]. }
    destruct (RTLoop.iteration env tk rs) as [rs1|] eqn:E; [|discriminate].
    cbn [bind] in H. inversion Hreq as [|? ? Htk Hrest]; subst.
    destruct (iteration_stopped env tk rs rs1 Hw Hstop Htk E)
      as (Hw1 & S1 & S2 & S3 & S4 & (zs1 & S5 & S6) & (record & S7 & S8)).
    destruct (IH rs1 rs' Hw1 S1 Hrest H)
      as (I1 & I2 & I3 & I4 & (zs2 & I5 & I6) & (records & I7 & I8)).
    split; [exact I1|]. split; [congruence|]. split; [congruence|].
    split; [congruence|]. split.
    + exists (zs2 ++ zs1). split.
      * rewrite I5, S5, app_assoc. reflexivity.
      * apply Forall_app. split; assumption.
    + exists (records ++ [record]). split.
      * rewrite I7, S7, <- app_assoc. reflexivity.
      * apply Forall_app. split; [exact I8|]. constructor; [exact S8 | constructor].
Qed.

(** X27: the emergency stop is sticky.  In a run of a wired loop that
    starts with the stop latched, as long as no [recommission] command
    arrives, the stop stays latched whatever the beam does and whatever
    other commands arrive ([enable_control] included): every value written
    to the actuator is 0, every telemetry record reports the magnet at 0,
    and the regulator is never stepped, so its integrator, its previous
    error and the sensor offset stay as they were. *)
Theorem emergency_stop_is_sticky (env : Env) (ticks : list RTLoop.tick) (l : RTLoop.t)
        (rs' : RTLoop.run_state) :
  RTLoop.wired env l ->
  RTLoop.emergency_stop (RTLoop.self l) = true ->
  Forall (fun tk =>
            match RTLoop.request tk with
            | Some s =>
                Json.eq_literal (Json.at_key (env_json_parse env s) "cmd")
                                "recommission" = false
            | None => True
            end) ticks ->
  RTLoop.run env ticks l = Ok rs' ->
  RTLoop.emergency_stop (RTLoop.self (RTLoop.loop rs')) = true /\
  Forall (fun r => RTLoop.tm_mag r = 0) (RTLoop.published rs') /\
  (exists zs,
      ControlAPI.commands (RTLoop.api (RTLoop.self (RTLoop.loop rs')))
      = zs ++ ControlAPI.commands (RTLoop.api (RTLoop.self l)) /\
      Forall (fun v => v = 0) zs) /\
  PID.integ (RTLoop.pid (RTLoop.self (RTLoop.loop rs')))
  = PID.integ (RTLoop.pid (RTLoop.self l)) /\
  PID.prev_err (RTLoop.pid (RTLoop.self (RTLoop.loop rs')))
  = PID.prev_err (RTLoop.pid (RTLoop.self l)) /\
  BPM.offset (ControlAPI.bpm (RTLoop.api (RTLoop.self (RTLoop.loop rs'))))
  = BPM.offset (ControlAPI.bpm (RTLoop.api (RTLoop.self l))).
Proof.
  intros Hw Hstop Hreq H. unfold RTLoop.run in H.
  destruct (RTLoop.period_of (RTLoop.hz (RTLoop.self l))) as [p|]; [|discriminate].
  cbn [bind] in H.
  destruct (iterate_stopped env ticks
              {| RTLoop.loop := l; RTLoop.period_ns := p; RTLoop.wd := Watchdog.make p;
                 RTLoop.published := []; RTLoop.replies := [] |}
              rs' Hw Hstop Hreq H)
    as (I1 & I2 & I3 & I4 & I5 & (records & I6 & I7)).
  cbn [RTLoop.loop RTLoop.published] in *.
  rewrite app_nil_r in I6. subst records.
  repeat split; assumption.
Qed.

(** A stopped loop that receives [enable_control] with [true] in the second
    of two iterations. *)
Lemma emergency_stop_is_sticky_witness :
  exists rs',
    RTLoop.run (env_parsing (cmd_enable_control true)) [tick_quiet; tick_late_request]
      (loop_stopped_in (env_parsing (cmd_enable_control true))) = Ok rs' /\
    RTLoop.replies rs' = [RTLoop.ok_true] /\
    RTLoop.emergency_stop (RTLoop.self (RTLoop.loop rs')) = true /\
    Forall (fun r => RTLoop.tm_mag r = 0) (RTLoop.published rs').
Proof.
  destruct (RTLoop.run (env_parsing (cmd_enable_control true))
              [tick_quiet; tick_late_request]
              (loop_stopped_in (env_parsing (cmd_enable_control true))))
    as [rs'|e] eqn:E; [|vm_compute in E; discriminate].
  exists rs'. split; [reflexivity|].
  assert (Hw : RTLoop.wired (env_parsing (cmd_enable_control true))
                 (loop_stopped_in (env_parsing (cmd_enable_control true)))).
  { unfold RTLoop.wired, MachineProtectionSystem.standard_blms. cbn.
    repeat split; repeat constructor. }
  destruct (emergency_stop_is_sticky (env_parsing (cmd_enable_control true))
              [tick_quiet; tick_late_request]
              (loop_stopped_in (env_parsing (cmd_enable_control true))) rs'
              Hw eq_refl ltac:(repeat constructor) E)
    as (H1 & H2 & _).
  split; [|split; [exact H1 | exact H2]].
  vm_compute in E. injection E as <-. reflexivity.
Defined.

(** The typed accesses of the command handler, by command. *)
Lemma handle_cmd_ill_typed (env : Env) (l : RTLoop.t) (s : string) (period_ns : Z)
      (m : list (string * Json.value)) (c k x : string) :
  env_json_parse env s = Json.Object m ->
  Json.find "cmd" m = Some (Json.String c) ->
  In (c, k) [ ("set_pid", "kp"); ("set_pid", "ki"); ("set_pid", "kd");
              ("set_freq", "hz"); ("set_setpoint", "sp");
              ("enable_control", "enable") ]%string ->
  Json.find k m = Some (Json.String x) ->
  RTLoop.handle_cmd env l s period_ns = Throw JsonTypeError.
Proof.
  intros Hp Hc Hin Hk. unfold RTLoop.handle_cmd. rewrite Hp.
  cbn [Json.is_object negb]. rewrite (at_key_found m "cmd" _ Hc).
  unfold Json.value_double, Json.value_bool.
  cbn [In] in Hin.
  repeat match type of Hin with
         | _ \/ _ => destruct Hin as [Hin | Hin]
         end;
    try contradiction; injection Hin as <- <-;
    cbn [Json.eq_literal String.eqb Ascii.eqb Bool.eqb];
    rewrite ?Hk; cbn [bind];
    repeat match goal with
           | |- context [match Json.find ?key m with _ => _ end] =>
               destruct (Json.find key m) as [[]|]; cbn [bind]; try reflexivity
           end;
    rewrite ?Hk in *; try reflexivity; try discriminate.
Qed.

(** X28: the loop with the machine protection does not catch what a command
    throws.  A command whose typed member holds a string ([kp], [ki] or [kd]
    of [set_pid], [hz] of [set_freq], [sp] of [set_setpoint], [enable] of
    [enable_control]) makes [handle_cmd] throw the type error of the JSON
    library, and the iteration that receives it ends [run] with that
    exception: no reply is sent and no later tick is served. *)
Theorem ill_typed_command_ends_the_run (env : Env) (l : RTLoop.t) (tk : RTLoop.tick)
        (rest : list RTLoop.tick) (s : string) (m : list (string * Json.value))
        (c k x : string) :
  RTLoop.running (RTLoop.self l) = true ->
  0 < RTLoop.hz (RTLoop.self l) ->
  RTLoop.request tk = Some s ->
  env_json_parse env s = Json.Object m ->
  Json.find "cmd" m = Some (Json.String c) ->
  In (c, k) [ ("set_pid", "kp"); ("set_pid", "ki"); ("set_pid", "kd");
              ("set_freq", "hz"); ("set_setpoint", "sp");
              ("enable_control", "enable") ]%string ->
  Json.find k m = Some (Json.String x) ->
  (forall l0 period_ns, RTLoop.handle_cmd env l0 s period_ns = Throw JsonTypeError) /\
  RTLoop.run env (tk :: rest) l = Throw JsonTypeError.
Proof.
  intros Hrun Hhz Hreq Hp Hc Hin Hk.
  assert (Hthrow : forall l0 period_ns,
             RTLoop.handle_cmd env l0 s period_ns = Throw JsonTypeError).
  { intros l0 p0. exact (handle_cmd_ill_typed env l0 s p0 m c k x Hp Hc Hin Hk). }
  split; [exact Hthrow|].
  unfold RTLoop.run. rewrite (period_of_total _ Hhz). cbn [bind RTLoop.iterate RTLoop.loop].
  rewrite Hrun. unfold RTLoop.iteration. cbn [RTLoop.loop RTLoop.period_ns].
  destruct (actuate_total env l (to_long_long ((1000000000 # 1) / RTLoop.hz (RTLoop.self l))))
    as (pos & intensity & u & l1 & Ha).
  rewrite Ha. cbn [bind].
  destruct (Watchdog.check _ _) as [missed w]. rewrite Hreq, Hthrow. reflexivity.
Qed.

(** The loop as built receives [set_freq] with the text [fast] for [hz]. *)
Lemma ill_typed_command_ends_the_run_witness :
  RTLoop.run (env_parsing (cmd_set_freq_text "fast")) [tick_late_request; tick_quiet]
    (RTLoop.make (env_parsing (cmd_set_freq_text "fast")) ControlAPI.init)
  = Throw JsonTypeError.
Proof.
  refine (proj2 (ill_typed_command_ends_the_run
                   (env_parsing (cmd_set_freq_text "fast"))
                   (RTLoop.make (env_parsing (cmd_set_freq_text "fast")) ControlAPI.init)
                   tick_late_request [tick_quiet] "request"
                   [ ("cmd", Json.String "set_freq"); ("hz", Json.String "fast") ]%string
                   "set_freq" "hz" "fast"
                   eq_refl eq_refl eq_refl eq_refl eq_refl _ eq_refl)).
  cbn. tauto.
Defined.

(** X29: [recommission] recovers a stopped loop.  On a wired loop, whatever
    its state, the command is answered with [{"ok":true}]; it clears the
    emergency stop, enables control, resets the protection system (the
    permit is back, the abort count is kept), zeroes the integrator and the
    previous error of the regulator with its gains, setpoint and integrator
    window kept, sets the sensor offset and the magnet to 0 and leaves
    frequency, limits, counters and the running flag alone.  In the next
    iteration, when the
    loss rate derived from the readings exceeds no abort threshold, the
    control block steps the regulator again and writes its output. *)
Theorem recommission_recovers (env : Env) (l : RTLoop.t) (s : string) (period_ns : Z)
        (m : list (string * Json.value)) :
  RTLoop.wired env l ->
  env_json_parse env s = Json.Object m ->
  Json.find "cmd" m = Some (Json.String "recommission") ->
  exists l',
    RTLoop.handle_cmd env l s period_ns = Ok (RTLoop.ok_true, l', period_ns) /\
    RTLoop.emergency_stop (RTLoop.self l') = false /\
    RTLoop.control_enabled (RTLoop.self l') = true /\
    MachineProtectionSystem.is_beam_permitted (RTLoop.mps l') = true /\
    MachineProtectionSystem.get_abort_count (RTLoop.mps l')
    = MachineProtectionSystem.get_abort_count (RTLoop.mps l) /\
    PID.integ (RTLoop.pid (RTLoop.self l')) = 0 /\
    PID.prev_err (RTLoop.pid (RTLoop.self l')) = 0 /\
    PID.kp (RTLoop.pid (RTLoop.self l')) = PID.kp (RTLoop.pid (RTLoop.self l)) /\
    PID.ki (RTLoop.pid (RTLoop.self l')) = PID.ki (RTLoop.pid (RTLoop.self l)) /\
    PID.kd (RTLoop.pid (RTLoop.self l')) = PID.kd (RTLoop.pid (RTLoop.self l)) /\
    PID.setpoint (RTLoop.pid (RTLoop.self l'))
    = PID.setpoint (RTLoop.pid (RTLoop.self l)) /\
    PID.integ_min (RTLoop.pid (RTLoop.self l'))
    = PID.integ_min (RTLoop.pid (RTLoop.self l)) /\
    PID.integ_max (RTLoop.pid (RTLoop.self l'))
    = PID.integ_max (RTLoop.pid (RTLoop.self l)) /\
    RTLoop.lim (RTLoop.self l') = RTLoop.lim (RTLoop.self l) /\
    RTLoop.hz (RTLoop.self l') = RTLoop.hz (RTLoop.self l) /\
    RTLoop.running (RTLoop.self l') = RTLoop.running (RTLoop.self l) /\
    RTLoop.loop_count (RTLoop.self l') = RTLoop.loop_count (RTLoop.self l) /\
    RTLoop.deadline_misses (RTLoop.self l')
    = RTLoop.deadline_misses (RTLoop.self l) /\
    BPM.offset (ControlAPI.bpm (RTLoop.api (RTLoop.self l'))) = 0 /\
    ControlAPI.get_magnet (RTLoop.api (RTLoop.self l')) = 0 /\
    forall (p : Z) (pos intensity : Q) (l1 : RTLoop.t),
      RTLoop.read_sensors env l' = (pos, intensity, l1) ->
      Forall (fun b => BeamLossMonitor.simulated_loss intensity pos
                       <= BeamLossMonitor.threshold_abort_ b)
             (MachineProtectionSystem.blms_ (RTLoop.mps l)) ->
      exists u p' l'',
        RTLoop.actuate env l' p = Ok (pos, intensity, u, l'') /\
        PID.step (RTLoop.pid (RTLoop.self l')) pos
          (inject_Z p * (1 # 1000000000))
          (Limits.magnet_min (RTLoop.lim (RTLoop.self l')))
          (Limits.magnet_max (RTLoop.lim (RTLoop.self l')))
        = Ok (u, p') /\
        RTLoop.pid (RTLoop.self l'') = p' /\
        ControlAPI.get_magnet (RTLoop.api (RTLoop.self l'')) = u /\
        RTLoop.emergency_stop (RTLoop.self l'') = false /\
        RTLoop.control_enabled (RTLoop.self l'') = true.
Proof.
  intros (Hs & Ha & Hb) Hp Hc.
  eexists. split.
  { unfold RTLoop.handle_cmd. rewrite Hp. cbn [Json.is_object negb].
    rewrite (at_key_found m "cmd" _ Hc).
    cbn [Json.eq_literal String.eqb Ascii.eqb Bool.eqb]. reflexivity. }
  cbn [RTLoop.self RTLoop.mps].
  do 19 (split; [reflexivity|]).
  intros p pos intensity l1 Hread Hbelow.
  match type of Hread with
  | RTLoop.read_sensors env ?l0 = _ =>
      pose proof (read_sensors_fields env l0) as Hr; set (l' := l0) in *
  end.
  cbn zeta in Hr. rewrite Hread in Hr. cbn [snd] in Hr.
  destruct Hr as (R1 & R2 & R3 & R4 & R5 & _).
  unfold RTLoop.actuate. rewrite Hread.
  unfold RTLoop.protect, MachineProtectionSystem.check_safety.
  rewrite R1. subst l'.
  cbn [RTLoop.mps RTLoop.self MachineProtectionSystem.reset_mps
       MachineProtectionSystem.state MachineProtectionSystem.blms_
       MachineProtectionSystem.beam_permit_ MachineProtectionSystem.abort_triggered_
       negb] in *.
  set (P := fun w : RTLoop.fields =>
              RTLoop.control_enabled w = true /\
              RTLoop.emergency_stop w = false /\
              RTLoop.pid w = RTLoop.pid (RTLoop.self l1) /\
              RTLoop.lim w = RTLoop.lim (RTLoop.self l1)).
  match goal with
  | |- context [MachineProtectionSystem.check_blms ?bl intensity pos (?f, ?w)] =>
      pose proof (check_blms_quiet RTLoop.fields env P bl intensity pos) as Hq;
      specialize (Hq (reset_mps_standard _ env _ Hs));
      assert (Hpass : Forall (fun b => BeamLossMonitor.abort_active_ b = true \/
                                       BeamLossMonitor.simulated_loss intensity pos
                                       <= BeamLossMonitor.threshold_abort_ b) bl);
      [| specialize (Hq Hpass f w) ]
  end.
  { apply Forall_map. eapply Forall_impl; [|exact Hbelow].
    cbn. intros b Hb0. right. exact Hb0. }
  assert (Hcb : forall cb message w0,
             MachineProtectionSystem.alarm_callback_
               {| MachineProtectionSystem.beam_permit_ := true;
                  MachineProtectionSystem.abort_triggered_ := false;
                  MachineProtectionSystem.total_aborts_ :=
                    MachineProtectionSystem.total_aborts_
                      (MachineProtectionSystem.state (RTLoop.mps l));
                  MachineProtectionSystem.beam_abort_callback_ :=
                    MachineProtectionSystem.beam_abort_callback_
                      (MachineProtectionSystem.state (RTLoop.mps l));
                  MachineProtectionSystem.alarm_callback_ :=
                    MachineProtectionSystem.alarm_callback_
                      (MachineProtectionSystem.state (RTLoop.mps l)) |} = Some cb ->
             P w0 -> P (cb message w0)).
  { cbn [MachineProtectionSystem.alarm_callback_]. rewrite Hb.
    intros cb message w0 E. injection E as <-. unfold P. cbn. tauto. }
  specialize (Hq Hcb ltac:(unfold P; repeat split; assumption)).
  cbn zeta in Hq.
  destruct (MachineProtectionSystem.check_blms _ intensity pos _)
    as [[safe blms'] [f' w']].
  cbn [fst snd] in Hq. destruct Hq as (-> & -> & Q1 & Q2 & Q3 & Q4).
  cbn [negb].
  match goal with
  | |- context [RTLoop.control ?l2 pos p] =>
      destruct (control_total l2 pos p)
        as (u & l3 & Hctl & _ & _ & C3 & C4 & _ & C6 & C7 & _)
  end.
  rewrite Hctl. cbn [bind RTLoop.self] in *.
  rewrite Q1, Q2 in C7. destruct (C7 eq_refl) as [Hstep _].
  rewrite Q3, Q4, R2, R3 in Hstep. cbn [RTLoop.pid RTLoop.lim RTLoop.with_pid
    RTLoop.with_api RTLoop.with_emergency_stop RTLoop.with_control_enabled] in Hstep.
  exists u, (RTLoop.pid (RTLoop.self l3)), l3.
  split; [reflexivity|]. split; [exact Hstep|]. split; [reflexivity|].
  split; [exact C6|]. split; congruence.
Qed.

(** The stopped loop receives [recommission]. *)
Lemma recommission_recovers_witness :
  exists l',
    RTLoop.handle_cmd (env_parsing cmd_recommission)
      (loop_stopped_in (env_parsing cmd_recommission)) "request" 1000000
    = Ok (RTLoop.ok_true, l', 1000000%Z) /\
    RTLoop.emergency_stop (RTLoop.self l') = false /\
    RTLoop.control_enabled (RTLoop.self l') = true /\
    MachineProtectionSystem.is_beam_permitted (RTLoop.mps l') = true.
Proof.
  assert (Hw : RTLoop.wired (env_parsing cmd_recommission)
                 (loop_stopped_in (env_parsing cmd_recommission))).
  { unfold RTLoop.wired, MachineProtectionSystem.standard_blms. cbn.
    repeat split; repeat constructor. }
  destruct (recommission_recovers (env_parsing cmd_recommission)
              (loop_stopped_in (env_parsing cmd_recommission)) "request" 1000000
              [ ("cmd", Json.String "recommission") ]%string Hw eq_refl eq_refl)
    as (l' & H1 & H2 & H3 & H4 & _).
  exists l'. repeat split; assumption.
Defined.

(** ** The command handler of the second loop, continued *)

Section AltHandlerFacts.

Variable HW : Type.
Variable LimitsT : Type.
Variable api_emergency_stop : HW -> HW.
Variable bpm_set_beam_position : Q -> Q -> HW -> HW.
Variable clamp_pid_gains : LimitsT -> Q -> Q -> Q -> Q * Q * Q.
Variable clamp_frequency : LimitsT -> Q -> Q.
Variable env : Env.

Local Notation handle_command :=
  (RTLoopAlt.handle_command api_emergency_stop bpm_set_beam_position
     clamp_pid_gains clamp_frequency env).

Lemma reply_of_true_is_no_error (text msg : string) :
  RTLoopAlt.reply_of "true" "message" text <> RTLoopAlt.reply_of "false" "error" msg.
Proof. unfold RTLoopAlt.reply_of. cbv. intros H. discriminate H. Qed.

(** X30: the second loop's handler catches what the first lets escape, and
    an error reply means that nothing happened: whenever [handle_command]
    answers with an error reply, the loop is exactly as it was.  In
    particular a text that is no JSON document, and a command whose typed
    member holds a string, are answered with the parse-error reply and
    change nothing.  A running loop is stopped by the [stop] command only. *)
Theorem alt_error_reply_changes_nothing (l : RTLoopAlt.t HW LimitsT) (s : string) :
  let r := handle_command l s in
  (forall msg, fst r = RTLoopAlt.reply_of "false" "error" msg -> snd r = l) /\
  (env_json_parse env s = Json.Discarded ->
   r = (RTLoopAlt.reply_of "false" "error" "JSON parse error", l)) /\
  (forall m c k x,
      env_json_parse env s = Json.Object m ->
      Json.find "cmd" m = Some (Json.String c) ->
      In (c, k) [ ("set_pid", "kp"); ("set_pid", "ki"); ("set_pid", "kd");
                  ("set_freq", "hz"); ("set_setpoint", "sp");
                  ("enable_control", "enable") ]%string ->
      Json.find k m = Some (Json.String x) ->
      r = (RTLoopAlt.reply_of "false" "error" "JSON parse error", l)) /\
  (RTLoopAlt.running_ l = true -> RTLoopAlt.running_ (snd r) = false ->
   fst r = RTLoopAlt.reply_of "true" "message" "Stopping control loop").
Proof.
  cbv zeta. split; [|split; [|split]].
  - intros msg. unfold RTLoopAlt.handle_command, RTLoopAlt.dispatch.
    destruct (env_json_parse env s) as [| b | q | t | a | m |]; cbn [fst snd];
      try reflexivity.
    cbn [Json.is_object negb orb Json.contains Json.at_key Json.get_string].
    destruct (Json.find "cmd" m) as [[| b | q | c | a | m' |]|];
      cbn [negb bind fst snd]; try reflexivity.
    repeat match goal with
           | |- context [if ?c then _ else _] => destruct c
           | |- context [bind ?e _] => destruct e; cbn [bind]
           | |- context [let '(_, _) := ?e in _] => destruct e as [[? ?] ?]
           end;
      cbn [fst snd]; try reflexivity;
      intros H; exfalso; first [ exact (reply_of_true_is_no_error _ _ H)
                               | discriminate H ].
  - intros Hp. unfold RTLoopAlt.handle_command. rewrite Hp. reflexivity.
  - intros m c k x Hp Hc Hin Hk.
    unfold RTLoopAlt.handle_command, RTLoopAlt.dispatch. rewrite Hp.
    cbn [Json.is_object negb orb Json.contains]. rewrite Hc. cbn [negb].
    rewrite (at_key_found m "cmd" _ Hc). cbn [Json.get_string bind].
    unfold Json.value_double, Json.value_bool.
    cbn [In] in Hin.
    repeat match type of Hin with
           | _ \/ _ => destruct Hin as [Hin | Hin]
           end;
      try contradiction; injection Hin as <- <-;
      cbn [String.eqb Ascii.eqb Bool.eqb];
      rewrite ?Hk; cbn [bind];
      repeat match goal with
             | |- context [match Json.find ?key m with _ => _ end] =>
                 destruct (Json.find key m) as [[]|]; cbn [bind]; try reflexivity
             end;
      rewrite ?Hk in *; try reflexivity; try discriminate.
  - unfold RTLoopAlt.handle_command, RTLoopAlt.dispatch.
    destruct (env_json_parse env s) as [| b | q | t | a | m |];
      try (cbn; congruence).
    cbn [Json.is_object negb orb Json.contains Json.at_key Json.get_string].
    destruct (Json.find "cmd" m) as [[| b | q | c | a | m' |]|];
      cbn [negb bind fst snd]; try (cbn; congruence).
    repeat match goal with
           | |- context [if ?c then _ else _] => destruct c
           | |- context [bind ?e _] => destruct e; cbn [bind]
           | |- context [let '(_, _) := ?e in _] => destruct e as [[? ?] ?]
           end;
      cbn; try congruence; reflexivity.
Qed.

End AltHandlerFacts.
